(** * aive: timeline data model, template filling and render queue

    A shallow embedding of the Python sources

      - [aive/core/clips.py], [aive/core/track.py], [aive/core/timeline.py]
      - [templates/placeholder.py]
      - [pipeline/render_queue.py]

    Conventions of the embedding.

    - Python [float] seconds are exact rationals [Q]; the comparisons
      and sums of the source are the ones of [Q] (no rounding, no NaN).
    - Python [int] indices are [Z]; list operations follow Python for
      negative and out-of-range indices, and [list.insert] for an
      index that does not fit a C [ssize_t] (64 bits).
    - A method that may raise returns a [result]; a method that mutates
      [self] is a computation of the state-and-exception monad [M].
    - Python objects compared by identity carry an object id.
    - Code of the caller that the render queue calls (renderers, the
      progress callback) is a parameter: a function on the job and the
      state of the queue that returns, raises, or does not return. *)

From Stdlib Require Import ZArith QArith List String Bool Lia Lqa DecimalString.
From Stdlib Require Import Sorted Permutation.
From Stdlib Require HexadecimalString.
From stdpp Require Import gmap strings list.
Import ListNotations.

Local Open Scope string_scope.
Local Open Scope list_scope.
Local Open Scope Z_scope.

(** ** Exceptions and results *)

Inductive PyExn : Type :=
| ValueError (msg : string)
| IndexError (msg : string)
| RuntimeError (msg : string)
| UnboundLocalError (msg : string)
| AttributeError (msg : string)
| ReferenceError (msg : string)
| OverflowError (msg : string)
| Exception (msg : string)
| KeyboardInterrupt (msg : string)
| SystemExit (msg : string).

(** [str(e)] of an exception built from one message argument. *)
Definition str_exn (e : PyExn) : string :=
  match e with
  | ValueError m | IndexError m | RuntimeError m | UnboundLocalError m
  | AttributeError m | ReferenceError m | OverflowError m | Exception m
  | KeyboardInterrupt m | SystemExit m => m
  end.

(** [isinstance(e, Exception)]: [KeyboardInterrupt] and [SystemExit]
    derive from [BaseException] only, and [except Exception] lets
    them pass. *)
Definition is_Exception (e : PyExn) : bool :=
  match e with
  | KeyboardInterrupt _ | SystemExit _ => false
  | _ => true
  end.

Inductive result (A : Type) : Type :=
| Ok (a : A)
| Raise (e : PyExn).
Arguments Ok {A} a.
Arguments Raise {A} e.

Definition is_ok {A} (r : result A) : bool :=
  match r with Ok _ => true | Raise _ => false end.

Definition rbind {A B} (r : result A) (k : A -> result B) : result B :=
  match r with
  | Ok a => k a
  | Raise e => Raise e
  end.

Declare Scope result_scope.
Delimit Scope result_scope with res.
Notation "x <-- c ;; k" := (rbind c (fun x => k))
  (at level 100, c at next level, right associativity) : result_scope.

(** Evaluate a generator expression [f(x) for x in l] into a list; the
    first element whose [f] raises ends the evaluation. *)
Fixpoint mapM_result {A B} (f : A -> result B) (l : list A) : result (list B) :=
  match l with
  | [] => Ok []
  | x :: r =>
      (y <-- f x ;;
       ys <-- mapM_result f r ;;
       Ok (y :: ys))%res
  end.

(** ** The state-and-exception monad of mutating methods

    A computation receives the object's state and returns the state it
    leaves behind together with a value or the exception raised.
    Mutations performed before a [raise] persist, as in Python. *)

Definition M (S A : Type) : Type := S -> result A * S.

Definition ret {S A} (a : A) : M S A := fun s => (Ok a, s).
Definition raise {S A} (e : PyExn) : M S A := fun s => (Raise e, s).
Definition bind {S A B} (c : M S A) (k : A -> M S B) : M S B :=
  fun s => match c s with
           | (Ok a, s') => k a s'
           | (Raise e, s') => (Raise e, s')
           end.
Definition get {S} : M S S := fun s => (Ok s, s).
Definition put {S} (s : S) : M S unit := fun _ => (Ok tt, s).
Definition modify {S} (f : S -> S) : M S unit := fun s => (Ok tt, f s).
Definition lift {S A} (r : result A) : M S A := fun s => (r, s).

(** [try: c  except E: ...]: the handler [h] tells the exceptions of
    the class [E] from the others, which it raises again. *)
Definition try_except {S A} (c : M S A) (h : PyExn -> M S A) : M S A :=
  fun s => match c s with
           | (Ok a, s') => (Ok a, s')
           | (Raise e, s') => h e s'
           end.

(** [try: c  finally: f] *)
Definition try_finally {S A} (c : M S A) (f : M S unit) : M S A :=
  fun s => match c s with
           | (r, s') =>
               match f s' with
               | (Ok _, s'') => (r, s'')
               | (Raise e, s'') => (Raise e, s'')
               end
           end.

Declare Scope monad_scope.
Delimit Scope monad_scope with M.
Notation "x <- c ;; k" := (bind c (fun x => k))
  (at level 100, c at next level, right associativity) : monad_scope.
Notation "c ;; k" := (bind c (fun _ => k))
  (at level 100, right associativity) : monad_scope.

(** ** Rational comparisons as booleans *)

Definition Qlt_bool (x y : Q) : bool := negb (Qle_bool y x).

(** Python's [max] over a materialised iterable: the first of the
    largest elements, [ValueError] when there is none. *)
Definition py_max (l : list Q) : result Q :=
  match l with
  | [] => Raise (ValueError "max() arg is an empty sequence")
  | x :: r => Ok (fold_left (fun m y => if Qlt_bool m y then y else m) r x)
  end.

(** Python's [min(a, b)] and [max(a, b)]: the first argument is
    returned unless the second is strictly smaller (larger). *)
Definition py_min2 (a b : Q) : Q := if Qlt_bool b a then b else a.
Definition py_max2 (a b : Q) : Q := if Qlt_bool a b then b else a.

(** ** Python lists indexed by [int] *)

Module pylist.
Section Ops.
Context {A : Type}.

Definition len (l : list A) : Z := Z.of_nat (length l).

(** [l[i]] *)
Definition getitem (l : list A) (i : Z) : result A :=
  let j := if i <? 0 then i + len l else i in
  if (0 <=? j) && (j <? len l) then
    match nth_error l (Z.to_nat j) with
    | Some x => Ok x
    | None => Raise (IndexError "list index out of range")
    end
  else Raise (IndexError "list index out of range").

(** [l[i] = x] *)
Definition setitem (l : list A) (i : Z) (x : A) : result (list A) :=
  let j := if i <? 0 then i + len l else i in
  if (0 <=? j) && (j <? len l) then Ok (<[Z.to_nat j := x]> l)
  else Raise (IndexError "list assignment index out of range").

(** The index of [l.insert] is converted to a C [ssize_t], 64 bits
    wide here: an [int] outside [-2**63 .. 2**63 - 1] does not fit. *)
Definition fits_ssize_t (i : Z) : bool := (- 2 ^ 63 <=? i) && (i <? 2 ^ 63).

(** The insertion itself: the index is clamped to [0 .. len l]. *)
Definition insert_at (l : list A) (i : Z) (x : A) : list A :=
  let j := if i <? 0 then Z.max 0 (i + len l) else Z.min i (len l) in
  take (Z.to_nat j) l ++ x :: drop (Z.to_nat j) l.

(** [l.insert(i, x)]: [OverflowError] for an index that does not fit,
    before anything is inserted. *)
Definition insert (l : list A) (i : Z) (x : A) : result (list A) :=
  if fits_ssize_t i then Ok (insert_at l i x)
  else Raise (OverflowError "Python int too large to convert to C ssize_t").

(** [l.pop(i)] *)
Definition pop (l : list A) (i : Z) : result (A * list A) :=
  let j := if i <? 0 then i + len l else i in
  if (0 <=? j) && (j <? len l) then
    match nth_error l (Z.to_nat j) with
    | Some x => Ok (x, take (Z.to_nat j) l ++ drop (S (Z.to_nat j)) l)
    | None => Raise (IndexError "pop index out of range")
    end
  else Raise (IndexError "pop index out of range").

(** [l.index(x)] and [l.remove(x)], for an equality test [eqb]. *)
Fixpoint index_from (eqb : A -> A -> bool) (x : A) (l : list A) (n : Z)
  : result Z :=
  match l with
  | [] => Raise (ValueError "x is not in list")
  | y :: r => if eqb y x then Ok n else index_from eqb x r (n + 1)
  end.
Definition index (eqb : A -> A -> bool) (l : list A) (x : A) : result Z :=
  index_from eqb x l 0.

Fixpoint remove (eqb : A -> A -> bool) (l : list A) (x : A)
  : result (list A) :=
  match l with
  | [] => Raise (ValueError "list.remove(x): x not in list")
  | y :: r =>
      if eqb y x then Ok r
      else match remove eqb r x with
           | Ok r' => Ok (y :: r')
           | Raise e => Raise e
           end
  end.

(** [l.sort(key=key)] for float keys.  Python's sort is stable and
    compares keys with [<] only; a stable sort has one result, which
    is computed here by insertion from the right. *)
Fixpoint sort_insert (key : A -> Q) (x : A) (l : list A) : list A :=
  match l with
  | [] => [x]
  | y :: r =>
      if Qlt_bool (key y) (key x) then y :: sort_insert key x r
      else x :: y :: r
  end.
Definition sort (key : A -> Q) (l : list A) : list A :=
  fold_right (sort_insert key) [] l.

(** [enumerate(l)] *)
Definition enumerate (l : list A) : list (Z * A) :=
  combine (map Z.of_nat (seq 0 (length l))) l.
End Ops.
End pylist.

(** ** [core/clips.py] *)

Module clips.

Record Position : Type := { x : Q; y : Q }.

Record Color : Type := { r : Z; g : Z; b : Z; a : Z }.

(** [format(n, "02x")] for an [int]: lowercase hexadecimal digits, a
    minus sign before them for a negative number, zeros after the sign
    up to a width of 2. *)
Definition hex_digits (n : N) : string :=
  HexadecimalString.NilZero.string_of_uint (N.to_hex_uint n).

Definition format_02x (n : Z) : string :=
  let digits := hex_digits (Z.abs_N n) in
  if n <? 0 then "-" ++ digits
  else if (String.length digits <? 2)%nat then "0" ++ digits
  else digits.

(** [Color.to_hex] *)
Definition to_hex (self : Color) : string :=
  "#" ++ format_02x (r self) ++ format_02x (g self) ++ format_02x (b self).

(** The concrete subclasses of the abstract class [Clip]. *)
Inductive ClipClass : Type :=
| CVideoClip | CAudioClip | CImageClip | CTextClip.

(** The attributes each subclass adds to the base class. *)
Inductive ClipAttrs : Type :=
| VideoClip (source_path : string) (scale : Q) (position : Position)
| AudioClip (source_path : string) (volume : Q)
| ImageClip (source_path : string) (scale : Q) (position : Position)
| TextClip (text : string) (font_size : Z) (font_family : string)
           (color : Color) (position : Position).

(** A clip object: its identity, the attributes of [Clip.__init__]
    and those of its subclass. *)
Record Clip : Type := {
  oid : nat;
  start_time : Q;
  duration : option Q;
  name : option string;
  attrs : ClipAttrs
}.

Definition class_of (c : Clip) : ClipClass :=
  match attrs c with
  | VideoClip _ _ _ => CVideoClip
  | AudioClip _ _ => CAudioClip
  | ImageClip _ _ _ => CImageClip
  | TextClip _ _ _ _ _ => CTextClip
  end.

(** [type(clip).__name__] *)
Definition type_name (c : Clip) : string :=
  match class_of c with
  | CVideoClip => "VideoClip"
  | CAudioClip => "AudioClip"
  | CImageClip => "ImageClip"
  | CTextClip => "TextClip"
  end.

Definition ClipClass_eqb (c1 c2 : ClipClass) : bool :=
  match c1, c2 with
  | CVideoClip, CVideoClip | CAudioClip, CAudioClip
  | CImageClip, CImageClip | CTextClip, CTextClip => true
  | _, _ => false
  end.

(** [isinstance(clip, allowed)] for a tuple of classes. *)
Definition isinstance (c : Clip) (allowed : list ClipClass) : bool :=
  existsb (ClipClass_eqb (class_of c)) allowed.

(** Clips define no [__eq__]: [==] is object identity. *)
Definition same_object (c1 c2 : Clip) : bool := Nat.eqb (oid c1) (oid c2).

(** The property [Clip.end_time]. *)
Definition end_time (self : Clip) : result Q :=
  match duration self with
  | None => Raise (ValueError "Cannot calculate end_time without duration")
  | Some d => Ok (start_time self + d)%Q
  end.

End clips.

(** ** [core/transitions.py] (the attributes a track stores) *)

Module transitions.

Inductive TransitionType : Type := CROSSFADE | WIPE | FADE | SLIDE.

Record Transition : Type := {
  transition_type : TransitionType;
  duration : Q;
  name : option string
}.

(** [CrossfadeTransition]: the attributes, the constructor and
    [set_curve]. *)
Record CrossfadeTransition : Type := {
  crossfade_duration : Q;
  crossfade_name : option string;
  curve : string
}.

Definition valid_curves : list string :=
  ["linear"; "ease_in"; "ease_out"; "ease_in_out"].

Definition curve_error : PyExn :=
  ValueError "Curve must be one of: ['linear', 'ease_in', 'ease_out', 'ease_in_out']".

(** [CrossfadeTransition(duration, curve, name)] *)
Definition new_crossfade (duration : Q) (curve : string) (name : option string)
  : result CrossfadeTransition :=
  if negb (existsb (String.eqb curve) valid_curves) then Raise curve_error
  else Ok {| crossfade_duration := duration; crossfade_name := name;
             curve := curve |}.

Definition set_curve (curve : string) : M CrossfadeTransition unit :=
  if negb (existsb (String.eqb curve) valid_curves) then raise curve_error
  else modify (fun self =>
                 {| crossfade_duration := crossfade_duration self;
                    crossfade_name := crossfade_name self;
                    curve := curve |}).

(** [WipeTransition]: the feather is clamped to [0.0 .. 1.0] by the
    constructor and by [set_feather]. *)
Inductive WipeDirection : Type :=
| LEFT_TO_RIGHT | RIGHT_TO_LEFT | TOP_TO_BOTTOM | BOTTOM_TO_TOP.

Record WipeTransition : Type := {
  wipe_duration : Q;
  wipe_name : option string;
  direction : WipeDirection;
  feather : Q
}.

(** [WipeTransition(duration, direction, feather, name)] *)
Definition new_wipe (duration : Q) (direction : WipeDirection) (feather : Q)
           (name : option string) : WipeTransition :=
  {| wipe_duration := duration; wipe_name := name; direction := direction;
     feather := py_max2 0 (py_min2 1 feather) |}.

Definition set_direction (direction : WipeDirection) : M WipeTransition unit :=
  modify (fun self =>
            {| wipe_duration := wipe_duration self; wipe_name := wipe_name self;
               direction := direction; feather := feather self |}).

Definition set_feather (feather : Q) : M WipeTransition unit :=
  modify (fun self =>
            {| wipe_duration := wipe_duration self; wipe_name := wipe_name self;
               direction := direction self;
               feather := py_max2 0 (py_min2 1 feather) |}).

End transitions.

(** ** [core/track.py] *)

Module track.
Import clips.

Inductive TrackType : Type := VIDEO | AUDIO | TEXT | COMPOSITE.

(** [TrackType.value] *)
Definition value (t : TrackType) : string :=
  match t with
  | VIDEO => "video" | AUDIO => "audio" | TEXT => "text"
  | COMPOSITE => "composite"
  end.

Definition TrackType_eqb (t1 t2 : TrackType) : bool :=
  match t1, t2 with
  | VIDEO, VIDEO | AUDIO, AUDIO | TEXT, TEXT | COMPOSITE, COMPOSITE => true
  | _, _ => false
  end.

Record Track : Type := {
  track_type : TrackType;
  name : option string;
  enabled : bool;
  _clips : list Clip;
  _transitions : gmap Z transitions.Transition;
  opacity : Q;
  muted : bool;
  locked : bool
}.

(** [Track(track_type, name, enabled)] *)
Definition new (track_type : TrackType) (name : option string)
           (enabled : bool) : Track :=
  {| track_type := track_type; name := name; enabled := enabled;
     _clips := []; _transitions := ∅;
     opacity := 1; muted := false; locked := false |}.

Definition set_clips (self : Track) (cs : list Clip) : Track :=
  {| track_type := track_type self; name := name self;
     enabled := enabled self; _clips := cs;
     _transitions := _transitions self; opacity := opacity self;
     muted := muted self; locked := locked self |}.

Definition set_transitions (self : Track)
           (ts : gmap Z transitions.Transition) : Track :=
  {| track_type := track_type self; name := name self;
     enabled := enabled self; _clips := _clips self;
     _transitions := ts; opacity := opacity self;
     muted := muted self; locked := locked self |}.

(** The property [Track.duration]. *)
Definition duration (self : Track) : result Q :=
  match _clips self with
  | [] => Ok 0%Q
  | _ =>
      (ends <-- mapM_result end_time
                  (List.filter (fun clip => bool_decide (clips.duration clip <> None))
                               (_clips self)) ;;
       py_max ends)%res
  end.

(** The table [valid_types] of [_validate_clip_type]. *)
Definition valid_types : list (TrackType * list ClipClass) :=
  [ (VIDEO, [CVideoClip; CImageClip]);
    (AUDIO, [CAudioClip]);
    (TEXT, [CTextClip]) ].

Fixpoint lookup_type (t : TrackType) (tbl : list (TrackType * list ClipClass))
  : option (list ClipClass) :=
  match tbl with
  | [] => None
  | (k, v) :: rest => if TrackType_eqb k t then Some v else lookup_type t rest
  end.

Definition _validate_clip_type (self : Track) (clip : Clip) : result unit :=
  if TrackType_eqb (track_type self) COMPOSITE then Ok tt
  else
    match lookup_type (track_type self) valid_types with
    | Some allowed_types =>
        if negb (isinstance clip allowed_types) then
          Raise (ValueError ("Track type " ++ value (track_type self)
                             ++ " cannot contain " ++ type_name clip))
        else Ok tt
    | None => Ok tt
    end.

Definition add_clip (clip : Clip) (index : option Z) : M Track unit :=
  (self <- get ;;
   lift (_validate_clip_type self clip) ;;
   match index with
   | None => put (set_clips self (_clips self ++ [clip]))
   | Some i =>
       clips <- lift (pylist.insert (_clips self) i clip) ;;
       put (set_clips self clips)
   end)%M.

(** The argument of [remove_clip]: [Union[Clip, int]]. *)
Inductive ClipOrIndex : Type :=
| AsIndex (i : Z)
| AsClip (c : Clip).

Definition del_transition_if_present (i : Z) : M Track unit :=
  (self <- get ;;
   if bool_decide (is_Some (_transitions self !! i)) then
     put (set_transitions self (delete i (_transitions self)))
   else ret tt)%M.

Definition remove_clip (clip : ClipOrIndex) : M Track unit :=
  match clip with
  | AsIndex i =>
      (self <- get ;;
       if (0 <=? i) && (i <? pylist.len (_clips self)) then
         (del_transition_if_present i ;;
          self <- get ;;
          popped <- lift (pylist.pop (_clips self) i) ;;
          put (set_clips self (snd popped)))
       else ret tt)%M
  | AsClip c =>
      try_except
        (self <- get ;;
         index <- lift (pylist.index same_object (_clips self) c) ;;
         del_transition_if_present index ;;
         self <- get ;;
         rest <- lift (pylist.remove same_object (_clips self) c) ;;
         put (set_clips self rest))%M
        (fun e => match e with
                  | ValueError _ => ret tt
                  | _ => raise e
                  end)
  end.

Definition insert_clip (clip : Clip) (index : Z) : M Track unit :=
  add_clip clip (Some index).

Definition get_clip (self : Track) (index : Z) : result (option Clip) :=
  if (0 <=? index) && (index <? pylist.len (_clips self)) then
    (c <-- pylist.getitem (_clips self) index ;; Ok (Some c))%res
  else Ok None.

(** The loop of [find_clips_at_time]; the chained comparison
    evaluates [clip.end_time] only when [start_time <= time]. *)
Definition find_clips_at_time (self : Track) (time : Q) : result (list Clip) :=
  fold_left
    (fun acc clip =>
       (active_clips <-- acc ;;
        match clips.duration clip with
        | Some _ =>
            if Qle_bool (start_time clip) time then
              (e <-- end_time clip ;;
               if Qlt_bool time e then Ok (active_clips ++ [clip])
               else Ok active_clips)
            else Ok active_clips
        | None => Ok active_clips
        end)%res)
    (_clips self) (Ok []).

Definition add_transition (clip_index : Z)
           (transition : transitions.Transition) : M Track unit :=
  (self <- get ;;
   if (0 <=? clip_index) && (clip_index <? pylist.len (_clips self) - 1) then
     put (set_transitions self (<[clip_index := transition]> (_transitions self)))
   else ret tt)%M.

Definition remove_transition (clip_index : Z) : M Track unit :=
  del_transition_if_present clip_index.

Definition get_transition (self : Track) (clip_index : Z)
  : option transitions.Transition :=
  _transitions self !! clip_index.

Definition clear : M Track unit :=
  (self <- get ;;
   put (set_transitions (set_clips self []) ∅))%M.

(** [set_opacity]: the value stored is [max(0.0, min(1.0, opacity))]. *)
Definition set_opacity (opacity : Q) : M Track unit :=
  modify (fun self =>
            {| track_type := track_type self; name := name self;
               enabled := enabled self; _clips := _clips self;
               _transitions := _transitions self;
               opacity := py_max2 0 (py_min2 1 opacity);
               muted := muted self; locked := locked self |}).

Definition set_muted (muted : bool) : M Track unit :=
  modify (fun self =>
            {| track_type := track_type self; name := name self;
               enabled := enabled self; _clips := _clips self;
               _transitions := _transitions self; opacity := opacity self;
               muted := muted; locked := locked self |}).

Definition set_locked (locked : bool) : M Track unit :=
  modify (fun self =>
            {| track_type := track_type self; name := name self;
               enabled := enabled self; _clips := _clips self;
               _transitions := _transitions self; opacity := opacity self;
               muted := muted self; locked := locked |}).

Definition set_enabled (enabled : bool) : M Track unit :=
  modify (fun self =>
            {| track_type := track_type self; name := name self;
               enabled := enabled; _clips := _clips self;
               _transitions := _transitions self; opacity := opacity self;
               muted := muted self; locked := locked self |}).

Definition sort_clips_by_time : M Track unit :=
  modify (fun self => set_clips self (pylist.sort start_time (_clips self))).

(** [get_clips_by_type(clip_type)]; the argument is a class of
    [clips.py] or a tuple of them, given as the concrete classes it
    covers (all four for the abstract class [Clip]). *)
Definition get_clips_by_type (self : Track) (clip_type : list ClipClass)
  : list Clip :=
  List.filter (fun clip => isinstance clip clip_type) (_clips self).

Definition __len__ (self : Track) : Z := pylist.len (_clips self).

(** [track[index]] for an [int] index. *)
Definition __getitem__ (self : Track) (index : Z) : result Clip :=
  pylist.getitem (_clips self) index.

End track.

(** ** [core/timeline.py]

    The record is parametric in what the list [_tracks] holds: track
    values ([Timeline track.Track]) for the queries below, references
    into an object store where sharing matters (module [placeholder]). *)

Module timeline.

Record Timeline (T : Type) : Type := {
  width : Z;
  height : Z;
  framerate : Q;
  name : option string;
  _tracks : list T
}.
Arguments width {T} _.
Arguments height {T} _.
Arguments framerate {T} _.
Arguments name {T} _.
Arguments _tracks {T} _.

(** [Timeline(width, height, framerate, name)] *)
Definition new {T} (width height : Z) (framerate : Q) (name : option string)
  : Timeline T :=
  {| width := width; height := height; framerate := framerate;
     name := name; _tracks := [] |}.

Definition set_tracks {T U} (self : Timeline T) (ts : list U) : Timeline U :=
  {| width := width self; height := height self;
     framerate := framerate self; name := name self; _tracks := ts |}.

(** The property [Timeline.duration]. *)
Definition duration (self : Timeline track.Track) : result Q :=
  match _tracks self with
  | [] => Ok 0%Q
  | _ =>
      (ds <-- mapM_result track.duration
                (List.filter track.enabled (_tracks self)) ;;
       py_max ds)%res
  end.

(** [add_track(track, track_type)]: a new track of the given type is
    created when none is passed. *)
Definition add_track (t : option track.Track) (track_type : track.TrackType)
  : M (Timeline track.Track) track.Track :=
  (self <- get ;;
   let t := match t with
            | Some t => t
            | None => track.new track_type None true
            end in
   put (set_tracks self (_tracks self ++ [t])) ;;
   ret t)%M.

Definition get_track {T} (self : Timeline T) (index : Z) : result (option T) :=
  if (0 <=? index) && (index <? pylist.len (_tracks self)) then
    (t <-- pylist.getitem (_tracks self) index ;; Ok (Some t))%res
  else Ok None.

(** The property [resolution]. *)
Definition resolution {T} (self : Timeline T) : Z * Z :=
  (width self, height self).

(** The argument of [remove_track]: [Union[Track, int]]. *)
Inductive TrackOrIndex (T : Type) : Type :=
| AsIndex (i : Z)
| AsTrack (t : T).
Arguments AsIndex {T} i.
Arguments AsTrack {T} t.

(** [remove_track].  [Track] defines no [__eq__]: [list.remove]
    compares tracks by identity, the test [same_object] (equality of
    references when the list holds references). *)
Definition remove_track {T} (same_object : T -> T -> bool)
           (track : TrackOrIndex T) : M (Timeline T) unit :=
  match track with
  | AsIndex i =>
      (self <- get ;;
       if (0 <=? i) && (i <? pylist.len (_tracks self)) then
         (popped <- lift (pylist.pop (_tracks self) i) ;;
          put (set_tracks self (snd popped)))
       else ret tt)%M
  | AsTrack t =>
      try_except
        (self <- get ;;
         rest <- lift (pylist.remove same_object (_tracks self) t) ;;
         put (set_tracks self rest))%M
        (fun e => match e with
                  | ValueError _ => ret tt
                  | _ => raise e
                  end)
  end.

Definition insert_track {T} (track : T) (index : Z) : M (Timeline T) unit :=
  (self <- get ;;
   tracks <- lift (pylist.insert (_tracks self) index track) ;;
   put (set_tracks self tracks))%M.

(** [move_track].  Both indices are within the list when it is
    changed, so the index of [insert] fits and is not clamped. *)
Definition move_track {T} (from_index to_index : Z) : M (Timeline T) unit :=
  (self <- get ;;
   if ((0 <=? from_index) && (from_index <? pylist.len (_tracks self)))
      && ((0 <=? to_index) && (to_index <? pylist.len (_tracks self))) then
     (popped <- lift (pylist.pop (_tracks self) from_index) ;;
      put (set_tracks self
             (pylist.insert_at (snd popped) to_index (fst popped))))
   else ret tt)%M.

(** [find_clips_at_time]: the dictionary [{index: clips}], as the list
    of its items in insertion order (every key is inserted once). *)
Definition find_clips_at_time (self : Timeline track.Track) (time : Q)
  : result (list (Z * list clips.Clip)) :=
  fold_left
    (fun acc item =>
       (found <-- acc ;;
        if track.enabled (snd item) then
          (active <-- track.find_clips_at_time (snd item) time ;;
           match active with
           | [] => Ok found
           | _ => Ok (found ++ [(fst item, active)])
           end)
        else Ok found)%res)
    (pylist.enumerate (_tracks self)) (Ok []).

Definition get_all_clips (self : Timeline track.Track) : list clips.Clip :=
  fold_left (fun all_clips t => all_clips ++ track._clips t)
            (_tracks self) [].

Definition get_clips_by_type (self : Timeline track.Track)
           (clip_type : list clips.ClipClass) : list clips.Clip :=
  fold_left (fun cs t => cs ++ track.get_clips_by_type t clip_type)
            (_tracks self) [].

Definition remove_all_tracks {T} : M (Timeline T) unit :=
  modify (fun self => set_tracks self (@nil T)).

Definition __len__ {T} (self : Timeline T) : Z := pylist.len (_tracks self).

(** [timeline[index]] for an [int] index. *)
Definition __getitem__ {T} (self : Timeline T) (index : Z) : result T :=
  pylist.getitem (_tracks self) index.

End timeline.

(** ** [templates/placeholder.py]

    [VideoTemplate.fill] deep-copies the base timeline and then assigns
    into the copy's tracks, so tracks are modelled as objects of a
    store: a timeline holds references (object ids) to its tracks. *)

Module placeholder.
Import clips.

(** *** The object store *)

Record Store : Type := {
  objects : gmap nat track.Track;
  next_id : nat
}.

Definition empty_store : Store := {| objects := ∅; next_id := 0 |}.

(** Allocation of a new [Track] object. *)
Definition alloc_track (t : track.Track) : M Store nat :=
  fun s => (Ok (next_id s),
            {| objects := <[next_id s := t]> (objects s);
               next_id := S (next_id s) |}).

(** Reading through a reference.  A reference that was never
    allocated cannot exist in Python; the model reports it as
    [ReferenceError]. *)
Definition read_track (ref : nat) : M Store track.Track :=
  fun s => match objects s !! ref with
           | Some t => (Ok t, s)
           | None => (Raise (ReferenceError "no such object"), s)
           end.

Definition write_track (ref : nat) (t : track.Track) : M Store unit :=
  fun s => (Ok tt, {| objects := <[ref := t]> (objects s);
                      next_id := next_id s |}).

Definition set_oid (c : Clip) (n : nat) : Clip :=
  {| oid := n; start_time := start_time c; duration := duration c;
     name := name c; attrs := attrs c |}.

(** A clip constructor call: the new object receives a fresh id. *)
Definition new_clip (c : Clip) : M Store Clip :=
  fun s => (Ok (set_oid c (next_id s)),
            {| objects := objects s; next_id := S (next_id s) |}).

Fixpoint forM {S A} (l : list A) (f : A -> M S unit) : M S unit :=
  match l with
  | [] => ret tt
  | x :: r => (f x ;; forM r f)%M
  end.

(** [copy.deepcopy(timeline)]: every object reachable from the
    timeline is copied to a fresh object and sharing is preserved.
    The copy of the object with id [i] gets the id [i + next_id]. *)
Definition copy_track (off : nat) (t : track.Track) : track.Track :=
  track.set_clips t (map (fun c => set_oid c (oid c + off)) (track._clips t)).

Definition deepcopy (tl : timeline.Timeline nat)
  : M Store (timeline.Timeline nat) :=
  (s0 <- get ;;
   let off := next_id s0 in
   forM (timeline._tracks tl)
        (fun ref => t <- read_track ref ;;
                    write_track (ref + off) (copy_track off t)) ;;
   modify (fun s => {| objects := objects s; next_id := off + off |}) ;;
   ret (timeline.set_tracks tl (map (fun ref => (ref + off)%nat)
                                    (timeline._tracks tl))))%M.

(** *** Placeholders *)

Section Template.
(** The type of [data: Dict[str, Any]]. *)
Context {Data : Type}.

(** The abstract class [Placeholder]: a key and the two abstract
    methods.  [create_clip] returns the attributes of the clip it
    constructs; the object id is assigned by [new_clip]. *)
Record Placeholder : Type := {
  key : string;
  description : option string;
  create_clip : Data -> result Clip;
  validate_data : Data -> list string
}.

Record TemplateInfo : Type := {
  info_name : string;
  info_description : string
}.

(** A [dict] iterated in insertion order: assigning to a key that
    is present keeps its place. *)
Fixpoint dict_set {V} (k : string) (v : V) (d : list (string * V))
  : list (string * V) :=
  match d with
  | [] => [(k, v)]
  | (k', v') :: rest =>
      if String.eqb k' k then (k, v) :: rest
      else (k', v') :: dict_set k v rest
  end.

(** [d.get(k)] and [del d[k]] *)
Fixpoint dict_get {V} (k : string) (d : list (string * V)) : option V :=
  match d with
  | [] => None
  | (k', v') :: rest => if String.eqb k' k then Some v' else dict_get k rest
  end.

Fixpoint dict_del {V} (k : string) (d : list (string * V))
  : list (string * V) :=
  match d with
  | [] => []
  | (k', v') :: rest =>
      if String.eqb k' k then rest else (k', v') :: dict_del k rest
  end.

Record VideoTemplate : Type := {
  timeline : timeline.Timeline nat;
  info : TemplateInfo;
  _placeholders : list (string * Placeholder);
  _placeholder_positions : gmap string (Z * Z)
}.

(** [VideoTemplate(timeline, info)] *)
Definition new (tl : timeline.Timeline nat) (info : option TemplateInfo)
  : VideoTemplate :=
  {| timeline := tl;
     info := match info with
             | Some i => i
             | None => {| info_name := "Untitled Template";
                          info_description := "No description" |}
             end;
     _placeholders := [];
     _placeholder_positions := ∅ |}.

Definition set_placeholders (self : VideoTemplate)
           (ps : list (string * Placeholder)) : VideoTemplate :=
  {| timeline := timeline self; info := info self;
     _placeholders := ps;
     _placeholder_positions := _placeholder_positions self |}.

Definition set_positions (self : VideoTemplate)
           (pos : gmap string (Z * Z)) : VideoTemplate :=
  {| timeline := timeline self; info := info self;
     _placeholders := _placeholders self;
     _placeholder_positions := pos |}.

(** [add_placeholder]; the store is only read. *)
Definition add_placeholder (s : Store) (placeholder : Placeholder)
           (track_index : Z) (clip_index : option Z)
  : M VideoTemplate unit :=
  (modify (fun self =>
             set_placeholders self
               (dict_set (key placeholder) placeholder (_placeholders self))) ;;
   self <- get ;;
   clip_index <-
     match clip_index with
     | Some ci => ret ci
     | None =>
         tref <- lift (timeline.get_track (timeline self) track_index) ;;
         match tref with
         | None => raise (AttributeError
                            "'NoneType' object has no attribute 'clips'")
         | Some ref =>
             t <- lift (fst (read_track ref s)) ;;
             ret (pylist.len (track._clips t))
         end
     end ;;
   put (set_positions self
          (<[key placeholder := (track_index, clip_index)]>
             (_placeholder_positions self))))%M.

Definition remove_placeholder (key : string) : M VideoTemplate unit :=
  (self <- get ;;
   match dict_get key (_placeholders self) with
   | Some _ =>
       put (set_placeholders self (dict_del key (_placeholders self))) ;;
       self <- get ;;
       if bool_decide (is_Some (_placeholder_positions self !! key)) then
         put (set_positions self (delete key (_placeholder_positions self)))
       else ret tt
   | None => ret tt
   end)%M.

Definition get_placeholder (self : VideoTemplate) (key : string)
  : option Placeholder :=
  dict_get key (_placeholders self).

Definition list_placeholders (self : VideoTemplate) : list string :=
  map fst (_placeholders self).

(** [VideoTemplate.validate_data]: the loop that extends
    [all_errors] with every placeholder's errors. *)
Definition validate_data_all (self : VideoTemplate) (data : Data)
  : list string :=
  fold_left (fun all_errors kp => all_errors ++ validate_data (snd kp) data)
            (_placeholders self) [].

(** The truth value of a [Track]: the class defines [__len__]. *)
Definition truthy (t : track.Track) : bool :=
  negb (pylist.len (track._clips t) =? 0).

(** The body of the replacement loop of [fill] for one item of
    [self._placeholders.items()]. *)
Definition fill_one (self : VideoTemplate) (data : Data)
           (filled_timeline : timeline.Timeline nat)
           (kp : string * Placeholder) : M Store unit :=
  match _placeholder_positions self !! fst kp with
  | Some (track_index, clip_index) =>
      (c <- lift (create_clip (snd kp) data) ;;
       actual_clip <- new_clip c ;;
       tref <- lift (timeline.get_track filled_timeline track_index) ;;
       match tref with
       | Some ref =>
           t <- read_track ref ;;
           if truthy t && (clip_index <? pylist.len (track._clips t)) then
             cs <- lift (pylist.setitem (track._clips t) clip_index actual_clip) ;;
             write_track ref (track.set_clips t cs)
           else ret tt
       | None => ret tt
       end)%M
  | None => ret tt
  end.

Definition fill (self : VideoTemplate) (data : Data)
  : M Store (timeline.Timeline nat) :=
  let all_errors := validate_data_all self data in
  match all_errors with
  | _ :: _ =>
      raise (ValueError ("Template validation failed: "
                         ++ String.concat "; " all_errors))
  | [] =>
      (filled_timeline <- deepcopy (timeline self) ;;
       forM (_placeholders self) (fill_one self data filled_timeline) ;;
       ret filled_timeline)%M
  end.

End Template.
Arguments Placeholder : clear implicits.
Arguments VideoTemplate : clear implicits.

(** *** Concrete placeholders

    The instances below take [data] whose values are plain strings
    (the [else] branches of the [isinstance(_, dict)] tests); the
    structured form of a value is not modelled.  [PlaceholderVideo]
    is a further instance of the same interface. *)

Record PlaceholderText : Type := {
  text_key : string;
  text_description : option string;
  text_duration : Q;
  text_start_time : Q;
  font_size : Z;
  font_family : string;
  color : Color;
  position : Position;
  max_length : option Z;
  required : bool
}.

(** [str(n)] for an [int]. *)
Definition str_int (n : Z) : string := NilZero.string_of_int (Z.to_int n).

(** The truth value of an [Optional[int]]. *)
Definition truthy_int (n : option Z) : bool :=
  match n with
  | Some v => negb (v =? 0)
  | None => false
  end.

Definition PlaceholderText_create_clip (self : PlaceholderText)
           (data : gmap string string) : result Clip :=
  match data !! text_key self with
  | None =>
      if required self then
        Raise (ValueError ("Missing required placeholder data: " ++ text_key self))
      else
        (* only [text] is bound on this path *)
        Raise (UnboundLocalError
                 "cannot access local variable 'font_size' where it is not associated with a value")
  | Some text_data =>
      Ok {| oid := 0;
            start_time := text_start_time self;
            duration := Some (text_duration self);
            name := Some (text_key self ++ "_text")%string;
            attrs := TextClip text_data (font_size self) (font_family self)
                              (color self) (position self) |}
  end.

Definition PlaceholderText_validate_data (self : PlaceholderText)
           (data : gmap string string) : list string :=
  match data !! text_key self with
  | None =>
      if required self then
        [("Missing required placeholder: " ++ text_key self)%string]
      else []
  | Some text =>
      if truthy_int (max_length self)
         && (default 0 (max_length self) <? Z.of_nat (String.length text)) then
        [("Text for " ++ text_key self ++ " exceeds maximum length "
            ++ str_int (default 0 (max_length self)))%string]
      else []
  end.

Definition as_placeholder_text (self : PlaceholderText)
  : Placeholder (gmap string string) :=
  {| key := text_key self;
     description := text_description self;
     create_clip := PlaceholderText_create_clip self;
     validate_data := PlaceholderText_validate_data self |}.

Record PlaceholderAudio : Type := {
  audio_key : string;
  audio_description : option string;
  audio_start_time : Q;
  audio_duration : option Q;
  volume : Q
}.

Definition PlaceholderAudio_create_clip (self : PlaceholderAudio)
           (data : gmap string string) : result Clip :=
  match data !! audio_key self with
  | None =>
      Raise (ValueError ("Missing required placeholder data: " ++ audio_key self))
  | Some source_path =>
      Ok {| oid := 0;
            start_time := audio_start_time self;
            duration := audio_duration self;
            name := Some (audio_key self ++ "_audio")%string;
            attrs := AudioClip source_path (volume self) |}
  end.

Definition PlaceholderAudio_validate_data (self : PlaceholderAudio)
           (data : gmap string string) : list string :=
  match data !! audio_key self with
  | None => [("Missing required placeholder: " ++ audio_key self)%string]
  | Some _ => []
  end.

Definition as_placeholder_audio (self : PlaceholderAudio)
  : Placeholder (gmap string string) :=
  {| key := audio_key self;
     description := audio_description self;
     create_clip := PlaceholderAudio_create_clip self;
     validate_data := PlaceholderAudio_validate_data self |}.

Record PlaceholderImage : Type := {
  image_key : string;
  image_description : option string;
  image_duration : Q;
  image_start_time : Q;
  image_scale : Q;
  image_position : Position
}.

Definition PlaceholderImage_create_clip (self : PlaceholderImage)
           (data : gmap string string) : result Clip :=
  match data !! image_key self with
  | None =>
      Raise (ValueError ("Missing required placeholder data: " ++ image_key self))
  | Some source_path =>
      Ok {| oid := 0;
            start_time := image_start_time self;
            duration := Some (image_duration self);
            name := Some (image_key self ++ "_image")%string;
            attrs := ImageClip source_path (image_scale self)
                               (image_position self) |}
  end.

Definition PlaceholderImage_validate_data (self : PlaceholderImage)
           (data : gmap string string) : list string :=
  match data !! image_key self with
  | None => [("Missing required placeholder: " ++ image_key self)%string]
  | Some _ => []
  end.

Definition as_placeholder_image (self : PlaceholderImage)
  : Placeholder (gmap string string) :=
  {| key := image_key self;
     description := image_description self;
     create_clip := PlaceholderImage_create_clip self;
     validate_data := PlaceholderImage_validate_data self |}.

(** The class method [VideoTemplate.create_simple_text_template]. *)
Definition create_simple_text_template (name : string) (text_key : string)
           (duration : Q) (resolution : Z * Z)
  : M Store (VideoTemplate (gmap string string)) :=
  (ref <- alloc_track (track.new track.COMPOSITE None true) ;;
   s <- get ;;
   let tl : timeline.Timeline nat :=
     {| timeline.width := fst resolution; timeline.height := snd resolution;
        timeline.framerate := 30; timeline.name := None;
        timeline._tracks := [ref] |} in
   let template :=
     new tl (Some {| info_name := name;
                     info_description :=
                       ("Simple text template with " ++ text_key
                        ++ " placeholder")%string |}) in
   let text_placeholder :=
     {| text_key := text_key; text_description := None;
        text_duration := duration; text_start_time := 0;
        font_size := 48; font_family := "Arial";
        color := {| r := 255; g := 255; b := 255; a := 255 |};
        position := {| x := inject_Z (fst resolution / 4);
                       y := inject_Z (snd resolution / 2) |};
        max_length := None; required := true |} in
   match add_placeholder s (as_placeholder_text text_placeholder) 0 None template with
   | (Ok _, template') => ret template'
   | (Raise e, _) => raise e
   end)%M.

(** The timeline a reference-level timeline denotes in a store. *)
Definition snapshot (s : Store) (tl : timeline.Timeline nat)
  : option (timeline.Timeline track.Track) :=
  match mapM (fun ref => objects s !! ref) (timeline._tracks tl) with
  | Some ts => Some (timeline.set_tracks tl ts)
  | None => None
  end.

(** *** The template library *)

Section Library.
Context {Data : Type}.

(** The two dictionaries of a [TemplateLibrary], in insertion order. *)
Record TemplateLibrary : Type := {
  _templates : list (string * VideoTemplate Data);
  _categories : list (string * list string)
}.

(** [TemplateLibrary()] *)
Definition new_library : TemplateLibrary :=
  {| _templates := []; _categories := [] |}.

(** [d[k]]; [KeyError] is reported as its base class [Exception],
    with the text [str] gives it. *)
Definition dict_getitem {V} (k : string) (d : list (string * V)) : result V :=
  match dict_get k d with
  | Some v => Ok v
  | None => Raise (Exception ("'" ++ k ++ "'"))
  end.

Definition add_template (template : VideoTemplate Data) (category : string)
  : M TemplateLibrary unit :=
  (let name := info_name (info template) in
   modify (fun self =>
             {| _templates := dict_set name template (_templates self);
                _categories := _categories self |}) ;;
   self <- get ;;
   (match dict_get category (_categories self) with
    | None =>
        put {| _templates := _templates self;
               _categories := dict_set category [] (_categories self) |}
    | Some _ => ret tt
    end) ;;
   self <- get ;;
   names <- lift (dict_getitem category (_categories self)) ;;
   if negb (existsb (String.eqb name) names) then
     put {| _templates := _templates self;
            _categories := dict_set category (names ++ [name])
                                    (_categories self) |}
   else ret tt)%M.

Definition get_template (self : TemplateLibrary) (name : string)
  : option (VideoTemplate Data) :=
  dict_get name (_templates self).

Definition list_templates (self : TemplateLibrary) (category : option string)
  : list string :=
  match category with
  | None => map fst (_templates self)
  | Some c => default [] (dict_get c (_categories self))
  end.

End Library.
Arguments TemplateLibrary : clear implicits.

End placeholder.

(** ** [core/timeline.py]: methods that change the tracks

    [Timeline.add_clip] and [Timeline.clear_all_tracks] call mutating
    methods of the tracks the timeline holds.  As in [placeholder],
    the tracks are objects of the store and the timeline holds
    references to them. *)

Module timeline_objects.
Import clips placeholder.

(** The timeline object and the store of the tracks. *)
Record State : Type := {
  self : timeline.Timeline nat;
  store : Store
}.

Definition on_store {A} (c : M Store A) : M State A :=
  fun st => (fst (c (store st)),
             {| self := self st; store := snd (c (store st)) |}).

Definition on_self {A} (c : M (timeline.Timeline nat) A) : M State A :=
  fun st => (fst (c (self st)),
             {| self := snd (c (self st)); store := store st |}).

(** A method call on the track object [ref]: what the method does to
    the track is written back, also when it raises. *)
Definition on_track {A} (ref : nat) (c : M track.Track A) : M Store A :=
  (t <- read_track ref ;;
   write_track ref (snd (c t)) ;;
   lift (fst (c t)))%M.

(** [add_track], on references: a new track object is allocated when
    none is passed. *)
Definition add_track (t : option nat) (track_type : track.TrackType)
  : M State nat :=
  (ref <- match t with
          | Some ref => ret ref
          | None => on_store (alloc_track (track.new track_type None true))
          end ;;
   on_self (modify (fun tl => timeline.set_tracks tl
                                (timeline._tracks tl ++ [ref]))) ;;
   ret ref)%M.

Definition add_clip (clip : Clip) (track_index : option Z) : M State unit :=
  (ref <- match track_index with
          | None =>
              let track_type :=
                if isinstance clip [CVideoClip] then track.VIDEO
                else if isinstance clip [CAudioClip] then track.AUDIO
                else if isinstance clip [CTextClip] then track.TEXT
                else track.COMPOSITE in
              add_track None track_type
          | Some i =>
              st <- get ;;
              found <- lift (timeline.get_track (self st) i) ;;
              match found with
              | None => raise (IndexError ("Track index " ++ str_int i
                                           ++ " out of range"))
              | Some ref => ret ref
              end
          end ;;
   on_store (on_track ref (track.add_clip clip None)))%M.


End timeline_objects.

(** ** [app.py]: [create_simple_video] *)

Module app.
Import clips placeholder.

(** A clip configuration [Dict[str, Any]]: the keys the function
    reads, each present or absent. *)
Record ClipConfig : Type := {
  type : option string;
  path : option string;
  text : option string;
  duration : option Q;
  font_size : option Z
}.

(** [d[k]] for a key that may be absent; [KeyError] is reported as its
    base class [Exception]. *)
Definition getitem {A} (k : string) (v : option A) : result A :=
  match v with
  | Some x => Ok x
  | None => Raise (Exception ("'" ++ k ++ "'"))
  end.

(** The clip the loop body constructs for a configuration, [None]
    for a type that is skipped by [continue]. *)
Definition make_clip (clip_config : ClipConfig) (current_time : Q)
  : result (option Clip) :=
  (clip_type <-- getitem "type" (type clip_config) ;;
   let duration := default 5%Q (duration clip_config) in
   if String.eqb clip_type "video" then
     (source_path <-- getitem "path" (path clip_config) ;;
      Ok (Some {| oid := 0; start_time := current_time;
                  clips.duration := Some duration; name := None;
                  attrs := VideoClip source_path 1 {| x := 0; y := 0 |} |}))
   else if String.eqb clip_type "audio" then
     (source_path <-- getitem "path" (path clip_config) ;;
      Ok (Some {| oid := 0; start_time := current_time;
                  clips.duration := Some duration; name := None;
                  attrs := AudioClip source_path 1 |}))
   else if String.eqb clip_type "image" then
     (source_path <-- getitem "path" (path clip_config) ;;
      Ok (Some {| oid := 0; start_time := current_time;
                  clips.duration := Some duration; name := None;
                  attrs := ImageClip source_path 1 {| x := 0; y := 0 |} |}))
   else if String.eqb clip_type "text" then
     (content <-- getitem "text" (text clip_config) ;;
      Ok (Some {| oid := 0; start_time := current_time;
                  clips.duration := Some duration; name := None;
                  attrs := TextClip content (default 48 (font_size clip_config))
                                    "Arial"
                                    {| r := 255; g := 255; b := 255; a := 255 |}
                                    {| x := 0; y := 0 |} |}))
   else Ok None)%res.

(** The loop over the configurations; it returns [current_time]. *)
Fixpoint add_clips (ref : nat) (configs : list ClipConfig) (current_time : Q)
  : M Store Q :=
  match configs with
  | [] => ret current_time
  | clip_config :: rest =>
      (made <- lift (make_clip clip_config current_time) ;;
       match made with
       | None => add_clips ref rest current_time
       | Some c =>
           clip <- new_clip c ;;
           timeline_objects.on_track ref (track.add_clip clip None) ;;
           add_clips ref rest
                     (current_time + default 5 (duration clip_config))%Q
       end)%M
  end.

(** The timeline [create_simple_video] builds: one composite track
    with the clips laid out one after the other. *)
Definition simple_video_timeline (configs : list ClipConfig)
           (resolution : Z * Z) (framerate : Q)
  : M Store (timeline.Timeline nat) :=
  (ref <- alloc_track (track.new track.COMPOSITE None true) ;;
   add_clips ref configs 0 ;;
   ret {| timeline.width := fst resolution; timeline.height := snd resolution;
          timeline.framerate := framerate; timeline.name := None;
          timeline._tracks := [ref] |})%M.

(** [create_simple_video]: the timeline is built and handed to
    [quick_render], which is code outside the model. *)
Definition create_simple_video
           (quick_render : timeline.Timeline nat -> string -> M Store unit)
           (configs : list ClipConfig) (output_path : string)
           (resolution : Z * Z) (framerate : Q) : M Store unit :=
  (tl <- simple_video_timeline configs resolution framerate ;;
   quick_render tl output_path)%M.

End app.

(** ** [ports/renderer.py]: [RenderProgress] *)

Module renderer.

Record RenderProgress : Type := {
  current_time : Q;
  total_time : Q;
  current_frame : Z;
  total_frames : Z;
  message : string;
  is_complete : bool;
  error : option string
}.

(** [RenderProgress()] *)
Definition new : RenderProgress :=
  {| current_time := 0; total_time := 0; current_frame := 0;
     total_frames := 0; message := ""; is_complete := false; error := None |}.

(** The property [progress_percent]. *)
Definition progress_percent (self : RenderProgress) : Q :=
  if Qle_bool (total_time self) 0 then 0
  else py_min2 100 ((current_time self / total_time self) * 100)%Q.

Definition update (current_time : Q) (message : string)
  : M RenderProgress unit :=
  (modify (fun self =>
             {| current_time := current_time; total_time := total_time self;
                current_frame := current_frame self;
                total_frames := total_frames self; message := message;
                is_complete := is_complete self; error := error self |}) ;;
   self <- get ;;
   if Qle_bool (total_time self) (renderer.current_time self) then
     put {| current_time := renderer.current_time self;
            total_time := total_time self;
            current_frame := current_frame self;
            total_frames := total_frames self; message := renderer.message self;
            is_complete := true; error := error self |}
   else ret tt)%M.

End renderer.

(** ** [pipeline/render_queue.py] *)

Module render_queue.

Inductive JobStatus : Type :=
| PENDING | RUNNING | COMPLETED | FAILED | CANCELLED.

Definition JobStatus_eqb (s1 s2 : JobStatus) : bool :=
  match s1, s2 with
  | PENDING, PENDING | RUNNING, RUNNING | COMPLETED, COMPLETED
  | FAILED, FAILED | CANCELLED, CANCELLED => true
  | _, _ => false
  end.

Inductive QueueMode : Type :=
| SEQUENTIAL | PARALLEL_PROCESS | PARALLEL_THREAD.

Record RenderOptions : Type := {
  codec : string;
  bitrate : option string;
  quality : option string;
  preset : string
}.

(** The port [Renderer]: a renderer object, told from the others by
    its name.  The queue only calls [render]; what the call does is
    code outside the queue, given with the environment below. *)
Record Renderer : Type := {
  renderer_name : string
}.

(** A callable handed to the queue as progress callback, told from
    the others by its name. *)
Record Callback : Type := {
  callback_name : string
}.

(** A job object.  Jobs are compared by identity: [oid] is the object
    id a job is created with, and two entries of the job table with
    the same [oid] are one object. *)
Record RenderJob : Type := {
  oid : nat;
  id : string;
  timeline : timeline.Timeline track.Track;
  output_path : string;
  renderer : Renderer;
  options : option RenderOptions;
  status : JobStatus;
  created_at : Q;
  started_at : option Q;
  completed_at : option Q;
  error_message : option string;
  progress : Q;
  metadata : list (string * string)
}.

(** The property [RenderJob.duration]; a [datetime] is always true. *)
Definition duration (self : RenderJob) : option Q :=
  match started_at self, completed_at self with
  | Some s, Some c => Some (c - s)%Q
  | _, _ => None
  end.

Definition is_finished (self : RenderJob) : bool :=
  existsb (JobStatus_eqb (status self)) [COMPLETED; FAILED; CANCELLED].

(** Attribute assignments on a job. *)
Definition set_status (v : JobStatus) (j : RenderJob) : RenderJob :=
  {| oid := oid j; id := id j; timeline := timeline j;
     output_path := output_path j;
     renderer := renderer j; options := options j; status := v;
     created_at := created_at j; started_at := started_at j;
     completed_at := completed_at j; error_message := error_message j;
     progress := progress j; metadata := metadata j |}.

Definition set_started_at (v : option Q) (j : RenderJob) : RenderJob :=
  {| oid := oid j; id := id j; timeline := timeline j;
     output_path := output_path j;
     renderer := renderer j; options := options j; status := status j;
     created_at := created_at j; started_at := v;
     completed_at := completed_at j; error_message := error_message j;
     progress := progress j; metadata := metadata j |}.

Definition set_completed_at (v : option Q) (j : RenderJob) : RenderJob :=
  {| oid := oid j; id := id j; timeline := timeline j;
     output_path := output_path j;
     renderer := renderer j; options := options j; status := status j;
     created_at := created_at j; started_at := started_at j;
     completed_at := v; error_message := error_message j;
     progress := progress j; metadata := metadata j |}.

Definition set_error_message (v : option string) (j : RenderJob) : RenderJob :=
  {| oid := oid j; id := id j; timeline := timeline j;
     output_path := output_path j;
     renderer := renderer j; options := options j; status := status j;
     created_at := created_at j; started_at := started_at j;
     completed_at := completed_at j; error_message := v;
     progress := progress j; metadata := metadata j |}.

Definition set_progress (v : Q) (j : RenderJob) : RenderJob :=
  {| oid := oid j; id := id j; timeline := timeline j;
     output_path := output_path j;
     renderer := renderer j; options := options j; status := status j;
     created_at := created_at j; started_at := started_at j;
     completed_at := completed_at j; error_message := error_message j;
     progress := v; metadata := metadata j |}.

(** The fields of a [RenderQueue].  [progress_callback] is the
    callable wrapped by [JobProgressCallback]. *)
Record RenderQueue : Type := {
  default_renderer : option Renderer;
  progress_callback : option Callback;
  _jobs : gmap string RenderJob;
  _job_order : list string;
  _running : bool;
  _cancelled : bool
}.

(** [RenderQueue(default_renderer, progress_callback)] *)
Definition new (default_renderer : option Renderer)
           (progress_callback : option Callback) : RenderQueue :=
  {| default_renderer := default_renderer;
     progress_callback := progress_callback;
     _jobs := ∅; _job_order := []; _running := false; _cancelled := false |}.

Definition set_table (jobs : gmap string RenderJob) (order : list string)
           (q : RenderQueue) : RenderQueue :=
  {| default_renderer := default_renderer q;
     progress_callback := progress_callback q;
     _jobs := jobs; _job_order := order;
     _running := _running q; _cancelled := _cancelled q |}.

Definition set_flags (running cancelled : bool) (q : RenderQueue) : RenderQueue :=
  {| default_renderer := default_renderer q;
     progress_callback := progress_callback q;
     _jobs := _jobs q; _job_order := _job_order q;
     _running := running; _cancelled := cancelled |}.

(** The queue together with what it reads from outside: the number
    of job objects created, how often the clock and the id generator
    were asked, and the render calls made so far (the ids of the
    rendered jobs, oldest first). *)
Record State : Type := {
  queue : RenderQueue;
  next_oid : nat;
  clock_reads : nat;
  uuid_draws : nat;
  render_calls : list string
}.

Definition initial (q : RenderQueue) : State :=
  {| queue := q; next_oid := 0; clock_reads := 0; uuid_draws := 0;
     render_calls := [] |}.

Definition modify_queue (f : RenderQueue -> RenderQueue) : M State unit :=
  modify (fun st => {| queue := f (queue st); next_oid := next_oid st;
                       clock_reads := clock_reads st;
                       uuid_draws := uuid_draws st;
                       render_calls := render_calls st |}).

Definition get_queue : M State RenderQueue :=
  (st <- get ;; ret (queue st))%M.

(** The job object [job] after an assignment to one of its
    attributes: the table shows the object as it is now wherever it
    holds that object. *)
Definition store_job (job : RenderJob) : M State unit :=
  modify_queue
    (fun q => set_table
                ((fun j => if Nat.eqb (oid j) (oid job) then job else j)
                   <$> _jobs q)
                (_job_order q) q).

(** [RenderJob(...)]: a new object. *)
Definition new_job (make : nat -> RenderJob) : M State RenderJob :=
  fun st => (Ok (make (next_oid st)),
             {| queue := queue st; next_oid := S (next_oid st);
                clock_reads := clock_reads st; uuid_draws := uuid_draws st;
                render_calls := render_calls st |}).

(** One more entry of the log of render calls. *)
Definition log_render_call (job_id : string) : M State unit :=
  modify (fun st => {| queue := queue st; next_oid := next_oid st;
                       clock_reads := clock_reads st;
                       uuid_draws := uuid_draws st;
                       render_calls := render_calls st ++ [job_id] |}).

(** ** Code outside the queue

    The renderers and the progress callback are code of the caller.
    A call is handed the job object and may hold the queue: it runs on
    the job and the state, and it returns, raises (an [Exception] or
    not), or does not return at all ([None]).  Code that changes the
    job gives it back changed, in the table too where the table holds
    it. *)
Definition External : Type :=
  RenderJob * State -> option (result unit * (RenderJob * State)).

(** ** Processing a job

    [_process_job] works on the job object it was handed, whether or
    not the table still holds it, and calls code outside the queue. *)
Definition P (A : Type) : Type :=
  RenderJob * State -> option (result A * (RenderJob * State)).

Definition pret {A} (a : A) : P A := fun x => Some (Ok a, x).

Definition pbind {A B} (c : P A) (k : A -> P B) : P B :=
  fun x => match c x with
           | Some (Ok a, x') => k a x'
           | Some (Raise e, x') => Some (Raise e, x')
           | None => None
           end.

(** [try: c  except Exception as e: h e] *)
Definition ptry_except {A} (c : P A) (h : PyExn -> P A) : P A :=
  fun x => match c x with
           | Some (Raise e, x') =>
               if is_Exception e then h e x' else Some (Raise e, x')
           | other => other
           end.

(** A method of the queue. *)
Definition on_queue {A} (c : M State A) : P A :=
  fun x => Some (fst (c (snd x)), (fst x, snd (c (snd x)))).

(** [job.attribute = v] *)
Definition assign (f : RenderJob -> RenderJob) : P unit :=
  fun x => Some (Ok tt, (f (fst x), snd (store_job (f (fst x)) (snd x)))).

Definition the_job : P RenderJob := fun x => Some (Ok (fst x), x).

Declare Scope process_scope.
Delimit Scope process_scope with P.
Notation "x <- c ;; k" := (pbind c (fun x => k))
  (at level 100, c at next level, right associativity) : process_scope.
Notation "c ;; k" := (pbind c (fun _ => k))
  (at level 100, right associativity) : process_scope.

Section Environment.
(** [datetime.now()]: the value of the n-th reading, in seconds. *)
Context (now : nat -> Q).
(** [str(uuid.uuid4())]: the n-th id drawn. *)
Context (uuid4 : nat -> string).
(** [renderer.render(timeline, output_path, options)] *)
Context (render_code : Renderer -> timeline.Timeline track.Track -> string
                       -> option RenderOptions -> External).
(** [callback(job)] *)
Context (callback_code : Callback -> External).

Definition datetime_now : M State Q :=
  fun st => (Ok (now (clock_reads st)),
             {| queue := queue st; next_oid := next_oid st;
                clock_reads := S (clock_reads st);
                uuid_draws := uuid_draws st;
                render_calls := render_calls st |}).

Definition str_uuid4 : M State string :=
  fun st => (Ok (uuid4 (uuid_draws st)),
             {| queue := queue st; next_oid := next_oid st;
                clock_reads := clock_reads st;
                uuid_draws := S (uuid_draws st);
                render_calls := render_calls st |}).

(** [job.renderer.render(job.timeline, job.output_path, job.options)];
    the call is entered in the log. *)
Definition call_render : P unit :=
  (job <- the_job ;;
   on_queue (log_render_call (id job)) ;;
   render_code (renderer job) (timeline job) (output_path job) (options job))%P.

(** [if self.callback: self.callback(job)] *)
Definition call_callback : P unit :=
  fun x => match progress_callback (queue (snd x)) with
           | Some callback => callback_code callback x
           | None => Some (Ok tt, x)
           end.

Definition on_job_started : P unit := call_callback.

Definition on_job_completed : P unit := call_callback.

Definition on_job_failed (error : PyExn) : P unit :=
  (assign (set_error_message (Some (str_exn error))) ;;
   call_callback)%P.

Definition add_job (tl : timeline.Timeline track.Track) (output_path : string)
           (renderer : option Renderer) (options : option RenderOptions)
           (job_id : option string) (metadata : option (list (string * string)))
  : M State string :=
  (q <- get_queue ;;
   let renderer :=
     match renderer with
     | None => default_renderer q
     | Some r => Some r
     end in
   match renderer with
   | None => raise (ValueError "No renderer provided and no default renderer set")
   | Some renderer =>
       job_id <- match job_id with
                 | None => str_uuid4
                 | Some i => ret i
                 end ;;
       t <- datetime_now ;;
       job <- new_job (fun n =>
         {| oid := n; id := job_id; timeline := tl; output_path := output_path;
            renderer := renderer; options := options; status := PENDING;
            created_at := t; started_at := None; completed_at := None;
            error_message := None; progress := 0;
            metadata := default [] metadata |}) ;;
       modify_queue (fun q => set_table (<[job_id := job]> (_jobs q))
                                        (_job_order q ++ [job_id]) q) ;;
       ret job_id
   end)%M.

Definition remove_job (job_id : string) : M State bool :=
  (q <- get_queue ;;
   match _jobs q !! job_id with
   | Some job =>
       (if JobStatus_eqb (status job) RUNNING
        then store_job (set_status CANCELLED job)
        else ret tt) ;;
       modify_queue (fun q => set_table (delete job_id (_jobs q)) (_job_order q) q) ;;
       q <- get_queue ;;
       (if bool_decide (job_id ∈ _job_order q) then
          order <- lift (pylist.remove String.eqb (_job_order q) job_id) ;;
          modify_queue (set_table (_jobs q) order)
        else ret tt) ;;
       ret true
   | None => ret false
   end)%M.

Definition get_job (q : RenderQueue) (job_id : string) : option RenderJob :=
  _jobs q !! job_id.

(** [list_jobs(status)] *)
Definition list_jobs (q : RenderQueue) (st : option JobStatus) : list RenderJob :=
  let jobs := omap (fun job_id => _jobs q !! job_id) (_job_order q) in
  match st with
  | Some s => List.filter (fun job => JobStatus_eqb (status job) s) jobs
  | None => jobs
  end.

(** The removal loop of [clear_completed] over the ids collected in
    [jobs_to_remove]. *)
Fixpoint clear_completed_loop (jobs_to_remove : list string)
         (removed_count : nat) : M State nat :=
  match jobs_to_remove with
  | [] => ret removed_count
  | job_id :: rest =>
      (modify_queue (fun q => set_table (delete job_id (_jobs q))
                                        (_job_order q) q) ;;
       q <- get_queue ;;
       (if bool_decide (job_id ∈ _job_order q) then
          order <- lift (pylist.remove String.eqb (_job_order q) job_id) ;;
          modify_queue (set_table (_jobs q) order)
        else ret tt) ;;
       clear_completed_loop rest (S removed_count))%M
  end.

(** [clear_completed].  The ids are collected from
    [self._jobs.items()]; the order in which the dictionary yields
    them is the one of [map_to_list] here. *)
Definition clear_completed : M State nat :=
  (q <- get_queue ;;
   let jobs_to_remove :=
     map fst (List.filter (fun item => is_finished (snd item))
                          (map_to_list (_jobs q))) in
   clear_completed_loop jobs_to_remove 0)%M.

(** The dictionary returned by [get_stats]. *)
Record Stats : Type := {
  total_jobs : nat;
  pending : nat;
  running : nat;
  completed : nat;
  failed : nat;
  cancelled : nat;
  queue_running : bool;
  avg_duration : option Q
}.

(** The truth value of an [Optional[float]]. *)
Definition truthy_float (d : option Q) : bool :=
  match d with
  | Some v => negb (Qeq_bool v 0)
  | None => false
  end.

Definition count_status (s : JobStatus) (jobs : list RenderJob) : nat :=
  length (List.filter (fun j => JobStatus_eqb (status j) s) jobs).

Definition get_stats (q : RenderQueue) : Stats :=
  let jobs := (map_to_list (_jobs q)).*2 in
  let completed_jobs :=
    List.filter (fun j => JobStatus_eqb (status j) COMPLETED
                          && truthy_float (duration j)) jobs in
  {| total_jobs := length jobs;
     pending := count_status PENDING jobs;
     running := count_status RUNNING jobs;
     completed := count_status COMPLETED jobs;
     failed := count_status FAILED jobs;
     cancelled := count_status CANCELLED jobs;
     queue_running := _running q;
     avg_duration :=
       match completed_jobs with
       | [] => None
       | _ =>
           (* [j.duration] is a float for each job kept by the filter *)
           Some (fold_left Qplus
                   (map (fun j => default 0%Q (duration j)) completed_jobs) 0
                 / inject_Z (Z.of_nat (length completed_jobs)))%Q
       end |}.

(** The loop of [_get_next_pending_job]: the first job of the order
    list that the table holds and that is Pending. *)
Fixpoint next_pending (jobs : gmap string RenderJob) (order : list string)
  : option RenderJob :=
  match order with
  | [] => None
  | job_id :: rest =>
      match jobs !! job_id with
      | Some job =>
          if JobStatus_eqb (status job) PENDING then Some job
          else next_pending jobs rest
      | None => next_pending jobs rest
      end
  end.

Definition _get_next_pending_job (q : RenderQueue) : option RenderJob :=
  next_pending (_jobs q) (_job_order q).

Definition _handle_job_error (error : PyExn) : P unit :=
  (assign (set_status FAILED) ;;
   t <- on_queue datetime_now ;;
   assign (set_completed_at (Some t)) ;;
   assign (set_error_message (Some (str_exn error))) ;;
   on_job_failed error)%P.

(** The body of [_process_job], run on the job object. *)
Definition process : P unit :=
  ptry_except
    (assign (set_status RUNNING) ;;
     t <- on_queue datetime_now ;;
     assign (set_started_at (Some t)) ;;
     on_job_started ;;
     call_render ;;
     assign (set_status COMPLETED) ;;
     t <- on_queue datetime_now ;;
     assign (set_completed_at (Some t)) ;;
     assign (set_progress 100) ;;
     on_job_completed)%P
    _handle_job_error.

(** [_process_job(job)]: what the call leaves of the queue, [None]
    when it does not return. *)
Definition _process_job (job : RenderJob) (st : State)
  : option (result unit * State) :=
  match process (job, st) with
  | Some (r, x) => Some (r, snd x)
  | None => None
  end.

(** The result of a run: the loops of the queue are bounded here by
    a number of iterations, a call into code outside the queue may
    not return, and worker threads are not modelled. *)
Inductive Run : Type :=
| Done (r : result unit * State)
| OutOfFuel
| NeverReturns
| NotModelled.

(** [_run_sequential]: [fuel] bounds the iterations of the loop. *)
Fixpoint _run_sequential (fuel : nat) (st : State) : Run :=
  match fuel with
  | O => OutOfFuel
  | S fuel' =>
      if _cancelled (queue st) then Done (Ok tt, st)
      else
        match _get_next_pending_job (queue st) with
        | None => Done (Ok tt, st)
        | Some job =>
            match _process_job job st with
            | Some (Ok _, st') => _run_sequential fuel' st'
            | Some (Raise e, st') => Done (Raise e, st')
            | None => NeverReturns
            end
        end
  end.

(** [_run_parallel_process] prints a warning and falls back. *)
Definition _run_parallel_process (fuel : nat) (st : State) : Run :=
  _run_sequential fuel st.

Definition run (mode : QueueMode) (fuel : nat) (st : State) : Run :=
  if _running (queue st) then
    Done (Raise (RuntimeError "Queue is already running"), st)
  else
    let finally (r : Run) : Run :=
      match r with
      | Done (res, st') =>
          Done (res, snd (modify_queue
                            (fun q => set_flags false (_cancelled q) q) st'))
      | other => other
      end in
    let st1 := snd (modify_queue (set_flags true false) st) in
    match mode with
    | SEQUENTIAL => finally (_run_sequential fuel st1)
    | PARALLEL_PROCESS => finally (_run_parallel_process fuel st1)
    | PARALLEL_THREAD => NotModelled
    end.

Definition stop : M State unit :=
  modify_queue (fun q => set_flags (_running q) true q).

(** [len(queue)] and [bool(queue)] *)
Definition __len__ (q : RenderQueue) : Z := Z.of_nat (size (_jobs q)).

Definition __bool__ (q : RenderQueue) : bool := 0 <? __len__ q.

End Environment.

End render_queue.

(** * Specification-level definitions

    The predicates in which the properties below are stated, and the
    data of the examples. *)

(** ** Tracks and timelines *)

(** A clip is active at [time] when it has a duration and
    [start_time <= time < end_time]. *)
Definition active_at (time : Q) (c : clips.Clip) : bool :=
  match clips.duration c with
  | Some d => Qle_bool (clips.start_time c) time
              && Qlt_bool time (clips.start_time c + d)
  | None => false
  end.

(** The clip classes a track type admits: video and image clips on
    video tracks, audio clips on audio tracks, text clips on text
    tracks, every clip on composite tracks. *)
Definition allowed_on (t : track.TrackType) (c : clips.ClipClass) : bool :=
  match t, c with
  | track.VIDEO, (clips.CVideoClip | clips.CImageClip) => true
  | track.AUDIO, clips.CAudioClip => true
  | track.TEXT, clips.CTextClip => true
  | track.COMPOSITE, _ => true
  | _, _ => false
  end.

(** The end times [clip.end_time for clip in clips if clip.duration is
    not None]. *)
Definition end_times (cs : list clips.Clip) : list Q :=
  flat_map (fun c => match clips.duration c with
                     | Some d => [(clips.start_time c + d)%Q]
                     | None => []
                     end) cs.

(** Every transition is keyed by the position of a clip that exists
    and is not the last one. *)
Definition transitions_valid (t : track.Track) : Prop :=
  forall i tr, track._transitions t !! i = Some tr ->
               0 <= i < pylist.len (track._clips t) - 1.

(** The place [list.insert(i, x)] gives to [x] in a list of [n]
    elements: [i] within the list, the end beyond it, and counted from
    the end (not below 0) for a negative [i]. *)
Definition insert_position (i n : Z) : Z :=
  if i <? 0 then Z.max 0 (i + n) else Z.min i n.

(** Between the tracks [t] and [t'] the clip [c] was stored at
    position [j]: [t'] is one clip longer, [get_clip] at [j] returns
    [c], the clips before [j] keep their positions, the ones from [j]
    on move up by one, and everything but the clips is as it was. *)
Definition stored_at (t t' : track.Track) (c : clips.Clip) (j : Z) : Prop :=
  track.__len__ t' = track.__len__ t + 1
  /\ track.get_clip t' j = Ok (Some c)
  /\ (forall k, k < j -> track.get_clip t' k = track.get_clip t k)
  /\ (forall k, j <= k -> track.get_clip t' (k + 1) = track.get_clip t k)
  /\ track.set_clips t' (track._clips t) = t.

(** ** Calls on a track *)

(** Every clip on the track is of a class the track's type admits. *)
Definition well_typed (t : track.Track) : Prop :=
  Forall (fun c => allowed_on (track.track_type t) (clips.class_of c) = true)
         (track._clips t).

(** The classes of clips a track type admits. *)
Definition admitted (ty : track.TrackType) : list clips.ClipClass :=
  List.filter (allowed_on ty)
    [clips.CVideoClip; clips.CAudioClip; clips.CImageClip; clips.CTextClip].

(** The mutating methods of [Track]. *)
Inductive TrackOp : Type :=
| TAddClip (clip : clips.Clip) (index : option Z)
| TInsertClip (clip : clips.Clip) (index : Z)
| TRemoveClip (clip : track.ClipOrIndex)
| TAddTransition (clip_index : Z) (transition : transitions.Transition)
| TRemoveTransition (clip_index : Z)
| TClear
| TSetOpacity (opacity : Q)
| TSetMuted (muted : bool)
| TSetLocked (locked : bool)
| TSetEnabled (enabled : bool)
| TSortClipsByTime.

(** The track a call leaves behind, whether it returns or raises. *)
Definition apply_track_op (op : TrackOp) (t : track.Track) : track.Track :=
  snd (match op with
       | TAddClip clip index => track.add_clip clip index
       | TInsertClip clip index => track.insert_clip clip index
       | TRemoveClip clip => track.remove_clip clip
       | TAddTransition clip_index transition =>
           track.add_transition clip_index transition
       | TRemoveTransition clip_index => track.remove_transition clip_index
       | TClear => track.clear
       | TSetOpacity opacity => track.set_opacity opacity
       | TSetMuted muted => track.set_muted muted
       | TSetLocked locked => track.set_locked locked
       | TSetEnabled enabled => track.set_enabled enabled
       | TSortClipsByTime => track.sort_clips_by_time
       end t).

(** ** The job table *)

(** The id→job map and the submission-order list agree: the list has
    no duplicate and holds exactly the keys of the map. *)
Definition consistent (q : render_queue.RenderQueue) : Prop :=
  NoDup (render_queue._job_order q)
  /\ forall k, In k (render_queue._job_order q)
               <-> is_Some (render_queue._jobs q !! k).

(** A sequence of submissions and removals. *)
Inductive QueueOp : Type :=
| OpAdd (tl : timeline.Timeline track.Track) (output_path : string)
        (renderer : option render_queue.Renderer)
        (options : option render_queue.RenderOptions)
        (job_id : option string) (metadata : option (list (string * string)))
| OpRemove (job_id : string).

Section QueueOps.
Import render_queue.
Context (now : nat -> Q) (uuid4 : nat -> string).

Definition apply_op (op : QueueOp) (st : State) : State :=
  match op with
  | OpAdd tl out r opts job_id md =>
      snd (add_job now uuid4 tl out r opts job_id md st)
  | OpRemove k => snd (remove_job k st)
  end.

(** Every submission uses an id that is not in the table when it is
    made (a fresh [uuid4] or a caller's id not in use). *)
Fixpoint ids_unused (ops : list QueueOp) (st : State) : Prop :=
  match ops with
  | [] => True
  | op :: rest =>
      match op with
      | OpAdd _ _ _ _ job_id _ =>
          _jobs (queue st) !! match job_id with
                              | Some i => i
                              | None => uuid4 (uuid_draws st)
                              end = None
      | OpRemove _ => True
      end
      /\ ids_unused rest (apply_op op st)
  end.

End QueueOps.

(** ** Clearing the job table *)

(** The state after the removal loop: the jobs and the ids that are
    not among the ids removed. *)
Definition without (ids : list string) (st : render_queue.State)
  : render_queue.State :=
  {| render_queue.queue :=
       render_queue.set_table (filter (fun kv => kv.1 ∉ ids)
                 (render_queue._jobs (render_queue.queue st)))
         (List.filter (fun k => negb (bool_decide (k ∈ ids)))
                      (render_queue._job_order (render_queue.queue st)))
         (render_queue.queue st);
     render_queue.next_oid := render_queue.next_oid st;
     render_queue.clock_reads := render_queue.clock_reads st;
     render_queue.uuid_draws := render_queue.uuid_draws st;
     render_queue.render_calls := render_queue.render_calls st |}.

(** ** Code outside the queue *)

(** The call returns, and leaves the job and the queue as they are. *)
Definition returns_quietly (c : render_queue.External) : Prop :=
  forall x, c x = Some (Ok tt, x).

(** The call returns or raises an [Exception], and leaves the job and
    the queue as they are. *)
Definition ends_quietly (c : render_queue.External) : Prop :=
  forall x, exists r, c x = Some (r, x)
                      /\ match r with
                         | Ok _ => True
                         | Raise e => is_Exception e = true
                         end.

(** No two entries of the job table are the same object. *)
Definition distinct_objects (q : render_queue.RenderQueue) : Prop :=
  forall k1 k2 j1 j2,
    render_queue._jobs q !! k1 = Some j1 ->
    render_queue._jobs q !! k2 = Some j2 ->
    render_queue.oid j1 = render_queue.oid j2 -> k1 = k2.

(** The objects of the table are distinct and were created before
    the next one will be. *)
Definition objects_known (st : render_queue.State) : Prop :=
  distinct_objects (render_queue.queue st)
  /\ forall k j, render_queue._jobs (render_queue.queue st) !! k = Some j ->
                 (render_queue.oid j < render_queue.next_oid st)%nat.

Section Quiet.
Import render_queue.
Context (render_code : Renderer -> timeline.Timeline track.Track -> string
                       -> option RenderOptions -> External).
Context (callback_code : Callback -> External).

(** The progress callback, when there is one, returns from every call
    and leaves the job and the queue as they are. *)
Definition callback_quiet (q : RenderQueue) : Prop :=
  match progress_callback q with
  | Some callback => returns_quietly (callback_code callback)
  | None => True
  end.

(** The render call of every job of the table returns or raises an
    [Exception], and leaves the job and the queue as they are. *)
Definition renderers_quiet (q : RenderQueue) : Prop :=
  forall k j, _jobs q !! k = Some j ->
              ends_quietly (render_code (renderer j) (timeline j)
                                        (output_path j) (options j)).

End Quiet.

(** ** Sequential processing *)

(** What [_process_job] leaves in a job, given what the render call
    did and the two clock readings. *)
Definition job_after (j : render_queue.RenderJob) (r : result unit)
           (t0 t1 : Q) : render_queue.RenderJob :=
  let started :=
    render_queue.set_started_at (Some t0)
      (render_queue.set_status render_queue.RUNNING j) in
  match r with
  | Ok _ =>
      render_queue.set_progress 100
        (render_queue.set_completed_at (Some t1)
           (render_queue.set_status render_queue.COMPLETED started))
  | Raise e =>
      render_queue.set_error_message (Some (str_exn e))
        (render_queue.set_error_message (Some (str_exn e))
           (render_queue.set_completed_at (Some t1)
              (render_queue.set_status render_queue.FAILED started)))
  end.

(** The job under [k] is in the table and Pending. *)
Definition pending_b (jobs : gmap string render_queue.RenderJob) (k : string)
  : bool :=
  match jobs !! k with
  | Some j => render_queue.JobStatus_eqb (render_queue.status j) render_queue.PENDING
  | None => false
  end.

(** The first entry of the order list whose job is Pending. *)
Fixpoint first_pending (jobs : gmap string render_queue.RenderJob)
         (order : list string) : option string :=
  match order with
  | [] => None
  | k :: rest => if pending_b jobs k then Some k else first_pending jobs rest
  end.

(** What a call returned or raised. *)
Definition result_of (c : render_queue.External)
           (x : render_queue.RenderJob * render_queue.State) : result unit :=
  match c x with
  | Some (r, _) => r
  | None => Ok tt
  end.

Section Processing.
Import render_queue.
Context (now : nat -> Q).
Context (render_code : Renderer -> timeline.Timeline track.Track -> string
                       -> option RenderOptions -> External).

(** One more reading of the clock. *)
Definition tick (st : State) : State :=
  {| queue := queue st; next_oid := next_oid st;
     clock_reads := S (clock_reads st);
     uuid_draws := uuid_draws st; render_calls := render_calls st |}.

(** One more render call, for the job with the id [k]. *)
Definition logged (k : string) (st : State) : State :=
  {| queue := queue st; next_oid := next_oid st;
     clock_reads := clock_reads st;
     uuid_draws := uuid_draws st; render_calls := render_calls st ++ [k] |}.

(** The state in which the table shows the object [j] as it is. *)
Definition stored (j : RenderJob) (st : State) : State :=
  snd (store_job j st).

(** The job and the state at the render call of [_process_job]. *)
Definition at_render (j : RenderJob) (st : State) : RenderJob * State :=
  let started :=
    set_started_at (Some (now (clock_reads st))) (set_status RUNNING j) in
  (started, logged (id j) (stored started (tick st))).

(** The state [_process_job] leaves behind when the code outside the
    queue keeps quiet. *)
Definition processed (j : RenderJob) (st : State) : State :=
  let r := result_of (render_code (renderer j) (timeline j) (output_path j)
                                  (options j))
                     (at_render j st) in
  stored (job_after j r (now (clock_reads st)) (now (S (clock_reads st))))
         (tick (tick (logged (id j) st))).

(** What a sequential run leaves behind: the table keeps its keys and
    its order, the render calls made are appended to the log (without
    duplicates in the order list: those of the pending entries, in
    order), a job that was Pending and listed was rendered -- in a
    state [st_k], after the render calls [h] -- and is what
    [job_after] makes of it, every other job is as it was. *)
Definition run_post (st st' : State) : Prop :=
  queue st' = set_table (_jobs (queue st')) (_job_order (queue st)) (queue st)
  /\ uuid_draws st' = uuid_draws st
  /\ next_oid st' = next_oid st
  /\ (exists l, render_calls st' = render_calls st ++ l
                /\ (NoDup (_job_order (queue st)) ->
                    l = omap (fun k => id <$> _jobs (queue st) !! k)
                          (List.filter (pending_b (_jobs (queue st)))
                                       (_job_order (queue st)))))
  /\ (forall k, _jobs (queue st) !! k = None -> _jobs (queue st') !! k = None)
  /\ (forall k j, _jobs (queue st) !! k = Some j ->
        (In k (_job_order (queue st)) -> status j = PENDING ->
         exists st_k r h,
           render_calls st_k = render_calls st ++ h
           /\ render_code (renderer j) (timeline j) (output_path j) (options j)
                          (at_render j st_k)
              = Some (r, at_render j st_k)
           /\ _jobs (queue st') !! k
              = Some (job_after j r (now (clock_reads st_k))
                                (now (S (clock_reads st_k)))))
        /\ (~ (In k (_job_order (queue st)) /\ status j = PENDING) ->
            _jobs (queue st') !! k = Some j)).

End Processing.


(** ** Submissions *)

(** The arguments of one [add_job] call. *)
Record Submission : Type := {
  sub_timeline : timeline.Timeline track.Track;
  sub_output_path : string;
  sub_renderer : option render_queue.Renderer;
  sub_options : option render_queue.RenderOptions;
  sub_job_id : option string;
  sub_metadata : option (list (string * string))
}.

(** A renderer whose [render] returns from every call and leaves the
    job and the queue as they are. *)
Definition always_succeeds
           (render_code : render_queue.Renderer
                          -> timeline.Timeline track.Track -> string
                          -> option render_queue.RenderOptions
                          -> render_queue.External)
           (r : render_queue.Renderer) : Prop :=
  forall tl out opts, returns_quietly (render_code r tl out opts).

(** The renderer a submission is rendered with. *)
Definition renderer_of (q : render_queue.RenderQueue) (s : Submission)
  : option render_queue.Renderer :=
  match sub_renderer s with
  | None => render_queue.default_renderer q
  | Some r => Some r
  end.

Section Submissions.
Import render_queue.
Context (now : nat -> Q) (uuid4 : nat -> string).

Definition submit_one (st : State) (s : Submission) : State :=
  snd (add_job now uuid4 (sub_timeline s) (sub_output_path s) (sub_renderer s)
               (sub_options s) (sub_job_id s) (sub_metadata s) st).

Definition submit_all (subs : list Submission) (st : State) : State :=
  fold_left submit_one subs st.

(** The ids the submissions are queued under, [draws] ids having
    been generated before. *)
Fixpoint submitted_ids (subs : list Submission) (draws : nat) : list string :=
  match subs with
  | [] => []
  | s :: rest =>
      match sub_job_id s with
      | Some i => i :: submitted_ids rest draws
      | None => uuid4 draws :: submitted_ids rest (S draws)
      end
  end.

End Submissions.

(** ** Template filling *)

(** Reading a position through the public API: [get_track] of the
    timeline, then [get_clip] of the track. *)
Definition clip_at (s : placeholder.Store) (tl : timeline.Timeline nat)
           (pos : Z * Z) : option clips.Clip :=
  match timeline.get_track tl (fst pos) with
  | Ok (Some ref) =>
      match placeholder.objects s !! ref with
      | Some t =>
          match track.get_clip t (snd pos) with
          | Ok (Some c) => Some c
          | _ => None
          end
      | None => None
      end
  | _ => None
  end.

(** The track object and the list index a position denotes, when the
    position exists in the timeline. *)
Definition slot_of (s : placeholder.Store) (tl : timeline.Timeline nat)
           (pos : Z * Z) : option (nat * nat) :=
  match timeline.get_track tl (fst pos) with
  | Ok (Some ref) =>
      match placeholder.objects s !! ref with
      | Some t =>
          if (0 <=? snd pos) && (snd pos <? pylist.len (track._clips t))
          then Some (ref, Z.to_nat (snd pos))
          else None
      | None => None
      end
  | _ => None
  end.

(** No object that existed before [off] was reached is changed. *)
Definition frame (off : nat) (s s' : placeholder.Store) : Prop :=
  forall ref, (ref < off)%nat ->
              placeholder.objects s' !! ref = placeholder.objects s !! ref.

(** A computation that leaves the objects below [off] alone. *)
Definition framed {A} (off : nat) (c : M placeholder.Store A) : Prop :=
  forall s, frame off s (snd (c s)).

(** The clip stored at a list index of a track object. *)
Definition clip_in (s : placeholder.Store) (slot : nat * nat)
  : option clips.Clip :=
  match placeholder.objects s !! fst slot with
  | Some t => nth_error (track._clips t) (snd slot)
  | None => None
  end.

Section Filling.
Import placeholder.
Context {Data : Type}.
Context (self : VideoTemplate Data) (data : Data) (s : Store).

(** The timeline [fill] returns: the base timeline over the copies of
    its tracks. *)
Definition copy_of : timeline.Timeline nat :=
  timeline.set_tracks (timeline self)
    (map (fun ref => (ref + next_id s)%nat) (timeline._tracks (timeline self))).

(** The track objects of the copy are there, with as many clips as
    the tracks they were copied from. *)
Definition copies (sk : Store) : Prop :=
  forall ref t, In ref (timeline._tracks (timeline self)) ->
    objects s !! ref = Some t ->
    exists tk, objects sk !! (ref + next_id s)%nat = Some tk
               /\ length (track._clips tk) = length (track._clips t).

(** The placeholder is bound to the slot, a position that exists in
    the base timeline. *)
Definition writes_to (kp : string * Placeholder Data) (slot : nat * nat) : Prop :=
  exists pos, _placeholder_positions self !! fst kp = Some pos
              /\ slot_of s (timeline self) pos = Some slot.

(** The placeholder can be filled: its clip index is not negative
    and [create_clip] returns. *)
Definition fillable (kp : string * Placeholder Data) : Prop :=
  forall pos, _placeholder_positions self !! fst kp = Some pos ->
              0 <= snd pos /\ exists c, create_clip (snd kp) data = Ok c.

End Filling.

(** ** The placeholders of a template *)

Section Registry.
Import placeholder.
Context {Data : Type}.

(** No key is registered twice, and every key bound to a position is
    the key of a registered placeholder. *)
Definition registry_ok (self : VideoTemplate Data) : Prop :=
  NoDup (list_placeholders self)
  /\ forall k, is_Some (_placeholder_positions self !! k) ->
               is_Some (get_placeholder self k).

(** The calls that change the placeholders; [add_placeholder] reads
    the tracks, given by the store at the time of the call. *)
Inductive TemplateOp : Type :=
| PAdd (s : Store) (placeholder : Placeholder Data) (track_index : Z)
       (clip_index : option Z)
| PRemove (key : string).

(** The template a call leaves behind, whether it returns or raises. *)
Definition apply_template_op (op : TemplateOp) (self : VideoTemplate Data)
  : VideoTemplate Data :=
  snd (match op with
       | PAdd s placeholder track_index clip_index =>
           add_placeholder s placeholder track_index clip_index
       | PRemove key => remove_placeholder key
       end self).

End Registry.

(** ** The template library *)

(** No template name and no category is listed twice, no category
    lists a name twice, and every name listed in a category is the
    name of a template of the library. *)
Definition library_ok {Data} (lib : placeholder.TemplateLibrary Data) : Prop :=
  NoDup (placeholder.list_templates lib None)
  /\ NoDup (map fst (placeholder._categories lib))
  /\ forall c names,
       placeholder.dict_get c (placeholder._categories lib) = Some names ->
       NoDup names
       /\ forall n, In n names -> is_Some (placeholder.get_template lib n).

(** ** Clips laid end to end *)

(** The clips follow one another from [t0] to [t1]: every clip has a
    duration, the first starts at [t0], each next one starts where
    the one before it ends, and the last ends at [t1]. *)
Fixpoint laid_out (cs : list clips.Clip) (t0 t1 : Q) : Prop :=
  match cs with
  | [] => t1 = t0
  | c :: rest =>
      clips.start_time c = t0
      /\ exists d, clips.duration c = Some d /\ laid_out rest (t0 + d)%Q t1
  end.

(** The configurations [create_simple_video] makes clips of. *)
Definition known_type (c : app.ClipConfig) : bool :=
  match app.type c with
  | Some t => String.eqb t "video" || String.eqb t "audio"
              || String.eqb t "image" || String.eqb t "text"
  | None => false
  end.

(** A configuration with the keys its type requires: ['type'], and
    ['path'] or ['text']. *)
Definition has_keys (c : app.ClipConfig) : Prop :=
  exists t, app.type c = Some t
            /\ (String.eqb t "video" || String.eqb t "audio"
                || String.eqb t "image" = true -> is_Some (app.path c))
            /\ (t = "text" -> is_Some (app.text c)).

(** [clip_config.get('duration', 5.0)] *)
Definition length_of (c : app.ClipConfig) : Q := default 5%Q (app.duration c).

(** ** Data of the examples *)

(** The clip at [0, 5) of the examples: returned for 0.0 and 4.5, not
    for 5.0. *)
Definition clip_0_5 : clips.Clip :=
  {| clips.oid := 1; clips.start_time := 0; clips.duration := Some 5%Q;
     clips.name := None;
     clips.attrs := clips.TextClip "First" 24 "Arial"
                      {| clips.r := 255; clips.g := 255; clips.b := 255;
                         clips.a := 255 |}
                      {| clips.x := 0; clips.y := 0 |} |}.

Definition disabled_track : track.Track :=
  track.new track.COMPOSITE None false.

Definition clip_without_duration : clips.Clip :=
  {| clips.oid := 2; clips.start_time := 0; clips.duration := None;
     clips.name := None;
     clips.attrs := clips.VideoClip "intro.mp4" 1
                      {| clips.x := 0; clips.y := 0 |} |}.

Definition timeline_of (ts : list track.Track) : timeline.Timeline track.Track :=
  timeline.set_tracks (timeline.new (T := track.Track) 1920 1080 30 None) ts.

Definition video_clip (n : nat) (path : string) (start : Q) : clips.Clip :=
  {| clips.oid := n; clips.start_time := start; clips.duration := Some 5%Q;
     clips.name := None;
     clips.attrs := clips.VideoClip path 1 {| clips.x := 0; clips.y := 0 |} |}.

Definition crossfade : transitions.Transition :=
  {| transitions.transition_type := transitions.CROSSFADE;
     transitions.duration := 1;
     transitions.name := None |}.

(** The track of the test suite: two video clips and a crossfade after
    the first. *)
Definition track_with_transition : track.Track :=
  snd (track.add_transition 0 crossfade
         (snd (track.add_clip (video_clip 2 "video2.mp4" 5) None
                 (snd (track.add_clip (video_clip 1 "video1.mp4" 0) None
                         (track.new track.VIDEO None true)))))).

(** A renderer and the code of the examples: [render] of the
    renderer named [failing] raises an exception with the given text,
    [render] of every other renderer returns, and neither touches the
    job or the queue; the callbacks return likewise.  A clock that
    advances by one second per reading, and ids [job-0], [job-1],
    ... *)
Definition stub_renderer : render_queue.Renderer :=
  {| render_queue.renderer_name := "stub" |}.

Definition failing_renderer : render_queue.Renderer :=
  {| render_queue.renderer_name := "failing" |}.

Definition example_render (text : string)
  : render_queue.Renderer -> timeline.Timeline track.Track -> string
    -> option render_queue.RenderOptions -> render_queue.External :=
  fun r _ _ _ x =>
    if String.eqb (render_queue.renderer_name r) "failing"
    then Some (Raise (Exception text), x)
    else Some (Ok tt, x).

Definition quiet_callback : render_queue.Callback -> render_queue.External :=
  fun _ x => Some (Ok tt, x).

Definition progress_printer : render_queue.Callback :=
  {| render_queue.callback_name := "print_progress" |}.

Definition ticking_clock (n : nat) : Q := inject_Z (Z.of_nat n).

Definition counting_uuid (n : nat) : string :=
  "job-" ++ placeholder.str_int (Z.of_nat n).

Definition empty_timeline : timeline.Timeline track.Track := timeline_of [].

Definition submit (job_id : option string) (st : render_queue.State)
  : result string * render_queue.State :=
  render_queue.add_job ticking_clock counting_uuid empty_timeline "out.mp4"
                       None None job_id None st.

(** A clock whose readings do not advance between the start and the
    end of a render call. *)
Definition coarse_clock (n : nat) : Q := 100.

(** The queue after one job was submitted and rendered under the
    coarse clock. *)
Definition queue_after_instant_render : render_queue.RenderQueue :=
  match render_queue.run coarse_clock (example_render "") quiet_callback
          render_queue.SEQUENTIAL 2
          (snd (render_queue.add_job coarse_clock counting_uuid empty_timeline
                  "out.mp4" None None None None
                  (render_queue.initial
                     (render_queue.new (Some stub_renderer) None)))) with
  | render_queue.Done (_, st) => render_queue.queue st
  | _ => render_queue.new None None
  end.

(** Three jobs, of which the second is given the renderer that
    raises. *)
Definition three_jobs : render_queue.State :=
  let add r := fun st =>
    snd (render_queue.add_job ticking_clock counting_uuid empty_timeline
           "out.mp4" r None None None st) in
  add None
    (add (Some failing_renderer)
       (add None
          (render_queue.initial (render_queue.new (Some stub_renderer) None)))).

Definition status_of (st : render_queue.State) (k : string)
  : option render_queue.JobStatus :=
  render_queue.status <$> render_queue._jobs (render_queue.queue st) !! k.


Definition plain_submission (job_id : option string) : Submission :=
  {| sub_timeline := empty_timeline; sub_output_path := "out.mp4";
     sub_renderer := None; sub_options := None; sub_job_id := job_id;
     sub_metadata := None |}.

(** A template over a track that holds one clip, with a text
    placeholder bound to that clip's position. *)
Definition title_placeholder : placeholder.PlaceholderText :=
  {| placeholder.text_key := "title";
     placeholder.text_description := None;
     placeholder.text_duration := 5;
     placeholder.text_start_time := 0;
     placeholder.font_size := 48;
     placeholder.font_family := "Arial";
     placeholder.color := {| clips.r := 255; clips.g := 255; clips.b := 255;
                             clips.a := 255 |};
     placeholder.position := {| clips.x := 480; clips.y := 540 |};
     placeholder.max_length := None;
     placeholder.required := true |}.

Definition store_with_title_track : placeholder.Store :=
  snd (placeholder.alloc_track
         (track.set_clips (track.new track.TEXT None true) [clip_0_5])
         placeholder.empty_store).

Definition title_template : placeholder.VideoTemplate (gmap string string) :=
  snd (placeholder.add_placeholder store_with_title_track
         (placeholder.as_placeholder_text title_placeholder) 0 (Some 0)
         (placeholder.new
            {| timeline.width := 1920; timeline.height := 1080;
               timeline.framerate := 30; timeline.name := None;
               timeline._tracks := [0%nat] |}
            None)).

Definition hello_data : gmap string string := {[ "title" := "Hello" ]}.

(** The three jobs of the example after a sequential run. *)
Definition three_jobs_done : render_queue.State :=
  match render_queue.run ticking_clock (example_render "boom") quiet_callback
          render_queue.SEQUENTIAL 4 three_jobs with
  | render_queue.Done (_, st) => st
  | _ => three_jobs
  end.

(** A callback that stops the queue, and a renderer interrupted from
    the keyboard. *)
Definition stopping_callback : render_queue.Callback -> render_queue.External :=
  fun _ x => Some (Ok tt, (fst x, snd (render_queue.stop (snd x)))).

Definition interrupted_render
  : render_queue.Renderer -> timeline.Timeline track.Track -> string
    -> option render_queue.RenderOptions -> render_queue.External :=
  fun _ _ _ _ x => Some (Raise (KeyboardInterrupt ""), x).

(** A callback that raises, one that removes the job it is called
    with from the queue, and a renderer that does not return. *)
Definition raising_callback : render_queue.Callback -> render_queue.External :=
  fun _ x => Some (Raise (Exception "callback failed"), x).

Definition removing_callback : render_queue.Callback -> render_queue.External :=
  fun _ x =>
    let '(job, st) := x in
    match render_queue._jobs (render_queue.queue st) !! render_queue.id job with
    | Some j =>
        Some (Ok tt,
              (if render_queue.JobStatus_eqb (render_queue.status j)
                                             render_queue.RUNNING
               then render_queue.set_status render_queue.CANCELLED job
               else job,
               snd (render_queue.remove_job (render_queue.id job) st)))
    | None => Some (Ok tt, x)
    end.

Definition hanging_render
  : render_queue.Renderer -> timeline.Timeline track.Track -> string
    -> option render_queue.RenderOptions -> render_queue.External :=
  fun _ _ _ _ _ => None.

(** The three jobs of the example in a queue with a progress
    callback. *)
Definition three_jobs_with_callback : render_queue.State :=
  let add r := fun st =>
    snd (render_queue.add_job ticking_clock counting_uuid empty_timeline
           "out.mp4" r None None None st) in
  add None
    (add (Some failing_renderer)
       (add None
          (render_queue.initial
             (render_queue.new (Some stub_renderer) (Some progress_printer))))).

(** * Properties *)

Lemma Qlt_bool_iff (x y : Q) : Qlt_bool x y = true <-> (x < y)%Q.
Proof.
  unfold Qlt_bool. rewrite negb_true_iff, <- not_true_iff_false, Qle_bool_iff.
  split; [apply Qnot_le_lt | apply Qlt_not_le].
Qed.

(** ** Python list access *)

Lemma getitem_in_range {A} (l : list A) (i : Z) :
  0 <= i < pylist.len l ->
  exists x, pylist.getitem l i = Ok x /\ nth_error l (Z.to_nat i) = Some x.
Proof.
  intros Hi. unfold pylist.getitem, pylist.len in *.
  destruct (Z.ltb_spec i 0) as [Hneg|_]; [lia|].
  destruct (Z.leb_spec 0 i) as [_|Hneg]; [|lia].
  destruct (Z.ltb_spec i (Z.of_nat (length l))) as [_|Hge]; [|lia].
  simpl. destruct (nth_error l (Z.to_nat i)) as [x|] eqn:Hnth.
  - exists x. split; reflexivity.
  - apply nth_error_None in Hnth. lia.
Qed.

(** A guarded access [if 0 <= i < len(l): return l[i]; return None]
    never raises, and answers [None] exactly outside the range. *)
Lemma guarded_access {A} (l : list A) (i : Z) :
  exists r : option A,
    (if (0 <=? i) && (i <? pylist.len l)
     then rbind (pylist.getitem l i) (fun x => Ok (Some x))
     else Ok None) = Ok r
    /\ (r = None <-> i < 0 \/ pylist.len l <= i)
    /\ r = (if (0 <=? i) && (i <? pylist.len l)
            then nth_error l (Z.to_nat i) else None).
Proof.
  destruct (Z.leb_spec 0 i) as [Hlo|Hlo];
    destruct (Z.ltb_spec i (pylist.len l)) as [Hhi|Hhi]; simpl.
  - destruct (getitem_in_range l i) as (x & Hget & Hnth); [lia|].
    exists (Some x). rewrite Hget, Hnth. simpl.
    repeat split; try discriminate. lia.
  - exists None. repeat split; auto; lia.
  - exists None. repeat split; auto; lia.
  - exists None. repeat split; auto; lia.
Qed.

(** C10: [Track.get_clip] and [Timeline.get_track] are total over the
    integers: for every index they return without raising, the result
    is [None] exactly when the index is negative or not less than the
    number of elements, and it is the element at that position
    otherwise. *)
Theorem get_clip_get_track_total :
  (forall (t : track.Track) (index : Z),
      exists r, track.get_clip t index = Ok r
        /\ (r = None <-> index < 0 \/ pylist.len (track._clips t) <= index)
        /\ r = (if (0 <=? index) && (index <? pylist.len (track._clips t))
                then nth_error (track._clips t) (Z.to_nat index) else None))
  /\
  (forall (T : Type) (tl : timeline.Timeline T) (index : Z),
      exists r, timeline.get_track tl index = Ok r
        /\ (r = None <-> index < 0 \/ pylist.len (timeline._tracks tl) <= index)
        /\ r = (if (0 <=? index) && (index <? pylist.len (timeline._tracks tl))
                then nth_error (timeline._tracks tl) (Z.to_nat index) else None)).
Proof.
  split; intros.
  - apply (guarded_access (track._clips t) index).
  - apply (guarded_access (timeline._tracks tl) index).
Qed.

(** ** Clips active at a time *)

Lemma active_at_iff (time : Q) (c : clips.Clip) :
  active_at time c = true <->
  exists d, clips.duration c = Some d
            /\ (clips.start_time c <= time)%Q
            /\ (time < clips.start_time c + d)%Q.
Proof.
  unfold active_at. destruct (clips.duration c) as [d|].
  - rewrite andb_true_iff, Qle_bool_iff, Qlt_bool_iff. split.
    + intros [H1 H2]. exists d. auto.
    + intros (d' & Hd & H1 & H2). injection Hd as <-. auto.
  - split; [discriminate | intros (d & Hd & _); discriminate].
Qed.

(** The loop of [find_clips_at_time], started with any accumulator. *)
Lemma find_clips_loop (time : Q) (l acc : list clips.Clip) :
  fold_left
    (fun acc clip =>
       rbind acc (fun active_clips =>
         match clips.duration clip with
         | Some _ =>
             if Qle_bool (clips.start_time clip) time then
               rbind (clips.end_time clip) (fun e =>
                 if Qlt_bool time e then Ok (active_clips ++ [clip])
                 else Ok active_clips)
             else Ok active_clips
         | None => Ok active_clips
         end))
    l (Ok acc)
  = Ok (acc ++ List.filter (active_at time) l).
Proof.
  revert acc. induction l as [|c l IH]; intros acc; simpl.
  - by rewrite app_nil_r.
  - assert (Hstep :
      (if active_at time c then Ok (acc ++ [c]) else Ok acc) =
      match clips.duration c with
      | Some _ =>
          if Qle_bool (clips.start_time c) time then
            rbind (clips.end_time c) (fun e =>
              if Qlt_bool time e then Ok (acc ++ [c]) else Ok acc)
          else Ok acc
      | None => Ok acc
      end).
    { unfold active_at, clips.end_time.
      destruct (clips.duration c); [|reflexivity].
      destruct (Qle_bool (clips.start_time c) time); reflexivity. }
    rewrite <- Hstep.
    destruct (active_at time c); rewrite IH; [|reflexivity].
    rewrite <- app_assoc. reflexivity.
Qed.

(** C8: [find_clips_at_time(t)] returns, in track order, exactly the
    clips that have a duration and satisfy
    [start_time <= t < start_time + duration]; it never raises, and a
    clip without duration is never returned.  A clip at [0, 5) is
    returned for 0.0 and for 4.5, not for 5.0. *)
Theorem find_clips_at_time_half_open (t : track.Track) (time : Q) :
  track.find_clips_at_time t time
    = Ok (List.filter (active_at time) (track._clips t))
  /\ (forall c, active_at time c = true <->
                exists d, clips.duration c = Some d
                          /\ (clips.start_time c <= time)%Q
                          /\ (time < clips.start_time c + d)%Q)
  /\ (forall c, clips.duration c = None -> active_at time c = false)
  /\ (let t05 := track.set_clips (track.new track.TEXT None true) [clip_0_5] in
      track.find_clips_at_time t05 0 = Ok [clip_0_5]
      /\ track.find_clips_at_time t05 (9 # 2) = Ok [clip_0_5]
      /\ track.find_clips_at_time t05 5 = Ok []).
Proof.
  split; [|split; [|split]].
  - unfold track.find_clips_at_time. apply (find_clips_loop time _ []).
  - apply active_at_iff.
  - intros c Hc. unfold active_at. by rewrite Hc.
  - repeat split.
Qed.

(** The track of the test suite: clips at [0, 5), [4, 7) and
    [8, 10). *)
Example find_clips_at_time_test :
  let clip n text start d :=
    {| clips.oid := n; clips.start_time := start; clips.duration := Some d;
       clips.name := None;
       clips.attrs := clips.TextClip text 24 "Arial"
                        {| clips.r := 255; clips.g := 255; clips.b := 255;
                           clips.a := 255 |}
                        {| clips.x := 0; clips.y := 0 |} |} in
  let c1 := clip 1%nat "First" 0%Q 5%Q in
  let c2 := clip 2%nat "Second" 4%Q 3%Q in
  let c3 := clip 3%nat "Third" 8%Q 2%Q in
  let t := track.set_clips (track.new track.TEXT None true) [c1; c2; c3] in
  track.find_clips_at_time t 0 = Ok [c1]
  /\ track.find_clips_at_time t (9 # 2) = Ok [c1; c2]
  /\ track.find_clips_at_time t 9 = Ok [c3]
  /\ track.find_clips_at_time t 15 = Ok []
  /\ track.find_clips_at_time t 7 = Ok [].
Proof. repeat split. Qed.

(** ** Clip types on tracks *)

Lemma isinstance_allowed (t : track.TrackType) (clip : clips.Clip) :
  t <> track.COMPOSITE ->
  exists allowed_types,
    track.lookup_type t track.valid_types = Some allowed_types
    /\ clips.isinstance clip allowed_types = allowed_on t (clips.class_of clip).
Proof.
  intros Ht. destruct t; try congruence; eexists; (split; [reflexivity|]);
    unfold clips.isinstance; destruct (clips.class_of clip); reflexivity.
Qed.

Lemma nth_error_lookup {A} (l : list A) (i : nat) : nth_error l i = l !! i.
Proof. revert i. induction l as [|x l IH]; intros [|i]; simpl; auto. Qed.

Lemma len_insert {A} (l : list A) (i : Z) (x : A) :
  pylist.len (pylist.insert_at l i x) = pylist.len l + 1.
Proof.
  unfold pylist.insert_at, pylist.len.
  rewrite length_app. simpl. rewrite length_take, length_drop. lia.
Qed.

Lemma validate_clip_type_allowed (t : track.Track) (c : clips.Clip) :
  allowed_on (track.track_type t) (clips.class_of c) = true ->
  track._validate_clip_type t c = Ok tt.
Proof.
  unfold track._validate_clip_type, clips.isinstance.
  destruct (track.track_type t), (clips.class_of c); simpl; congruence.
Qed.

Lemma validate_clip_type_refused (t : track.Track) (c : clips.Clip) :
  allowed_on (track.track_type t) (clips.class_of c) = false ->
  exists msg, track._validate_clip_type t c = Raise (ValueError msg).
Proof.
  unfold track._validate_clip_type, clips.isinstance.
  destruct (track.track_type t), (clips.class_of c); simpl;
    try congruence; eauto.
Qed.

Lemma add_clip_allowed (t : track.Track) (c : clips.Clip) (index : option Z) :
  allowed_on (track.track_type t) (clips.class_of c) = true ->
  track.add_clip c index t
  = match index with
    | None => (Ok tt, track.set_clips t (track._clips t ++ [c]))
    | Some i =>
        if pylist.fits_ssize_t i then
          (Ok tt, track.set_clips t (pylist.insert_at (track._clips t) i c))
        else
          (Raise (OverflowError "Python int too large to convert to C ssize_t"),
           t)
    end.
Proof.
  intros Ha. unfold track.add_clip, bind, get, lift, put, pylist.insert.
  rewrite (validate_clip_type_allowed t c Ha).
  destruct index as [i|]; [|reflexivity]. by destruct (pylist.fits_ssize_t i).
Qed.

Lemma add_clip_refused (t : track.Track) (c : clips.Clip) (index : option Z) :
  allowed_on (track.track_type t) (clips.class_of c) = false ->
  exists msg, track.add_clip c index t = (Raise (ValueError msg), t).
Proof.
  intros Ha. unfold track.add_clip, bind, get, lift, put.
  destruct (validate_clip_type_refused t c Ha) as [msg ->]. by exists msg.
Qed.

Lemma get_clip_lookup (t : track.Track) (k : Z) :
  track.get_clip t k
  = Ok (if (0 <=? k) && (k <? pylist.len (track._clips t))
        then track._clips t !! Z.to_nat k else None).
Proof.
  unfold track.get_clip.
  destruct (guarded_access (track._clips t) k) as (r & -> & _ & ->).
  by rewrite nth_error_lookup.
Qed.

Lemma set_clips_same (t : track.Track) : track.set_clips t (track._clips t) = t.
Proof. by destruct t. Qed.

Lemma set_transitions_same (t : track.Track) :
  track.set_transitions t (track._transitions t) = t.
Proof. by destruct t. Qed.

(** A clip put at position [j] of the clip list is stored there, as
    the observers of the track show. *)
Lemma stored_in_list (t : track.Track) (c : clips.Clip) (j : Z) :
  0 <= j <= track.__len__ t ->
  stored_at t
    (track.set_clips t (take (Z.to_nat j) (track._clips t)
                        ++ c :: drop (Z.to_nat j) (track._clips t)))
    c j.
Proof.
  intros Hj. set (n := track.__len__ t) in *.
  set (cs := take (Z.to_nat j) (track._clips t)
             ++ c :: drop (Z.to_nat j) (track._clips t)).
  assert (Htake : length (take (Z.to_nat j) (track._clips t)) = Z.to_nat j).
  { rewrite length_take. unfold n, track.__len__, pylist.len in Hj. lia. }
  assert (Hlen : pylist.len cs = n + 1).
  { unfold cs, pylist.len. rewrite length_app. simpl.
    rewrite length_take, length_drop. unfold n, track.__len__, pylist.len in *.
    lia. }
  unfold stored_at. split; [exact Hlen|].
  split; [|split; [|split; [|by destruct t]]].
  - rewrite get_clip_lookup. simpl. rewrite Hlen.
    destruct (Z.leb_spec 0 j); [|lia]. destruct (Z.ltb_spec j (n + 1)); [|lia].
    simpl. unfold cs. rewrite lookup_app_r by lia.
    rewrite Htake, Nat.sub_diag. reflexivity.
  - intros k Hk. rewrite !get_clip_lookup. simpl. rewrite Hlen.
    fold (track.__len__ t). fold n.
    destruct (Z.leb_spec 0 k); simpl; [|reflexivity].
    destruct (Z.ltb_spec k (n + 1)); [|lia]. destruct (Z.ltb_spec k n); [|lia].
    unfold cs. rewrite lookup_app_l by lia. f_equal. apply lookup_take_lt. lia.
  - intros k Hk. rewrite !get_clip_lookup. simpl. rewrite Hlen.
    fold (track.__len__ t). fold n.
    destruct (Z.leb_spec 0 (k + 1)); [|lia]. destruct (Z.leb_spec 0 k); [|lia].
    simpl. destruct (Z.ltb_spec (k + 1) (n + 1)); destruct (Z.ltb_spec k n);
      try lia; [|reflexivity].
    unfold cs. rewrite lookup_app_r by lia. rewrite Htake.
    replace (Z.to_nat (k + 1) - Z.to_nat j)%nat
      with (S (Z.to_nat k - Z.to_nat j)) by lia.
    simpl. rewrite lookup_drop. do 2 f_equal. lia.
Qed.

(** The place [list.insert] gives to an index that fits. *)
Lemma stored_by_insert (t : track.Track) (c : clips.Clip) (i : Z) :
  stored_at t (track.set_clips t (pylist.insert_at (track._clips t) i c)) c
            (insert_position i (track.__len__ t)).
Proof.
  apply (stored_in_list t c (insert_position i (track.__len__ t))).
  unfold insert_position, track.__len__, pylist.len.
  destruct (Z.ltb_spec i 0); lia.
Qed.

Lemma stored_by_append (t : track.Track) (c : clips.Clip) :
  stored_at t (track.set_clips t (track._clips t ++ [c])) c (track.__len__ t).
Proof.
  assert (Heq : track._clips t ++ [c]
                = take (Z.to_nat (track.__len__ t)) (track._clips t)
                  ++ c :: drop (Z.to_nat (track.__len__ t)) (track._clips t)).
  { unfold track.__len__, pylist.len.
    rewrite Nat2Z.id, take_ge, drop_ge by lia. reflexivity. }
  rewrite Heq. apply stored_in_list. unfold track.__len__, pylist.len. lia.
Qed.

(** [add_clip] either stores the clip or raises and leaves the track
    as it was. *)
Lemma add_clip_cases (t : track.Track) (clip : clips.Clip) (index : option Z) :
  track.add_clip clip index t
  = (Ok tt,
     track.set_clips t
       match index with
       | None => track._clips t ++ [clip]
       | Some i => pylist.insert_at (track._clips t) i clip
       end)
  \/ exists e, track.add_clip clip index t = (Raise e, t).
Proof.
  unfold track.add_clip, bind, get, lift, put, pylist.insert.
  destruct (track._validate_clip_type t clip) as [[]|e].
  - destruct index as [i|]; [|by left].
    destruct (pylist.fits_ssize_t i); [by left|right; eauto].
  - right. by exists e.
Qed.

(** C9 (amended): [add_clip] checks the clip's class against the track
    type when the clip is inserted.  On a track whose type does not
    admit the class [ValueError] is raised and the track is left as it
    was; a video track admits video and image clips only, and the
    check is made for every track type but composite.  On a track
    whose type admits the class the clip is appended (no index) or
    inserted at the place [list.insert] gives it, for an index that
    fits a C [ssize_t]: the track is one clip longer, [get_clip] at
    that place returns the clip, the clips before it keep their
    positions and the others move up by one.  An index that does not
    fit raises [OverflowError] and leaves the track as it was. *)
Theorem add_clip_type_check (t : track.Track) (clip : clips.Clip)
        (index : option Z) :
  if allowed_on (track.track_type t) (clips.class_of clip) then
    match index with
    | None =>
        exists t', track.add_clip clip None t = (Ok tt, t')
                   /\ stored_at t t' clip (track.__len__ t)
    | Some i =>
        if pylist.fits_ssize_t i then
          exists t', track.add_clip clip (Some i) t = (Ok tt, t')
                     /\ stored_at t t' clip
                                  (insert_position i (track.__len__ t))
        else
          track.add_clip clip (Some i) t
          = (Raise (OverflowError
                      "Python int too large to convert to C ssize_t"), t)
    end
  else
    track.add_clip clip index t
    = (Raise (ValueError ("Track type " ++ track.value (track.track_type t)
                          ++ " cannot contain " ++ clips.type_name clip)),
       t).
Proof.
  destruct (allowed_on (track.track_type t) (clips.class_of clip)) eqn:Ha.
  - rewrite (add_clip_allowed t clip None Ha).
    destruct index as [i|].
    + rewrite (add_clip_allowed t clip (Some i) Ha).
      destruct (pylist.fits_ssize_t i); [|reflexivity].
      eexists. split; [reflexivity|]. apply stored_by_insert.
    + eexists. split; [reflexivity|]. apply stored_by_append.
  - unfold track.add_clip, bind, get, lift, put, track._validate_clip_type.
    (* by track type, then by the class of the clip *)
    revert Ha. destruct (track.track_type t) eqn:Ht; simpl;
      unfold clips.isinstance; destruct (clips.class_of clip); simpl;
      try discriminate; reflexivity.
Qed.

(** C9, as stated, fails: a video clip added to a video track at the
    index [2**63] is not stored; [list.insert] raises [OverflowError]
    and the track keeps its clips. *)
Lemma add_clip_index_overflow :
  let t := track.new track.VIDEO None true in
  let clip := video_clip 1 "test.mp4" 0 in
  allowed_on (track.track_type t) (clips.class_of clip) = true
  /\ track.add_clip clip (Some (2 ^ 63)) t
     = (Raise (OverflowError "Python int too large to convert to C ssize_t"), t)
  /\ ~ exists t', track.add_clip clip (Some (2 ^ 63)) t = (Ok tt, t').
Proof.
  split; [reflexivity|]. split; [reflexivity|]. intros [t' H]. discriminate.
Qed.

(** On a video track: an audio or text clip is refused and the track
    keeps its clips, a video or image clip is accepted. *)
Example add_clip_video_track :
  let t := track.new track.VIDEO None true in
  let audio :=
    {| clips.oid := 7; clips.start_time := 0; clips.duration := Some 5%Q;
       clips.name := None; clips.attrs := clips.AudioClip "test.wav" 1 |} in
  track.add_clip (video_clip 1 "test.mp4" 0) None t
  = (Ok tt, track.set_clips t [video_clip 1 "test.mp4" 0])
  /\ track.add_clip audio None t
     = (Raise (ValueError "Track type video cannot contain AudioClip"), t)
  /\ track.add_clip clip_0_5 (Some 0) t
     = (Raise (ValueError "Track type video cannot contain TextClip"), t).
Proof. repeat split. Qed.

(** ** Durations of tracks and timelines *)

Lemma mapM_result_nil_inv {A B} (f : A -> result B) (l : list A) :
  mapM_result f l = Ok [] -> l = [].
Proof.
  destruct l as [|x l]; [reflexivity|]. simpl.
  destruct (f x); simpl; [|discriminate].
  destruct (mapM_result f l); simpl; discriminate.
Qed.

Lemma filter_defined_nil (l : list clips.Clip) :
  Forall (fun c => clips.duration c = None) l ->
  List.filter (fun clip => bool_decide (clips.duration clip <> None)) l = [].
Proof.
  induction 1 as [|c l Hc _ IH]; [reflexivity|]. simpl.
  rewrite bool_decide_eq_false_2; [exact IH|]. rewrite Hc. tauto.
Qed.

(** A track that has clips, none of them with a duration, has no
    duration: [max] is applied to an empty sequence. *)
Lemma track_duration_undefined (t : track.Track) :
  track._clips t <> [] ->
  Forall (fun c => clips.duration c = None) (track._clips t) ->
  track.duration t = Raise (ValueError "max() arg is an empty sequence").
Proof.
  intros Hne Hall. unfold track.duration.
  destruct (track._clips t) as [|c l] eqn:Hl; [congruence|].
  rewrite filter_defined_nil by exact Hall. reflexivity.
Qed.

Lemma mapM_duration_undefined (ts : list track.Track) :
  Forall (fun t => track.enabled t = true ->
                   track._clips t <> []
                   /\ Forall (fun c => clips.duration c = None) (track._clips t)) ts ->
  mapM_result track.duration (List.filter track.enabled ts) = Ok []
  \/ mapM_result track.duration (List.filter track.enabled ts)
     = Raise (ValueError "max() arg is an empty sequence").
Proof.
  induction 1 as [|t ts Ht _ IH]; [left; reflexivity|]. simpl.
  destruct (track.enabled t) eqn:He; [|exact IH].
  destruct (Ht eq_refl) as [Hne Hall]. right. simpl.
  rewrite (track_duration_undefined t Hne Hall). reflexivity.
Qed.

(** C5 (where the code departs from the claim): on a timeline that has
    tracks, when every enabled track holds clips but none with a
    duration -- in particular when no track is enabled at all -- the
    [duration] property does not return 0: it raises [ValueError]. *)
Theorem timeline_duration_raises (tl : timeline.Timeline track.Track) :
  timeline._tracks tl <> [] ->
  Forall (fun t => track.enabled t = true ->
                   track._clips t <> []
                   /\ Forall (fun c => clips.duration c = None) (track._clips t))
         (timeline._tracks tl) ->
  timeline.duration tl = Raise (ValueError "max() arg is an empty sequence").
Proof.
  intros Hne Hall. unfold timeline.duration.
  destruct (timeline._tracks tl) as [|t ts] eqn:Hl; [congruence|].
  destruct (mapM_duration_undefined (t :: ts) Hall) as [-> | ->]; reflexivity.
Qed.

Lemma timeline_duration_raises_witness :
  timeline.duration (timeline_of [disabled_track])
  = Raise (ValueError "max() arg is an empty sequence").
Proof.
  apply (timeline_duration_raises (timeline_of [disabled_track])).
  - simpl. discriminate.
  - simpl. constructor; [|constructor]. simpl. discriminate.
Defined.

(** The second case of C5: one enabled track whose only clip has no
    duration. *)
Example timeline_duration_undefined_clip :
  timeline.duration
    (timeline_of [track.set_clips (track.new track.VIDEO None true)
                                  [clip_without_duration]])
  = Raise (ValueError "max() arg is an empty sequence").
Proof. reflexivity. Qed.

(** The cases the claim gets right: no track at all, and the tracks of
    the test suite. *)
Example timeline_duration_no_track :
  timeline.duration (timeline_of []) = Ok 0%Q.
Proof. reflexivity. Qed.

(** Where the [duration] properties do return, they return the
    maximum the claim describes. *)

Lemma fold_max_spec (l : list Q) (x0 : Q) :
  let m := fold_left (fun m y => if Qlt_bool m y then y else m) l x0 in
  In m (x0 :: l) /\ Forall (fun y => (y <= m)%Q) (x0 :: l).
Proof.
  revert x0. induction l as [|y l IH]; intros x0; simpl.
  - split; [auto|]. constructor; [apply Qle_refl|constructor].
  - destruct (Qlt_bool x0 y) eqn:Hlt.
    + destruct (IH y) as [Hin Hall]. split.
      * simpl in Hin. tauto.
      * inversion Hall as [|? ? Hy Hl]; subst.
        constructor; [|constructor; assumption].
        apply Qlt_bool_iff in Hlt. eapply Qle_trans; [|exact Hy].
        apply Qlt_le_weak, Hlt.
    + destruct (IH x0) as [Hin Hall]. split.
      * simpl in Hin. tauto.
      * inversion Hall as [|? ? Hx Hl]; subst.
        constructor; [assumption|]. constructor; [|assumption].
        unfold Qlt_bool in Hlt. apply negb_false_iff, Qle_bool_iff in Hlt.
        eapply Qle_trans; [exact Hlt|exact Hx].
Qed.

Lemma py_max_spec (l : list Q) :
  l <> [] ->
  exists m, py_max l = Ok m /\ In m l /\ Forall (fun y => (y <= m)%Q) l.
Proof.
  destruct l as [|x l]; [congruence|]. intros _.
  eexists. split; [reflexivity|]. apply fold_max_spec.
Qed.

Lemma end_times_generator (cs : list clips.Clip) :
  mapM_result clips.end_time
    (List.filter (fun clip => bool_decide (clips.duration clip <> None)) cs)
  = Ok (end_times cs).
Proof.
  induction cs as [|c cs IH]; [reflexivity|]. simpl.
  destruct (clips.duration c) as [d|] eqn:Hd.
  - rewrite bool_decide_eq_true_2 by discriminate. simpl.
    unfold clips.end_time at 1. rewrite Hd. simpl. rewrite IH. reflexivity.
  - rewrite bool_decide_eq_false_2 by tauto. exact IH.
Qed.

Lemma in_end_times (cs : list clips.Clip) (e : Q) :
  In e (end_times cs) <->
  exists c d, In c cs /\ clips.duration c = Some d
              /\ e = (clips.start_time c + d)%Q.
Proof.
  unfold end_times. rewrite in_flat_map. split.
  - intros (c & Hc & He). destruct (clips.duration c) as [d|] eqn:Hd; [|destruct He].
    destruct He as [<-|[]]. eauto.
  - intros (c & d & Hc & Hd & ->). exists c. rewrite Hd. simpl. auto.
Qed.

(** [Track.duration] on a track with at least one timed clip. *)
Lemma track_duration_max (t : track.Track) :
  end_times (track._clips t) <> [] ->
  exists m, track.duration t = Ok m
            /\ In m (end_times (track._clips t))
            /\ Forall (fun e => (e <= m)%Q) (end_times (track._clips t)).
Proof.
  intros Hne. unfold track.duration.
  destruct (track._clips t) as [|c cs] eqn:Hcs; [simpl in Hne; congruence|].
  rewrite end_times_generator. simpl rbind. apply py_max_spec, Hne.
Qed.

Lemma mapM_result_Forall2 {A B} (f : A -> result B) (l : list A) (l' : list B) :
  mapM_result f l = Ok l' <-> Forall2 (fun x y => f x = Ok y) l l'.
Proof.
  revert l'. induction l as [|x l IH]; intros l'; simpl.
  - split; [intros [= <-]; constructor | intros H; inversion H; reflexivity].
  - split.
    + destruct (f x) as [y|] eqn:Hx; simpl; [|discriminate].
      destruct (mapM_result f l) as [ys|] eqn:Hl; simpl; [|discriminate].
      intros [= <-]. constructor; [assumption | by apply IH].
    + intros H. inversion H as [|? y ? ys Hx Hrest]; subst.
      rewrite Hx. simpl. apply IH in Hrest. rewrite Hrest. reflexivity.
Qed.

Lemma track_duration_inv (t : track.Track) (m : Q) :
  track.duration t = Ok m ->
  (track._clips t = [] /\ m = 0%Q)
  \/ (In m (end_times (track._clips t))
      /\ Forall (fun e => (e <= m)%Q) (end_times (track._clips t))).
Proof.
  unfold track.duration.
  destruct (track._clips t) as [|c cs] eqn:Hcs.
  - intros [= <-]. left. auto.
  - rewrite end_times_generator. generalize (end_times (c :: cs)) as es.
    intros es Hmax. right. unfold rbind in Hmax.
    assert (Hne : es <> []) by (intros ->; discriminate).
    destruct (py_max_spec _ Hne) as (m' & Hm' & Hin & Hall).
    rewrite Hmax in Hm'. injection Hm' as <-. auto.
Qed.

Lemma Forall2_in {A B} (R : A -> B -> Prop) (l : list A) (l' : list B) :
  Forall2 R l l' ->
  (forall x, In x l -> exists y, In y l' /\ R x y)
  /\ (forall y, In y l' -> exists x, In x l /\ R x y).
Proof.
  induction 1 as [|x y l l' Hxy _ [IH1 IH2]]; split; simpl; try tauto.
  - intros x' [<-|Hx']; [eauto|]. destruct (IH1 x' Hx') as (y' & ? & ?). eauto.
  - intros y' [<-|Hy']; [eauto|]. destruct (IH2 y' Hy') as (x' & ? & ?). eauto.
Qed.

(** [Timeline.duration], where it returns: the value bounds the end
    time of every timed clip on an enabled track, and it is one of
    these end times or the 0.0 of an enabled track without clips. *)
Lemma timeline_duration_max (tl : timeline.Timeline track.Track) (m : Q) :
  timeline._tracks tl <> [] ->
  timeline.duration tl = Ok m ->
  (forall t e, In t (timeline._tracks tl) -> track.enabled t = true ->
               In e (end_times (track._clips t)) -> (e <= m)%Q)
  /\ ((exists t, In t (timeline._tracks tl) /\ track.enabled t = true
                 /\ In m (end_times (track._clips t)))
      \/ (m = 0%Q /\ exists t, In t (timeline._tracks tl)
                               /\ track.enabled t = true
                               /\ track._clips t = [])).
Proof.
  intros Hne. unfold timeline.duration.
  destruct (timeline._tracks tl) as [|t0 ts0] eqn:Hts; [congruence|].
  rewrite <- Hts. clear Hne Hts t0 ts0.
  destruct (mapM_result track.duration (List.filter track.enabled (timeline._tracks tl)))
    as [ds|] eqn:Hds; simpl; [|discriminate].
  intros Hmax. apply mapM_result_Forall2, Forall2_in in Hds.
  destruct Hds as [Hfwd Hback].
  assert (Hds_ne : ds <> []) by (intros ->; discriminate).
  destruct (py_max_spec ds Hds_ne) as (m' & Hm' & Hin & Hall).
  rewrite Hmax in Hm'. injection Hm' as <-. split.
  - intros t e Ht He Hin_e.
    destruct (Hfwd t) as (d & Hd & Hdur); [apply filter_In; auto|].
    rewrite List.Forall_forall in Hall. apply Qle_trans with d; [|apply Hall, Hd].
    destruct (track_duration_inv t d Hdur) as [[Hnil _]|[_ Hle]].
    + rewrite Hnil in Hin_e. destruct Hin_e.
    + rewrite List.Forall_forall in Hle. apply Hle, Hin_e.
  - destruct (Hback m Hin) as (t & Ht & Hdur). apply filter_In in Ht as [Ht He].
    destruct (track_duration_inv t m Hdur) as [[Hnil ->]|[Hm _]].
    + right. split; [reflexivity|]. eauto.
    + left. eauto.
Qed.

(** It does return when some track is enabled and every enabled track
    is empty or holds a timed clip. *)
Lemma timeline_duration_returns (tl : timeline.Timeline track.Track) :
  (exists t, In t (timeline._tracks tl) /\ track.enabled t = true) ->
  Forall (fun t => track.enabled t = true ->
                   track._clips t = [] \/ end_times (track._clips t) <> [])
         (timeline._tracks tl) ->
  exists m, timeline.duration tl = Ok m.
Proof.
  intros (t0 & Ht0 & He0) Hall. unfold timeline.duration.
  destruct (timeline._tracks tl) as [|t1 ts] eqn:Hts; [destruct Ht0|].
  rewrite <- Hts in *. clear Hts t1 ts.
  assert (Hds : exists ds,
             mapM_result track.duration
               (List.filter track.enabled (timeline._tracks tl)) = Ok ds
             /\ ds <> []).
  { revert t0 Ht0 He0.
    induction Hall as [|t ts Ht _ IH]; intros t0 Ht0 He0; [destruct Ht0|].
    simpl. destruct (track.enabled t) eqn:He.
    - assert (Hd : exists d, track.duration t = Ok d).
      { destruct (Ht eq_refl) as [Hnil|Hne].
        - exists 0%Q. unfold track.duration. rewrite Hnil. reflexivity.
        - destruct (track_duration_max t Hne) as (d & Hd & _). eauto. }
      destruct Hd as (d & Hd). simpl. rewrite Hd. simpl.
      destruct (List.filter track.enabled ts) as [|t' ts'] eqn:Hf.
      + exists [d]. split; [reflexivity|discriminate].
      + assert (Hin : In t' ts /\ track.enabled t' = true).
        { apply filter_In. rewrite Hf. left. reflexivity. }
        destruct (IH t' (proj1 Hin) (proj2 Hin)) as (ds & Hds & _).
        rewrite Hds. exists (d :: ds). split; [reflexivity|discriminate].
    - destruct Ht0 as [<-|Ht0]; [congruence|]. exact (IH t0 Ht0 He0). }
  destruct Hds as (ds & -> & Hne). simpl.
  destruct (py_max_spec ds Hne) as (m & Hm & _). eauto.
Qed.

(** The timeline of the test suite: clips ending at 5.0 and 10.0. *)
Example timeline_duration_test :
  timeline.duration
    (timeline_of
       [track.set_clips (track.new track.COMPOSITE None true)
          [clip_0_5;
           {| clips.oid := 3; clips.start_time := 7; clips.duration := Some 3%Q;
              clips.name := None;
              clips.attrs := clips.TextClip "Test 2" 24 "Arial"
                               {| clips.r := 255; clips.g := 255;
                                  clips.b := 255; clips.a := 255 |}
                               {| clips.x := 0; clips.y := 0 |} |}]])
  = Ok 10%Q.
Proof. reflexivity. Qed.

(** ** Transitions of a track *)

Lemma add_transition_valid (t : track.Track) (i : Z) (tr : transitions.Transition) :
  transitions_valid t ->
  transitions_valid (snd (track.add_transition i tr t)).
Proof.
  intros Hv. unfold track.add_transition, bind, get, put, ret. simpl.
  destruct ((0 <=? i) && (i <? pylist.len (track._clips t) - 1)) eqn:Hi;
    simpl; [|exact Hv].
  intros j tr'. simpl. rewrite lookup_insert_Some.
  intros [[<- _]|[_ Hj]]; [|eapply Hv, Hj].
  apply andb_true_iff in Hi as [Hlo Hhi]. lia.
Qed.

Lemma remove_transition_valid (t : track.Track) (i : Z) :
  transitions_valid t ->
  transitions_valid (snd (track.remove_transition i t)).
Proof.
  intros Hv.
  unfold track.remove_transition, track.del_transition_if_present,
    bind, get, put, ret. simpl.
  destruct (bool_decide (is_Some (track._transitions t !! i))); simpl; [|exact Hv].
  intros j tr'. simpl. rewrite lookup_delete_Some. intros [_ Hj]. eapply Hv, Hj.
Qed.

Lemma add_clip_valid (t : track.Track) (c : clips.Clip) (index : option Z) :
  transitions_valid t ->
  transitions_valid (snd (track.add_clip c index t)).
Proof.
  intros Hv. destruct (add_clip_cases t c index) as [->|[e ->]]; [|exact Hv].
  intros j tr' Hj. simpl in *. specialize (Hv j tr' Hj).
  destruct index as [i|].
  - rewrite len_insert. lia.
  - unfold pylist.len in *. rewrite length_app. simpl. lia.
Qed.

(** C6 (where the code departs from the claim): [remove_clip] deletes
    only the transition keyed by the removed position.  Removing the
    second of two clips leaves the transition after the first clip in
    place, keyed by what is now the last clip of the track. *)
Theorem remove_clip_keeps_transition_on_last_clip :
  let t := snd (track.remove_clip (track.AsIndex 1) track_with_transition) in
  transitions_valid track_with_transition
  /\ fst (track.remove_clip (track.AsIndex 1) track_with_transition) = Ok tt
  /\ track._clips t = [video_clip 1 "video1.mp4" 0]
  /\ track._transitions t !! 0 = Some crossfade
  /\ ~ transitions_valid t.
Proof.
  split; [|split; [|split; [|split]]].
  - apply add_transition_valid, add_clip_valid, add_clip_valid.
    intros i tr H. simpl in H. rewrite lookup_empty in H. discriminate.
  - reflexivity.
  - reflexivity.
  - reflexivity.
  - intros Hv. specialize (Hv 0 crossfade eq_refl). simpl in Hv.
    vm_compute in Hv. destruct Hv as [_ Hv]. discriminate.
Qed.

(** The same after removing a clip before the transition's position:
    the key is not shifted.  Of three clips with a transition after the
    second, the first is removed. *)
Example remove_clip_before_transition :
  let t0 :=
    snd (track.add_transition 1 crossfade
           (snd (track.add_clip (video_clip 3 "video3.mp4" 10) None
                   (snd (track.add_clip (video_clip 2 "video2.mp4" 5) None
                           (snd (track.add_clip (video_clip 1 "video1.mp4" 0) None
                                   (track.new track.VIDEO None true)))))))) in
  let t := snd (track.remove_clip (track.AsClip (video_clip 1 "video1.mp4" 0)) t0) in
  track._clips t = [video_clip 2 "video2.mp4" 5; video_clip 3 "video3.mp4" 10]
  /\ track._transitions t !! 1 = Some crossfade.
Proof. split; reflexivity. Qed.

(** ** The job table of the render queue *)

Section QueueTable.
Import render_queue.
Context (now : nat -> Q) (uuid4 : nat -> string).

(** What [add_job] does when a renderer is available. *)
Lemma add_job_spec tl out (r : option Renderer) opts job_id md (st : State)
      (rd : Renderer) :
  match r with None => default_renderer (queue st) | Some r' => Some r' end
  = Some rd ->
  let k := match job_id with
           | Some i => i
           | None => uuid4 (uuid_draws st)
           end in
  let job :=
    {| oid := next_oid st;
       id := k; timeline := tl; output_path := out; renderer := rd;
       options := opts; status := PENDING;
       created_at := now (clock_reads st); started_at := None;
       completed_at := None; error_message := None; progress := 0;
       metadata := default [] md |} in
  add_job now uuid4 tl out r opts job_id md st
  = (Ok k,
     {| queue := set_table (<[k := job]> (_jobs (queue st)))
                           (_job_order (queue st) ++ [k]) (queue st);
        next_oid := S (next_oid st);
        clock_reads := S (clock_reads st);
        uuid_draws := match job_id with
                      | Some _ => uuid_draws st
                      | None => S (uuid_draws st)
                      end;
        render_calls := render_calls st |}).
Proof.
  intros Hr. unfold add_job, bind, get_queue, get, ret. simpl.
  rewrite Hr. destruct job_id; reflexivity.
Qed.

Lemma add_job_no_renderer tl out opts job_id md (st : State) :
  default_renderer (queue st) = None ->
  add_job now uuid4 tl out None opts job_id md st
  = (Raise (ValueError "No renderer provided and no default renderer set"), st).
Proof.
  intros Hr. unfold add_job, bind, get_queue, get, ret. simpl.
  rewrite Hr. reflexivity.
Qed.

Lemma remove_first (l : list string) (k : string) :
  In k l ->
  exists l1 l2, l = l1 ++ k :: l2 /\ ~ In k l1
                /\ pylist.remove String.eqb l k = Ok (l1 ++ l2).
Proof.
  induction l as [|y l IH]; [intros []|]. intros Hin. simpl.
  destruct (String.eqb_spec y k) as [->|Hne].
  - exists [], l. simpl. auto.
  - destruct Hin as [->|Hin]; [congruence|].
    destruct (IH Hin) as (l1 & l2 & -> & Hnot & ->).
    exists (y :: l1), l2. simpl. repeat split; auto. intros [?|?]; auto.
Qed.

(** What [remove_job] does.  A running job is marked Cancelled before
    it leaves the table. *)
Lemma remove_job_spec (k : string) (st : State) :
  remove_job k st =
    match _jobs (queue st) !! k with
    | None => (Ok false, st)
    | Some job =>
        let jobs :=
          if JobStatus_eqb (status job) RUNNING then
            (fun j => if Nat.eqb (oid j) (oid job)
                      then set_status CANCELLED job else j)
              <$> _jobs (queue st)
          else _jobs (queue st) in
        (Ok true,
         {| queue :=
              set_table (delete k jobs)
                (if bool_decide (k ∈ _job_order (queue st)) then
                   match pylist.remove String.eqb (_job_order (queue st)) k with
                   | Ok l => l
                   | Raise _ => _job_order (queue st)
                   end
                 else _job_order (queue st))
                (queue st);
            next_oid := next_oid st;
            clock_reads := clock_reads st;
            uuid_draws := uuid_draws st;
            render_calls := render_calls st |})
    end.
Proof.
  unfold remove_job, bind, get_queue, get, ret. simpl.
  destruct (_jobs (queue st) !! k) as [job|] eqn:Hk; [|reflexivity].
  destruct (JobStatus_eqb (status job) RUNNING); simpl;
    unfold store_job, modify_queue, modify, lift; simpl;
    (destruct (bool_decide (k ∈ _job_order (queue st))) eqn:Hin; simpl;
     [|reflexivity]);
    apply bool_decide_eq_true in Hin; apply list_elem_of_In in Hin;
    destruct (remove_first _ _ Hin) as (l1 & l2 & _ & _ & ->); reflexivity.
Qed.

(** Adding under an id that is not in use keeps the table consistent. *)
Lemma add_job_consistent tl out r opts job_id md (st : State) :
  consistent (queue st) ->
  _jobs (queue st) !! match job_id with
                      | Some i => i
                      | None => uuid4 (uuid_draws st)
                      end = None ->
  consistent (queue (snd (add_job now uuid4 tl out r opts job_id md st))).
Proof.
  intros [Hnd Hkeys] Hfresh.
  destruct (match r with None => default_renderer (queue st) | Some r' => Some r' end)
    as [rd|] eqn:Hr.
  - rewrite (add_job_spec _ _ _ _ _ _ _ rd Hr). simpl. split.
    + apply NoDup_app. repeat split; [exact Hnd| |apply NoDup_singleton].
      intros x Hx Hx'. apply list_elem_of_In in Hx.
      apply list_elem_of_singleton in Hx'. subst x.
      apply Hkeys in Hx. rewrite Hfresh in Hx. by destruct Hx.
    + intros k. cbn [_job_order _jobs set_table queue].
      rewrite in_app_iff. simpl. rewrite lookup_insert_is_Some.
      rewrite Hkeys. split.
      * intros [H|[<-|[]]]; [|by left].
        destruct (decide (match job_id with Some i => i | None => uuid4 (uuid_draws st) end = k));
          [by left | by right].
      * intros [<-|[_ H]]; [right; left; reflexivity | by left].
  - destruct r; [discriminate|]. rewrite add_job_no_renderer by exact Hr.
    split; assumption.
Qed.

(** Removing a job keeps the table consistent. *)
Lemma remove_job_consistent (k : string) (st : State) :
  consistent (queue st) ->
  consistent (queue (snd (remove_job k st))).
Proof.
  intros [Hnd Hkeys]. rewrite remove_job_spec.
  destruct (_jobs (queue st) !! k) as [job|] eqn:Hk; [|split; assumption].
  assert (Hin : In k (_job_order (queue st))) by (apply Hkeys; eauto).
  simpl. rewrite bool_decide_eq_true_2 by (by apply list_elem_of_In).
  destruct (remove_first _ _ Hin) as (l1 & l2 & Hl & Hnot1 & ->).
  rewrite Hl in Hnd. apply NoDup_app in Hnd as (Hnd1 & Hdisj & Hnd2).
  apply NoDup_cons in Hnd2 as [Hnot2 Hnd2].
  split; simpl.
  - apply NoDup_app. repeat split; auto.
    intros x Hx Hx'. apply (Hdisj x Hx). by right.
  - intros i. rewrite lookup_delete_is_Some.
    assert (Hsome : is_Some ((if JobStatus_eqb (status job) RUNNING
                              then (fun j => if Nat.eqb (oid j) (oid job)
                                             then set_status CANCELLED job
                                             else j)
                                     <$> _jobs (queue st)
                              else _jobs (queue st)) !! i)
                    <-> is_Some (_jobs (queue st) !! i)).
    { destruct (JobStatus_eqb (status job) RUNNING); [|reflexivity].
      rewrite lookup_fmap. apply fmap_is_Some. }
    rewrite Hsome, <- Hkeys, Hl, !in_app_iff. simpl.
    split.
    + intros [H|H].
      * split; [|tauto]. intros <-. tauto.
      * split; [|tauto]. intros <-. apply Hnot2. by apply list_elem_of_In.
    + intros [Hne [H|[H|H]]]; [tauto|congruence|tauto].
Qed.

End QueueTable.

Section QueueOpsFacts.
Import render_queue.
Context (now : nat -> Q) (uuid4 : nat -> string).

(** Away from id collisions the invariant of the job table holds
    along every sequence of submissions and removals. *)
Lemma table_consistent_without_collision (ops : list QueueOp) (st : State) :
  consistent (queue st) ->
  ids_unused now uuid4 ops st ->
  consistent (queue (fold_left (fun s op => apply_op now uuid4 op s) ops st)).
Proof.
  revert st. induction ops as [|op ops IH]; intros st Hc Hu; [exact Hc|].
  destruct Hu as [Hop Hrest]. simpl. apply IH; [|exact Hrest].
  destruct op as [tl out r opts job_id md|k]; simpl.
  - apply add_job_consistent; assumption.
  - apply remove_job_consistent; assumption.
Qed.

End QueueOpsFacts.

(** C3 (where the code departs from the claim): [add_job] under an id
    that is already in the table overwrites the map entry and appends
    the id to the order list a second time; [remove_job] then deletes
    the map entry and one of the two occurrences, and the order list
    keeps an id that is no key of the map. *)
Theorem add_job_existing_id_breaks_table :
  let st0 := render_queue.initial (render_queue.new (Some stub_renderer) None) in
  let st1 := snd (submit (Some "a") st0) in
  let st2 := snd (submit (Some "a") st1) in
  let st3 := snd (render_queue.remove_job "a" st2) in
  consistent (render_queue.queue st1)
  /\ fst (submit (Some "a") st1) = Ok "a"
  /\ render_queue._job_order (render_queue.queue st2) = ["a"; "a"]
  /\ size (render_queue._jobs (render_queue.queue st2)) = 1%nat
  /\ ~ consistent (render_queue.queue st2)
  /\ fst (render_queue.remove_job "a" st2) = Ok true
  /\ render_queue._job_order (render_queue.queue st3) = ["a"]
  /\ render_queue._jobs (render_queue.queue st3) !! "a" = None
  /\ ~ consistent (render_queue.queue st3).
Proof.
  cbv zeta. repeat split.
  - simpl. apply NoDup_singleton.
  - simpl. intros [<-|[]]. vm_compute. eauto.
  - intros [x Hx]. destruct (decide (k = "a")) as [->|Hne]; [left; reflexivity|].
    exfalso. simpl in Hx. rewrite lookup_insert_ne, lookup_empty in Hx by done.
    discriminate.
  - intros [Hnd _]. simpl in Hnd. apply NoDup_cons in Hnd as [Hnot _].
    apply Hnot. left.
  - intros [_ Hkeys]. destruct (proj1 (Hkeys "a")) as [x Hx]; [left; reflexivity|].
    vm_compute in Hx. discriminate.
Qed.

(** ** Queue statistics *)

Section Stats.
Import render_queue.

Lemma table_values (q : RenderQueue) (j : RenderJob) :
  In j (map_to_list (_jobs q)).*2 <-> exists k, _jobs q !! k = Some j.
Proof.
  rewrite <- list_elem_of_In, list_elem_of_fmap. split.
  - intros ([k j'] & -> & Hkj). exists k. by apply elem_of_map_to_list.
  - intros (k & Hk). exists (k, j). split; [reflexivity|].
    by apply elem_of_map_to_list.
Qed.

Lemma filter_nil_iff {A} (p : A -> bool) (l : list A) :
  List.filter p l = [] <-> forall x, In x l -> p x = false.
Proof.
  induction l as [|y l IH]; simpl.
  - split; [intros _ x []|reflexivity].
  - destruct (p y) eqn:Hy; split.
    + discriminate.
    + intros H. specialize (H y (or_introl eq_refl)). congruence.
    + intros H x [<-|Hx]; [exact Hy|]. by apply IH.
    + intros H. apply IH. intros x Hx. apply H. by right.
Qed.

(** [avg_duration] is [None] exactly when no Completed job has a
    duration that is true as a Python value. *)
Lemma avg_duration_None_iff (q : RenderQueue) :
  avg_duration (get_stats q) = None <->
  forall k j, _jobs q !! k = Some j -> status j = COMPLETED ->
              truthy_float (duration j) = false.
Proof.
  unfold get_stats. cbn [avg_duration].
  set (p := fun j => JobStatus_eqb (status j) COMPLETED && truthy_float (duration j)).
  split.
  - intros Havg k j Hk Hs.
    destruct (List.filter p (map_to_list (_jobs q)).*2) eqn:Hf; [|discriminate].
    pose proof (proj1 (filter_nil_iff p _) Hf j) as Hp.
    unfold p in Hp. rewrite Hs in Hp. simpl in Hp.
    apply Hp, table_values. eauto.
  - intros H.
    assert (Hf : List.filter p (map_to_list (_jobs q)).*2 = []).
    { apply filter_nil_iff. intros j Hj. apply table_values in Hj as [k Hk].
      unfold p. destruct (status j) eqn:Hs; try reflexivity.
      simpl. eapply H; eauto. }
    rewrite Hf. reflexivity.
Qed.

(** C7 (where the code departs from the claim): the filter
    [j.status == COMPLETED and j.duration] drops a Completed job
    whose duration is 0.0, so such a job does not count toward the
    average, and [avg_duration] is [None] although Completed jobs
    exist when each of them took zero seconds. *)
Theorem get_stats_ignores_zero_durations (q : RenderQueue) :
  (forall k j, _jobs q !! k = Some j -> status j = COMPLETED ->
               exists t, started_at j = Some t /\ completed_at j = Some t) ->
  avg_duration (get_stats q) = None.
Proof.
  intros H. apply avg_duration_None_iff. intros k j Hk Hs.
  destruct (H k j Hk Hs) as (t & Hst & Hct).
  unfold duration. rewrite Hst, Hct. simpl.
  apply negb_false_iff, Qeq_bool_iff. ring.
Qed.

(** When every Completed job has a non-zero duration, [avg_duration]
    is the mean of the durations of the Completed jobs. *)
Lemma avg_duration_mean (q : RenderQueue) :
  (forall k j, _jobs q !! k = Some j -> status j = COMPLETED ->
               truthy_float (duration j) = true) ->
  let done :=
    List.filter (fun j => JobStatus_eqb (status j) COMPLETED)
                (map_to_list (_jobs q)).*2 in
  completed (get_stats q) = length done
  /\ avg_duration (get_stats q) =
       match done with
       | [] => None
       | _ => Some (fold_left Qplus
                      (map (fun j => default 0%Q (duration j)) done) 0
                    / inject_Z (Z.of_nat (length done)))%Q
       end.
Proof.
  intros H done. split; [reflexivity|].
  unfold get_stats. cbn [avg_duration].
  assert (Hf : List.filter (fun j => JobStatus_eqb (status j) COMPLETED
                                     && truthy_float (duration j))
                           (map_to_list (_jobs q)).*2 = done).
  { unfold done. apply filter_ext_in. intros j Hj.
    apply table_values in Hj as [k Hk].
    destruct (status j) eqn:Hs; try reflexivity.
    simpl. eapply H; eauto. }
  rewrite Hf. reflexivity.
Qed.

End Stats.

Lemma get_stats_ignores_zero_durations_witness :
  render_queue.completed (render_queue.get_stats queue_after_instant_render) = 1%nat
  /\ (exists j, render_queue._jobs queue_after_instant_render !! "job-0" = Some j
                /\ render_queue.status j = render_queue.COMPLETED
                /\ render_queue.duration j = Some (100 - 100)%Q)
  /\ render_queue.avg_duration (render_queue.get_stats queue_after_instant_render)
     = None.
Proof.
  split; [vm_compute; reflexivity|]. split.
  - eexists. split; [vm_compute; reflexivity|]. split; reflexivity.
  - apply (get_stats_ignores_zero_durations queue_after_instant_render).
    intros k j Hk _. apply elem_of_map_to_list in Hk.
    remember (map_to_list (render_queue._jobs queue_after_instant_render))
      as l eqn:Hl.
    vm_compute in Hl. subst l.
    apply list_elem_of_singleton in Hk. injection Hk as _ ->.
    exists 100%Q. split; reflexivity.
Defined.

(** ** Sequential processing *)

Section Sequential.
Import render_queue.
Context (now : nat -> Q).
Context (render_code : Renderer -> timeline.Timeline track.Track -> string
                       -> option RenderOptions -> External).
Context (callback_code : Callback -> External).

(** Two assignments to one object show as the second. *)
Lemma stored_twice (j1 j2 : RenderJob) (st : State) :
  oid j1 = oid j2 ->
  stored j2 (stored j1 st) = stored j2 st.
Proof.
  intros Ho. unfold stored, store_job, modify_queue, modify. simpl.
  f_equal. unfold set_table. simpl. f_equal.
  rewrite <- map_fmap_compose. apply map_fmap_ext. intros k j _. simpl.
  destruct (Nat.eqb_spec (oid j) (oid j1)) as [He|Hne].
  - rewrite <- Ho, Nat.eqb_refl. rewrite He, Ho, Nat.eqb_refl. reflexivity.
  - reflexivity.
Qed.

(** With distinct objects in the table, an assignment to the object
    under [k] changes the entry of [k] and no other. *)
Lemma stored_insert (k : string) (j jf : RenderJob) (st : State) :
  distinct_objects (queue st) ->
  _jobs (queue st) !! k = Some j ->
  oid jf = oid j ->
  queue (stored jf st)
  = set_table (<[k := jf]> (_jobs (queue st))) (_job_order (queue st)) (queue st).
Proof.
  intros Hd Hk Ho. unfold stored, store_job, modify_queue, modify. simpl.
  f_equal. apply map_eq. intros k'. rewrite lookup_fmap.
  destruct (decide (k = k')) as [<-|Hne].
  - rewrite Hk, lookup_insert_eq. simpl. by rewrite Ho, Nat.eqb_refl.
  - rewrite lookup_insert_ne by exact Hne.
    destruct (_jobs (queue st) !! k') as [j'|] eqn:Hk'; [|reflexivity].
    simpl. destruct (Nat.eqb_spec (oid j') (oid jf)) as [He|_]; [|reflexivity].
    exfalso. apply Hne. apply (Hd k k' j j' Hk Hk'). congruence.
Qed.

Lemma call_callback_quiet (x : RenderJob * State) :
  callback_quiet callback_code (queue (snd x)) ->
  call_callback callback_code x = Some (Ok tt, x).
Proof.
  unfold callback_quiet, call_callback.
  destruct (progress_callback (queue (snd x))) as [cb|]; [|reflexivity].
  intros H. apply H.
Qed.

Lemma job_after_oid j r t0 t1 : oid (job_after j r t0 t1) = oid j.
Proof. by destruct r. Qed.

(** The steps of the monad of [_process_job]. *)
Lemma pbind_assign {B} (f : RenderJob -> RenderJob) (k : unit -> P B)
      (x : RenderJob * State) :
  pbind (assign f) k x = k tt (f (fst x), stored (f (fst x)) (snd x)).
Proof. reflexivity. Qed.

Lemma pbind_clock {B} (k : Q -> P B) (x : RenderJob * State) :
  pbind (on_queue (datetime_now now)) k x
  = k (now (clock_reads (snd x))) (fst x, tick (snd x)).
Proof. reflexivity. Qed.

Lemma pbind_callback {B} (k : unit -> P B) (x : RenderJob * State) :
  callback_quiet callback_code (queue (snd x)) ->
  pbind (call_callback callback_code) k x = k tt x.
Proof. intros H. unfold pbind. by rewrite call_callback_quiet. Qed.

Lemma pbind_render {B} (k : unit -> P B) (x : RenderJob * State) :
  pbind (call_render render_code) k x
  = pbind (render_code (renderer (fst x)) (timeline (fst x))
                       (output_path (fst x)) (options (fst x)))
          k (fst x, logged (id (fst x)) (snd x)).
Proof. reflexivity. Qed.

(** [_process_job] with code outside the queue that keeps quiet: no
    exception leaves the routine. *)
Lemma process_job_spec (j : RenderJob) (st : State) :
  callback_quiet callback_code (queue st) ->
  ends_quietly (render_code (renderer j) (timeline j) (output_path j)
                            (options j)) ->
  _process_job now render_code callback_code j st
  = Some (Ok tt, processed now render_code j st).
Proof.
  intros Hcb Hrender.
  destruct (Hrender (at_render now j st)) as (r & Hr & Hexn).
  assert (Hres : result_of (render_code (renderer j) (timeline j)
                                        (output_path j) (options j))
                           (at_render now j st) = r)
    by (unfold result_of; by rewrite Hr).
  unfold processed. rewrite Hres. clear Hres.
  set (t0 := now (clock_reads st)) in *.
  set (t1 := now (S (clock_reads st))).
  set (j1 := set_status RUNNING j).
  set (j2 := set_started_at (Some t0) j1).
  assert (Hat : (j2, logged (id j) (stored j2 (tick (stored j1 st))))
                = at_render now j st).
  { unfold at_render. fold t0 j1 j2. do 2 f_equal.
    change (tick (stored j1 st)) with (stored j1 (tick st)).
    by apply stored_twice. }
  unfold _process_job, process, ptry_except.
  rewrite pbind_assign, pbind_clock, pbind_assign. cbn [fst snd].
  rewrite pbind_callback by exact Hcb.
  rewrite pbind_render. cbn [fst snd].
  change (now (clock_reads (stored (set_status RUNNING j) st))) with t0.
  fold j1. fold j2.
  change (id j2) with (id j). rewrite Hat.
  change (renderer j2) with (renderer j). change (timeline j2) with (timeline j).
  change (output_path j2) with (output_path j).
  change (options j2) with (options j).
  unfold pbind at 1. rewrite Hr.
  destruct r as [[]|e].
  - rewrite pbind_assign, pbind_clock, pbind_assign, pbind_assign. cbn [fst snd].
    rewrite call_callback_quiet by exact Hcb. cbn [snd].
    do 2 f_equal. unfold at_render. cbn [fst snd]. fold t0 j1 j2.
    change (now _) with t1.
    set (j3 := set_status COMPLETED j2).
    set (j4 := set_completed_at (Some t1) j3).
    set (j5 := set_progress 100 j4).
    change (job_after j (Ok tt) t0 t1) with j5.
    change (stored j5 (stored j4 (tick (stored j3
              (logged (id j) (stored j2 (tick st)))))))
      with (stored j5 (stored j4 (stored j3 (stored j2
              (tick (tick (logged (id j) st))))))).
    rewrite (stored_twice j4 j5) by reflexivity.
    rewrite (stored_twice j3 j5) by reflexivity.
    by rewrite (stored_twice j2 j5) by reflexivity.
  - rewrite Hexn. unfold _handle_job_error, on_job_failed.
    rewrite pbind_assign, pbind_clock, pbind_assign, pbind_assign, pbind_assign.
    cbn [fst snd].
    rewrite call_callback_quiet by exact Hcb. cbn [snd].
    do 2 f_equal. unfold at_render. cbn [fst snd]. fold t0 j1 j2.
    change (now _) with t1.
    set (j3 := set_status FAILED j2).
    set (j4 := set_completed_at (Some t1) j3).
    set (j5 := set_error_message (Some (str_exn e)) j4).
    set (j6 := set_error_message (Some (str_exn e)) j5).
    change (job_after j (Raise e) t0 t1) with j6.
    change (stored j6 (stored j5 (stored j4 (tick (stored j3
              (logged (id j) (stored j2 (tick st))))))))
      with (stored j6 (stored j5 (stored j4 (stored j3 (stored j2
              (tick (tick (logged (id j) st)))))))).
    rewrite (stored_twice j5 j6) by reflexivity.
    rewrite (stored_twice j4 j6) by reflexivity.
    rewrite (stored_twice j3 j6) by reflexivity.
    by rewrite (stored_twice j2 j6) by reflexivity.
Qed.

End Sequential.

Section SequentialRun.
Import render_queue.
Context (now : nat -> Q).
Context (render_code : Renderer -> timeline.Timeline track.Track -> string
                       -> option RenderOptions -> External).
Context (callback_code : Callback -> External).

(** [_get_next_pending_job] returns the job of the first pending
    entry. *)
Lemma next_pending_first jobs order :
  next_pending jobs order = first_pending jobs order ≫= (fun k => jobs !! k).
Proof.
  induction order as [|x rest IH]; [reflexivity|]. simpl. unfold pending_b.
  destruct (jobs !! x) as [j|] eqn:Hx; [|exact IH].
  destruct (JobStatus_eqb (status j) PENDING); [|exact IH].
  simpl. by rewrite Hx.
Qed.

Lemma first_pending_Some jobs order k :
  first_pending jobs order = Some k ->
  In k order /\ exists j, jobs !! k = Some j /\ status j = PENDING.
Proof.
  induction order as [|x rest IH]; simpl; [discriminate|].
  destruct (pending_b jobs x) eqn:Hp.
  - intros [= <-]. split; [by left|]. unfold pending_b in Hp.
    destruct (jobs !! x) as [j|]; [|discriminate]. exists j.
    split; [reflexivity|]. by destruct (status j).
  - intros H. destruct (IH H) as [? ?]. split; [by right|assumption].
Qed.

Lemma first_pending_None jobs order :
  first_pending jobs order = None ->
  forall k, In k order -> pending_b jobs k = false.
Proof.
  induction order as [|x rest IH]; simpl; [intros _ k []|].
  destruct (pending_b jobs x) eqn:Hp; [discriminate|].
  intros H k [<-|Hk]; [exact Hp|by apply IH].
Qed.

Lemma pending_b_insert jobs k jf y :
  pending_b (<[k := jf]> jobs) y =
    if decide (k = y) then JobStatus_eqb (status jf) PENDING
    else pending_b jobs y.
Proof.
  unfold pending_b. destruct (decide (k = y)) as [<-|Hne].
  - by rewrite lookup_insert_eq.
  - by rewrite lookup_insert_ne.
Qed.

(** Processing the next pending job shortens the list of the pending
    entries of the order list. *)
Lemma pending_decreases jobs order k jf :
  first_pending jobs order = Some k ->
  JobStatus_eqb (status jf) PENDING = false ->
  (length (List.filter (pending_b (<[k := jf]> jobs)) order)
   < length (List.filter (pending_b jobs) order))%nat.
Proof.
  intros Hnext Hjf.
  assert (Hle : forall l,
             (length (List.filter (pending_b (<[k := jf]> jobs)) l)
              <= length (List.filter (pending_b jobs) l))%nat).
  { induction l as [|y l IHl]; simpl; [lia|].
    rewrite pending_b_insert. destruct (decide (k = y)) as [<-|Hne].
    - rewrite Hjf. destruct (pending_b jobs k); simpl; lia.
    - destruct (pending_b jobs y); simpl; lia. }
  revert Hnext. induction order as [|x rest IH]; [discriminate|].
  cbn [first_pending List.filter]. rewrite pending_b_insert.
  destruct (pending_b jobs x) eqn:Hpx.
  - intros [= <-]. rewrite decide_True by reflexivity. rewrite Hjf.
    simpl. specialize (Hle rest). lia.
  - intros H. specialize (IH H).
    destruct (decide (k = x)); [rewrite Hjf|]; simpl; lia.
Qed.

(** Without duplicates in the order list, the pending entries are
    the next pending job followed by those that remain. *)
Lemma pending_unfold jobs order k jf :
  NoDup order ->
  first_pending jobs order = Some k ->
  JobStatus_eqb (status jf) PENDING = false ->
  List.filter (pending_b jobs) order
  = k :: List.filter (pending_b (<[k := jf]> jobs)) order.
Proof.
  intros Hnd Hnext Hjf. revert Hnext.
  induction Hnd as [|x rest Hx Hnd IH]; [discriminate|].
  cbn [first_pending List.filter]. rewrite pending_b_insert.
  destruct (pending_b jobs x) eqn:Hpx.
  - intros [= <-]. rewrite decide_True by reflexivity. rewrite Hjf.
    f_equal. apply filter_ext_in. intros y Hy.
    rewrite pending_b_insert, decide_False; [reflexivity|].
    intros ->. apply Hx. by apply list_elem_of_In.
  - intros H. specialize (IH H).
    destruct (decide (k = x)) as [->|Hne].
    + apply first_pending_Some in H as [Hin _].
      exfalso. apply Hx. by apply list_elem_of_In.
    + exact IH.
Qed.

Lemma job_after_not_pending j r t0 t1 :
  JobStatus_eqb (status (job_after j r t0 t1)) PENDING = false.
Proof. destruct r; reflexivity. Qed.

(** The ids logged for the pending entries do not depend on the
    entry that was processed. *)
Lemma logged_ids_insert (jobs : gmap string RenderJob) k jf (l : list string) :
  ~ In k l ->
  omap (fun k' => id <$> <[k := jf]> jobs !! k') l
  = omap (fun k' => id <$> jobs !! k') l.
Proof.
  induction l as [|x l IH]; intros Hk; [reflexivity|]. csimpl.
  rewrite lookup_insert_ne by (intros ->; apply Hk; by left).
  rewrite IH by (intros H; apply Hk; by right). reflexivity.
Qed.

Lemma run_sequential_spec (fuel : nat) (st : State) :
  callback_quiet callback_code (queue st) ->
  renderers_quiet render_code (queue st) ->
  distinct_objects (queue st) ->
  _cancelled (queue st) = false ->
  (length (List.filter (pending_b (_jobs (queue st))) (_job_order (queue st)))
   < fuel)%nat ->
  exists st', _run_sequential now render_code callback_code fuel st
              = Done (Ok tt, st')
              /\ run_post now render_code st st'.
Proof.
  revert st. induction fuel as [|fuel IH];
    intros st Hcb Hrd Hdist Hrun Hfuel; [lia|].
  simpl. rewrite Hrun. unfold _get_next_pending_job.
  rewrite next_pending_first.
  destruct (first_pending (_jobs (queue st)) (_job_order (queue st)))
    as [k0|] eqn:Hnext.
  - destruct (first_pending_Some _ _ _ Hnext) as (Hin0 & j0 & Hj0 & Hs0).
    simpl. rewrite Hj0.
    rewrite (process_job_spec now render_code callback_code j0 st Hcb
               (Hrd k0 j0 Hj0)).
    destruct (Hrd k0 j0 Hj0 (at_render now j0 st)) as (r & Hr & _).
    set (jf := job_after j0 r (now (clock_reads st)) (now (S (clock_reads st)))).
    assert (Hjf : JobStatus_eqb (status jf) PENDING = false)
      by apply job_after_not_pending.
    assert (Hq : queue (processed now render_code j0 st)
                 = set_table (<[k0 := jf]> (_jobs (queue st)))
                             (_job_order (queue st)) (queue st)).
    { unfold processed, result_of. rewrite Hr. fold jf.
      exact (stored_insert k0 j0 jf (tick (tick (logged (id j0) st)))
               Hdist Hj0 (job_after_oid _ _ _ _)). }
    destruct (IH (processed now render_code j0 st)) as (st' & Hrun' & Hpost).
    + unfold callback_quiet. rewrite Hq. exact Hcb.
    + intros k j. rewrite Hq. cbn [_jobs set_table].
      rewrite lookup_insert_Some. intros [[<- <-]|[_ Hk]]; [|by eapply Hrd].
      unfold jf. destruct r; apply (Hrd k0 j0 Hj0).
    + intros k1 k2 j1 j2. rewrite Hq. cbn [_jobs set_table].
      rewrite !lookup_insert_Some.
      intros [[<- <-]|[Hne1 Hk1]] [[<- <-]|[Hne2 Hk2]] Ho; try reflexivity.
      * apply (Hdist k0 k2 j0 j2 Hj0 Hk2).
        by rewrite <- Ho; unfold jf; rewrite job_after_oid.
      * apply (Hdist k1 k0 j1 j0 Hk1 Hj0).
        by rewrite Ho; unfold jf; rewrite job_after_oid.
      * by apply (Hdist k1 k2 j1 j2).
    + rewrite Hq. exact Hrun.
    + rewrite Hq. cbn [_jobs _job_order set_table].
      pose proof (pending_decreases _ _ _ jf Hnext Hjf). lia.
    + exists st'. split; [exact Hrun'|].
      destruct Hpost as (Hq' & Hu & Ho & (l & Hl & Hnd) & Hnone & Hjobs).
      rewrite Hq in Hq', Hnd, Hnone, Hjobs.
      cbn [_jobs _job_order set_table] in Hq', Hnd, Hnone, Hjobs.
      split; [|split; [|split; [|split; [|split]]]].
      * rewrite Hq' at 1. by destruct (queue st).
      * exact Hu.
      * exact Ho.
      * exists (id j0 :: l). split.
        { rewrite Hl. unfold processed, stored, tick, logged. simpl.
          by rewrite <- app_assoc. }
        intros Hnodup. rewrite (Hnd Hnodup).
        rewrite (pending_unfold _ _ _ jf Hnodup Hnext Hjf). csimpl.
        rewrite Hj0. simpl. f_equal. apply logged_ids_insert.
        rewrite filter_In, pending_b_insert, decide_True by reflexivity.
        rewrite Hjf. intros [_ ?]. discriminate.
      * intros k Hk. apply Hnone. rewrite lookup_insert_ne; [exact Hk|].
        intros <-. congruence.
      * intros k j Hk. destruct (decide (k0 = k)) as [<-|Hne].
        -- assert (j = j0) as -> by congruence.
           destruct (Hjobs k0 jf (lookup_insert_eq _ _ _)) as [_ Hkeep].
           split.
           ++ intros _ _. exists st, r, [].
              split; [by rewrite app_nil_r|]. split; [exact Hr|].
              apply Hkeep. intros [_ Hp].
              pose proof Hjf as Hjf'. rewrite Hp in Hjf'. discriminate.
           ++ intros Hnot. exfalso. apply Hnot. auto.
        -- destruct (Hjobs k j) as [Hproc Hkeep];
             [by rewrite lookup_insert_ne|].
           split; [|exact Hkeep].
           intros Hin Hs. destruct (Hproc Hin Hs) as (st_k & r' & h & Hh & Hc & Hj).
           exists st_k, r', (id j0 :: h). split; [|split; assumption].
           rewrite Hh. unfold processed, stored, tick, logged. simpl.
           by rewrite <- app_assoc.
  - exists st. split; [reflexivity|].
    split; [|split; [|split; [|split; [|split]]]].
    + by destruct st as [[] ? ? ? ?].
    + reflexivity.
    + reflexivity.
    + exists []. split; [by rewrite app_nil_r|]. intros _.
      assert (Hf : List.filter (pending_b (_jobs (queue st)))
                               (_job_order (queue st)) = []).
      { apply filter_nil_iff. by apply first_pending_None. }
      by rewrite Hf.
    + auto.
    + intros k j Hk. split; [|auto].
      intros Hin Hs. pose proof (first_pending_None _ _ Hnext k Hin) as Hp.
      unfold pending_b in Hp. rewrite Hk, Hs in Hp. discriminate.
Qed.

End SequentialRun.

(** ** Failure isolation *)

Section Isolation.
Import render_queue.
Context (now : nat -> Q).
Context (render_code : Renderer -> timeline.Timeline track.Track -> string
                       -> option RenderOptions -> External).
Context (callback_code : Callback -> External).

Lemma pending_filter_length (q : RenderQueue) :
  (length (List.filter (pending_b (_jobs q)) (_job_order q))
   <= length (_job_order q))%nat.
Proof. induction (_job_order q) as [|x l IH]; simpl; [lia|].
       destruct (pending_b (_jobs q) x); simpl; lia. Qed.


End Isolation.

(** The renderers of the examples keep quiet. *)
Lemma example_render_quiet (text : string) (q : render_queue.RenderQueue) :
  renderers_quiet (example_render text) q.
Proof.
  intros k j _ x. unfold example_render.
  destruct (String.eqb _ _); eexists; (split; [reflexivity|]);
    [reflexivity|exact I].
Qed.

(** A criterion for the objects of a table to be distinct. *)
Lemma distinct_objects_by_list (q : render_queue.RenderQueue) :
  NoDup (render_queue.oid <$> (map_to_list (render_queue._jobs q)).*2) ->
  distinct_objects q.
Proof.
  intros Hnd k1 k2 j1 j2 H1 H2 Ho.
  apply elem_of_map_to_list in H1. apply elem_of_map_to_list in H2.
  apply list_elem_of_lookup in H1 as [i1 H1].
  apply list_elem_of_lookup in H2 as [i2 H2].
  assert (Hi : i1 = i2).
  { eapply (NoDup_lookup _ i1 i2 (render_queue.oid j1) Hnd).
    - rewrite !list_lookup_fmap, H1. reflexivity.
    - rewrite !list_lookup_fmap, H2. simpl. by rewrite Ho. }
  subst i2. congruence.
Qed.

(** Every queue built from a new one by [add_job] and [remove_job]
    holds distinct objects. *)
Lemma objects_stay_distinct (now : nat -> Q) (uuid4 : nat -> string)
      (ops : list QueueOp) (st : render_queue.State) :
  objects_known st ->
  objects_known (fold_left (fun s op => apply_op now uuid4 op s) ops st).
Proof.
  revert st. induction ops as [|op ops IH]; intros st Hst; [exact Hst|].
  simpl. apply IH. clear IH. destruct Hst as [Hdist Hold].
  destruct op as [tl out r opts job_id md|k]; simpl.
  - destruct (match r with
              | None => render_queue.default_renderer (render_queue.queue st)
              | Some r' => Some r'
              end) as [rd|] eqn:Hr.
    + rewrite (add_job_spec now uuid4 _ _ _ _ _ _ st rd Hr). simpl. split.
      * intros k1 k2 j1 j2. simpl. rewrite !lookup_insert_Some.
        intros [[<- <-]|[Hne1 Hk1]] [[<- <-]|[Hne2 Hk2]] Ho; try reflexivity.
        -- apply Hold in Hk2. simpl in Ho. lia.
        -- apply Hold in Hk1. simpl in Ho. lia.
        -- by apply (Hdist k1 k2 j1 j2).
      * intros k j. simpl. rewrite lookup_insert_Some.
        intros [[<- <-]|[_ Hk]]; [simpl; lia|]. apply Hold in Hk. lia.
    + destruct r; [discriminate|].
      rewrite add_job_no_renderer by exact Hr. by split.
  - rewrite remove_job_spec.
    destruct (render_queue._jobs (render_queue.queue st) !! k) as [job|] eqn:Hk;
      [|by split].
    assert (Hlook : forall k' j',
               (if render_queue.JobStatus_eqb (render_queue.status job)
                                              render_queue.RUNNING
                then (fun j => if Nat.eqb (render_queue.oid j)
                                          (render_queue.oid job)
                               then render_queue.set_status
                                      render_queue.CANCELLED job
                               else j)
                       <$> render_queue._jobs (render_queue.queue st)
                else render_queue._jobs (render_queue.queue st)) !! k' = Some j' ->
               exists j0, render_queue._jobs (render_queue.queue st) !! k' = Some j0
                          /\ render_queue.oid j' = render_queue.oid j0).
    { intros k' j'.
      destruct (render_queue.JobStatus_eqb _ _); [|by eauto].
      rewrite lookup_fmap.
      destruct (render_queue._jobs (render_queue.queue st) !! k') as [j0|];
        [|discriminate].
      simpl. intros [= <-]. exists j0. split; [reflexivity|].
      destruct (Nat.eqb_spec (render_queue.oid j0) (render_queue.oid job));
        [by simpl|reflexivity]. }
    cbv zeta. unfold objects_known, distinct_objects.
    cbn [snd render_queue.queue render_queue._jobs render_queue.set_table
         render_queue.next_oid].
    split.
    + intros k1 k2 j1 j2. rewrite !lookup_delete_Some.
      intros [_ H1] [_ H2] Ho.
      apply Hlook in H1 as (j1' & H1 & Ho1). apply Hlook in H2 as (j2' & H2 & Ho2).
      apply (Hdist k1 k2 j1' j2' H1 H2). congruence.
    + intros k' j'. rewrite lookup_delete_Some. intros [_ H].
      apply Hlook in H as (j0 & H & Ho). apply Hold in H. lia.
Qed.



(** The provisos on the code outside the queue are needed.  A
    callback that raises is called again by the error handler,
    outside the [try], and its exception leaves [_process_job] and
    the run; the jobs after the first stay Pending. *)
Example raising_callback_escapes :
  exists st',
    render_queue.run ticking_clock (example_render "boom") raising_callback
                     render_queue.SEQUENTIAL 4 three_jobs_with_callback
    = render_queue.Done (Raise (Exception "callback failed"), st')
    /\ status_of st' "job-0" = Some render_queue.FAILED
    /\ status_of st' "job-1" = Some render_queue.PENDING
    /\ status_of st' "job-2" = Some render_queue.PENDING.
Proof. eexists. split; [vm_compute; reflexivity|]. repeat split. Qed.

(** A callback that calls [stop()] returns, and the run ends after
    the job in progress: the other jobs stay Pending. *)
Example stopping_callback_leaves_jobs_pending :
  exists st',
    render_queue.run ticking_clock (example_render "boom") stopping_callback
                     render_queue.SEQUENTIAL 4 three_jobs_with_callback
    = render_queue.Done (Ok tt, st')
    /\ status_of st' "job-0" = Some render_queue.COMPLETED
    /\ status_of st' "job-1" = Some render_queue.PENDING
    /\ status_of st' "job-2" = Some render_queue.PENDING
    /\ render_queue.render_calls st' = ["job-0"].
Proof. eexists. split; [vm_compute; reflexivity|]. repeat split. Qed.

(** [except Exception] does not catch a [KeyboardInterrupt]: it
    leaves [_process_job] and the run, the job in progress stays
    Running, and [run] resets [_running] on its way out. *)
Example keyboard_interrupt_leaves_the_run :
  exists st',
    render_queue.run ticking_clock interrupted_render quiet_callback
                     render_queue.SEQUENTIAL 4 three_jobs
    = render_queue.Done (Raise (KeyboardInterrupt ""), st')
    /\ status_of st' "job-0" = Some render_queue.RUNNING
    /\ status_of st' "job-1" = Some render_queue.PENDING
    /\ render_queue._running (render_queue.queue st') = false.
Proof. eexists. split; [vm_compute; reflexivity|]. repeat split. Qed.

(** A callback that removes the job it is called with: the job is
    rendered all the same, as the object it is, and the table no
    longer shows it. *)
Example removing_callback_detaches_jobs :
  exists st',
    render_queue.run ticking_clock (example_render "boom") removing_callback
                     render_queue.SEQUENTIAL 4 three_jobs_with_callback
    = render_queue.Done (Ok tt, st')
    /\ render_queue.render_calls st' = ["job-0"; "job-1"; "job-2"]
    /\ render_queue._jobs (render_queue.queue st') = ∅
    /\ render_queue._job_order (render_queue.queue st') = [].
Proof.
  eexists. split; [vm_compute; reflexivity|]. split; [reflexivity|].
  split; [|reflexivity]. apply map_eq. intros k. vm_compute.
  by destruct k.
Qed.

(** A render call that does not return: neither does the run. *)
Example hanging_render_hangs_the_run :
  render_queue.run ticking_clock hanging_render quiet_callback
                   render_queue.SEQUENTIAL 4 three_jobs
  = render_queue.NeverReturns.
Proof. reflexivity. Qed.

(** ** Submission order *)

Section SubmissionsFacts.
Import render_queue.
Context (now : nat -> Q) (uuid4 : nat -> string).
Context (render_code : Renderer -> timeline.Timeline track.Track -> string
                       -> option RenderOptions -> External).

Lemma submitted_ids_length subs draws :
  length (submitted_ids uuid4 subs draws) = length subs.
Proof.
  revert draws. induction subs as [|s subs IH]; intros draws; [reflexivity|].
  simpl. destruct (sub_job_id s); simpl; by rewrite IH.
Qed.

(** The table after a sequence of submissions that all find a
    renderer which always succeeds: every job is a new object. *)
Lemma submit_all_spec (subs : list Submission) (st : State) :
  Forall (fun s => exists r, renderer_of (queue st) s = Some r
                             /\ always_succeeds render_code r) subs ->
  distinct_objects (queue st) ->
  (forall k j, _jobs (queue st) !! k = Some j -> (oid j < next_oid st)%nat) ->
  let st1 := submit_all now uuid4 subs st in
  let ids := submitted_ids uuid4 subs (uuid_draws st) in
  queue st1 = set_table (_jobs (queue st1)) (_job_order (queue st) ++ ids) (queue st)
  /\ render_calls st1 = render_calls st
  /\ (forall k, ~ In k ids -> _jobs (queue st1) !! k = _jobs (queue st) !! k)
  /\ (forall k, In k ids ->
        exists j, _jobs (queue st1) !! k = Some j
                  /\ status j = PENDING /\ id j = k
                  /\ always_succeeds render_code (renderer j))
  /\ distinct_objects (queue st1).
Proof.
  revert st. induction subs as [|s subs IH]; intros st Hall Hdist Hold; simpl.
  - split; [|split; [|split; [|split]]].
    + rewrite app_nil_r. by destruct st as [[] ? ? ? ?].
    + reflexivity.
    + reflexivity.
    + intros k [].
    + exact Hdist.
  - inversion Hall as [|? ? (r & Hr & Hok) Hrest]; subst.
    unfold renderer_of in Hr.
    assert (Hone : submit_one now uuid4 st s
                   = snd (add_job now uuid4 (sub_timeline s) (sub_output_path s)
                            (sub_renderer s) (sub_options s) (sub_job_id s)
                            (sub_metadata s) st)) by reflexivity.
    rewrite (add_job_spec now uuid4 _ _ _ _ _ _ st r Hr) in Hone.
    cbn [snd] in Hone. rewrite !Hone. clear Hone.
    set (k0 := match sub_job_id s with
               | Some i => i
               | None => uuid4 (uuid_draws st)
               end).
    match goal with
    | |- context [submit_all now uuid4 subs ?s1] => set (st1 := s1)
    end.
    destruct (IH st1) as (Hq & Hcalls & Hother & Hnew & Hdist1).
    { eapply List.Forall_impl; [|exact Hrest]. intros s' (r' & Hr' & Hok').
      exists r'. split; [unfold renderer_of in *; exact Hr'|exact Hok']. }
    { intros k1 k2 j1 j2. unfold st1. cbn [queue _jobs set_table].
      rewrite !lookup_insert_Some.
      intros [[<- <-]|[Hne1 Hk1]] [[<- <-]|[Hne2 Hk2]] Ho; try reflexivity.
      - apply Hold in Hk2. simpl in Ho. lia.
      - apply Hold in Hk1. simpl in Ho. lia.
      - by apply (Hdist k1 k2 j1 j2). }
    { intros k j. unfold st1. cbn [queue _jobs set_table next_oid].
      rewrite lookup_insert_Some. intros [[<- <-]|[_ Hk]]; [simpl; lia|].
      apply Hold in Hk. lia. }
    assert (Hids : match sub_job_id s with
                   | Some i => i :: submitted_ids uuid4 subs (uuid_draws st)
                   | None => uuid4 (uuid_draws st)
                             :: submitted_ids uuid4 subs (S (uuid_draws st))
                   end = k0 :: submitted_ids uuid4 subs (uuid_draws st1)).
    { unfold k0, st1. simpl. destruct (sub_job_id s); reflexivity. }
    rewrite Hids. split; [|split; [|split; [|split]]].
    + rewrite Hq at 1. unfold st1. simpl. rewrite <- app_assoc. reflexivity.
    + rewrite Hcalls. reflexivity.
    + intros k Hk. simpl in Hk.
      destruct (in_dec String.string_dec k (submitted_ids uuid4 subs (uuid_draws st1))) as [Hin|Hin];
        [tauto|].
      rewrite (Hother k Hin). unfold st1. simpl.
      rewrite lookup_insert_ne; [reflexivity|]. tauto.
    + intros k Hk.
      destruct (in_dec String.string_dec k (submitted_ids uuid4 subs (uuid_draws st1))) as [Hin|Hin].
      * apply Hnew, Hin.
      * destruct Hk as [<-|Hk]; [|tauto].
        rewrite (Hother k0 Hin). unfold st1. simpl. rewrite lookup_insert_eq.
        eexists. split; [reflexivity|]. split; [reflexivity|].
        split; [reflexivity|exact Hok].
    + exact Hdist1.
Qed.

End SubmissionsFacts.

Section SubmissionOrder.
Import render_queue.
Context (now : nat -> Q) (uuid4 : nat -> string).
Context (render_code : Renderer -> timeline.Timeline track.Track -> string
                       -> option RenderOptions -> External).
Context (callback_code : Callback -> External).

Lemma filter_all {A} (p : A -> bool) (l : list A) :
  (forall x, In x l -> p x = true) -> List.filter p l = l.
Proof.
  induction l as [|y l IH]; intros H; [reflexivity|]. simpl.
  rewrite (H y (or_introl eq_refl)). f_equal. apply IH.
  intros x Hx. apply H. by right.
Qed.

(** The log of the render calls of jobs that carry their key as id. *)
Lemma logged_ids (jobs : gmap string RenderJob) (l : list string) :
  (forall k, In k l -> exists j, jobs !! k = Some j /\ id j = k) ->
  omap (fun k => id <$> jobs !! k) l = l.
Proof.
  induction l as [|x l IH]; intros H; [reflexivity|]. csimpl.
  destruct (H x (or_introl eq_refl)) as (j & Hj & Hid). rewrite Hj. simpl.
  rewrite Hid, IH; [reflexivity|]. intros k Hk. apply H. by right.
Qed.

(** The positive part of C2: jobs submitted under pairwise distinct
    ids to a new queue, each with a renderer that always succeeds and
    a callback that keeps quiet, are rendered by a sequential run in
    the order of submission and all end Completed; [get_stats] counts
    them all. *)
Theorem sequential_run_in_submission_order
        (default : option Renderer) (callback : option Callback)
        (subs : list Submission) (fuel : nat) :
  let q0 := new default callback in
  let ids := submitted_ids uuid4 subs 0 in
  callback_quiet callback_code q0 ->
  Forall (fun s => exists r, renderer_of q0 s = Some r
                             /\ always_succeeds render_code r) subs ->
  NoDup ids ->
  (length subs < fuel)%nat ->
  exists st',
    run now render_code callback_code SEQUENTIAL fuel
        (submit_all now uuid4 subs (initial q0))
    = Done (Ok tt, st')
    /\ render_calls st' = ids
    /\ (forall k, In k ids ->
          exists j, _jobs (queue st') !! k = Some j /\ status j = COMPLETED)
    /\ completed (get_stats (queue st')) = length subs
    /\ total_jobs (get_stats (queue st')) = length subs.
Proof.
  intros q0 ids Hcb Hall Hnd Hfuel.
  destruct (submit_all_spec now uuid4 render_code subs (initial q0) Hall)
    as (Hq & Hcalls & Hother & Hnew & Hdist).
  { intros k1 k2 j1 j2 H1. simpl in H1. by rewrite lookup_empty in H1. }
  { intros k j H. simpl in H. by rewrite lookup_empty in H. }
  fold ids in Hq, Hother, Hnew. simpl in Hq, Hcalls, Hother.
  set (st1 := submit_all now uuid4 subs (initial q0)) in *.
  assert (Horder : _job_order (queue st1) = ids) by (rewrite Hq; reflexivity).
  assert (Hrunning : _running (queue st1) = false) by (rewrite Hq; reflexivity).
  assert (Hcb1 : callback_quiet callback_code (queue st1)).
  { unfold callback_quiet. rewrite Hq. exact Hcb. }
  assert (Hrd1 : renderers_quiet render_code (queue st1)).
  { intros k j Hk x.
    destruct (in_dec String.string_dec k ids) as [Hin|Hin].
    - destruct (Hnew k Hin) as (j' & Hj' & _ & _ & Hok).
      assert (j' = j) as -> by congruence.
      exists (Ok tt). split; [apply Hok|exact I].
    - rewrite (Hother k Hin), lookup_empty in Hk. discriminate. }
  unfold run. rewrite Hrunning.
  set (st2 := snd (modify_queue (set_flags true false) st1)).
  destruct (run_sequential_spec now render_code callback_code fuel st2)
    as (st' & Hdone & Hpost).
  { exact Hcb1. }
  { exact Hrd1. }
  { exact Hdist. }
  { reflexivity. }
  { pose proof (pending_filter_length (queue st2)) as Hle.
    change (_job_order (queue st2)) with (_job_order (queue st1)) in Hle.
    rewrite Horder in Hle. unfold ids in Hle.
    rewrite submitted_ids_length in Hle.
    change (_job_order (queue st2)) with (_job_order (queue st1)).
    rewrite Horder. unfold ids. lia. }
  rewrite Hdone. eexists. split; [reflexivity|].
  destruct Hpost as (_ & _ & _ & (l & Hl & Hlist) & Hnone & Hjobs).
  change (_jobs (queue st2)) with (_jobs (queue st1)) in *.
  change (_job_order (queue st2)) with (_job_order (queue st1)) in *.
  change (render_calls st2) with (render_calls st1) in *.
  rewrite Horder in *. rewrite Hcalls in *. simpl in Hl.
  assert (Hdone_job : forall k, In k ids ->
            exists j, _jobs (queue st') !! k = Some j /\ status j = COMPLETED).
  { intros k Hk. destruct (Hnew k Hk) as (j & Hj & Hs & _ & Hok).
    destruct (Hjobs k j Hj) as [Hproc _].
    destruct (Hproc Hk Hs) as (st_k & r & h & _ & Hr & Hj').
    rewrite Hok in Hr. injection Hr as <-.
    eexists. split; [exact Hj'|reflexivity]. }
  assert (Hkeys : forall k j, _jobs (queue st') !! k = Some j ->
                              In k ids /\ status j = COMPLETED).
  { intros k j Hk.
    destruct (in_dec String.string_dec k ids) as [Hin|Hin].
    - split; [exact Hin|]. destruct (Hdone_job k Hin) as (j' & Hj' & Hs').
      congruence.
    - rewrite (Hnone k) in Hk; [discriminate|].
      rewrite (Hother k Hin). apply lookup_empty. }
  assert (Hsize : length (map_to_list (_jobs (queue st'))).*2 = length subs).
  { rewrite length_fmap, length_map_to_list, <- size_dom.
    assert (Hdom : dom (_jobs (queue st')) = (list_to_set ids : gset string)).
    { apply set_eq. intros k. rewrite elem_of_dom, elem_of_list_to_set.
      rewrite list_elem_of_In. split.
      - intros [j Hj]. by destruct (Hkeys k j Hj).
      - intros Hk. destruct (Hdone_job k Hk) as (j & Hj & _). eauto. }
    rewrite Hdom, size_list_to_set by exact Hnd.
    apply submitted_ids_length. }
  simpl. split; [|split; [exact Hdone_job|split; [|exact Hsize]]].
  - rewrite Hl. rewrite (Hlist Hnd). rewrite filter_all.
    + apply logged_ids. intros k Hk.
      destruct (Hnew k Hk) as (j & Hj & _ & Hid & _). eauto.
    + intros k Hk. destruct (Hnew k Hk) as (j & Hj & Hs & _).
      unfold pending_b. rewrite Hj, Hs. reflexivity.
  - unfold count_status. rewrite filter_all; [exact Hsize|].
    intros j Hj. apply table_values in Hj as [k Hk].
    destruct (Hkeys k j Hk) as [_ ->]. reflexivity.
Qed.

End SubmissionOrder.

(** Five submissions with generated ids, as in the test of the spec. *)
Lemma sequential_run_in_submission_order_witness :
  exists st',
    render_queue.run ticking_clock (example_render "") quiet_callback
      render_queue.SEQUENTIAL 6
      (submit_all ticking_clock counting_uuid
         (repeat (plain_submission None) 5)
         (render_queue.initial (render_queue.new (Some stub_renderer) None)))
    = render_queue.Done (Ok tt, st')
    /\ render_queue.render_calls st' = ["job-0"; "job-1"; "job-2"; "job-3"; "job-4"]
    /\ render_queue.completed (render_queue.get_stats (render_queue.queue st')) = 5%nat.
Proof.
  destruct (sequential_run_in_submission_order ticking_clock counting_uuid
              (example_render "") quiet_callback
              (Some stub_renderer) None (repeat (plain_submission None) 5) 6)
    as (st' & Hrun & Hcalls & _ & Hcompleted & _).
  - exact I.
  - simpl.
    repeat (constructor;
            [exists stub_renderer; split; [reflexivity|]; by intros ? ? ? ?|]).
    constructor.
  - apply (bool_decide_unpack (NoDup _)). vm_compute. reflexivity.
  - simpl. lia.
  - exists st'. repeat split; assumption.
Defined.

(** C2 (where the code departs from the claim): two submissions under
    the same caller-supplied id.  Both [add_job] calls return, one job
    is rendered, and [get_stats] counts one Completed job. *)
Theorem sequential_run_after_id_collision :
  let subs := [plain_submission (Some "a"); plain_submission (Some "a")] in
  exists st',
    render_queue.run ticking_clock (example_render "") quiet_callback
      render_queue.SEQUENTIAL 3
      (submit_all ticking_clock counting_uuid subs
         (render_queue.initial (render_queue.new (Some stub_renderer) None)))
    = render_queue.Done (Ok tt, st')
    /\ render_queue.render_calls st' = ["a"]
    /\ render_queue.completed (render_queue.get_stats (render_queue.queue st')) = 1%nat
    /\ length subs = 2%nat.
Proof.
  eexists. split; [vm_compute; reflexivity|]. repeat split.
Qed.

(** ** Template filling *)

Section Frame.
Import placeholder.

Lemma frame_refl off s : frame off s s.
Proof. intros ref _. reflexivity. Qed.

Lemma frame_trans off s1 s2 s3 :
  frame off s1 s2 -> frame off s2 s3 -> frame off s1 s3.
Proof. intros H12 H23 ref Href. rewrite (H23 ref Href). by apply H12. Qed.

Lemma framed_bind {A B} off (c : M Store A) (k : A -> M Store B) :
  framed off c -> (forall a, framed off (k a)) -> framed off (bind c k).
Proof.
  intros Hc Hk s. unfold bind. specialize (Hc s).
  destruct (c s) as [[a|e] s1]; simpl in *; [|exact Hc].
  eapply frame_trans; [exact Hc|apply Hk].
Qed.

Lemma framed_ret {A} off (a : A) : framed off (ret a).
Proof. intros s. apply frame_refl. Qed.

Lemma framed_lift {A} off (r : result A) : framed off (lift r).
Proof. intros s. apply frame_refl. Qed.

Lemma framed_raise {A} off (e : PyExn) : framed off (raise (A := A) e).
Proof. intros s. apply frame_refl. Qed.

Lemma framed_get off : framed off (get (S := Store)).
Proof. intros s. apply frame_refl. Qed.

Lemma framed_read_track off ref : framed off (read_track ref).
Proof.
  intros s. unfold read_track. destruct (objects s !! ref); apply frame_refl.
Qed.

Lemma framed_write_track off ref t :
  (off <= ref)%nat -> framed off (write_track ref t).
Proof.
  intros Hge s r Hr. simpl. apply lookup_insert_ne. lia.
Qed.

Lemma framed_new_clip off c : framed off (new_clip c).
Proof. intros s ref _. reflexivity. Qed.

Lemma framed_lift_bind {A B} off (r : result A) (k : A -> M Store B) :
  (forall a, r = Ok a -> framed off (k a)) -> framed off (bind (lift r) k).
Proof.
  intros Hk s. unfold bind, lift. destruct r as [a|e]; [|apply frame_refl].
  by apply Hk.
Qed.

Lemma framed_forM {A} off (l : list A) (f : A -> M Store unit) :
  (forall x, In x l -> framed off (f x)) -> framed off (forM l f).
Proof.
  induction l as [|x l IH]; intros Hf; simpl; [apply framed_ret|].
  apply framed_bind; [apply Hf; by left|].
  intros _. apply IH. intros y Hy. apply Hf. by right.
Qed.

Lemma framed_deepcopy tl s :
  frame (next_id s) s (snd (deepcopy tl s)).
Proof.
  unfold deepcopy. unfold bind at 1. unfold get at 1.
  set (off := next_id s).
  assert (H : framed off
                (bind (forM (timeline._tracks tl)
                        (fun ref => bind (read_track ref)
                           (fun t => write_track (ref + off) (copy_track off t))))
                      (fun _ => bind (modify (fun s0 => {| objects := objects s0;
                                                          next_id := off + off |}))
                                 (fun _ => ret (timeline.set_tracks tl
                                                  (map (fun ref => (ref + off)%nat)
                                                       (timeline._tracks tl))))))).
  { apply framed_bind.
    - apply framed_forM. intros ref _. apply framed_bind.
      + apply framed_read_track.
      + intros t. apply framed_write_track. lia.
    - intros _. apply framed_bind; [|intros _; apply framed_ret].
      intros s0 r _. reflexivity. }
  apply H.
Qed.

Lemma get_track_In {T} (tl : timeline.Timeline T) (i : Z) (t : T) :
  timeline.get_track tl i = Ok (Some t) -> In t (timeline._tracks tl).
Proof.
  intros H. destruct (guarded_access (timeline._tracks tl) i) as (r & Hr & _ & Hnth).
  unfold timeline.get_track in H. rewrite H in Hr. injection Hr as <-.
  destruct ((0 <=? i) && (i <? pylist.len (timeline._tracks tl)));
    [|discriminate].
  eapply nth_error_In. symmetry. exact Hnth.
Qed.

Context {Data : Type}.

Lemma framed_fill_one off (self : VideoTemplate Data) (data : Data)
      (tl : timeline.Timeline nat) (kp : string * Placeholder Data) :
  Forall (fun ref => (off <= ref)%nat) (timeline._tracks tl) ->
  framed off (fill_one self data tl kp).
Proof.
  intros Hrefs. unfold fill_one.
  destruct (_placeholder_positions self !! kp.1) as [[ti ci]|];
    [|apply framed_ret].
  apply framed_bind; [apply framed_lift|]. intros c.
  apply framed_bind; [apply framed_new_clip|]. intros actual_clip.
  apply framed_lift_bind. intros [ref|] Hget; [|apply framed_ret].
  apply framed_bind; [apply framed_read_track|]. intros t.
  destruct (truthy t && (ci <? pylist.len (track._clips t)));
    [|apply framed_ret].
  apply framed_bind; [apply framed_lift|]. intros cs.
  apply framed_write_track.
  rewrite List.Forall_forall in Hrefs. apply Hrefs.
  eapply get_track_In. exact Hget.
Qed.

(** [fill] never changes an object that existed before the call:
    the base timeline's tracks, with their clips, are as they were,
    whether [fill] returns or raises. *)
Lemma fill_frame (self : VideoTemplate Data) (data : Data) (s : Store) :
  frame (next_id s) s (snd (fill self data s)).
Proof.
  unfold fill. destruct (validate_data_all self data); [|apply frame_refl].
  unfold bind at 1. pose proof (framed_deepcopy (timeline self) s) as Hcopy.
  destruct (deepcopy (timeline self) s) as [[tl'|e] s1] eqn:Hd;
    [|exact Hcopy].
  simpl in Hcopy. eapply frame_trans; [exact Hcopy|].
  assert (Htl : Forall (fun ref => (next_id s <= ref)%nat) (timeline._tracks tl')).
  { revert Hd. unfold deepcopy. unfold bind at 1. unfold get at 1.
    unfold bind at 1.
    destruct (forM _ _ s) as [[[]|e] s2]; [|discriminate].
    unfold bind, modify, ret. simpl. intros [= <- _]. simpl.
    apply List.Forall_forall. intros ref Href. apply in_map_iff in Href.
    destruct Href as (r & <- & _). lia. }
  assert (H : framed (next_id s)
                (bind (forM (_placeholders self) (fill_one self data tl'))
                      (fun _ => ret tl'))).
  { apply framed_bind; [|intros _; apply framed_ret].
    apply framed_forM. intros kp _. by apply framed_fill_one. }
  apply H.
Qed.

End Frame.

Section Copy.
Import placeholder.

(** The loop of [deepcopy] over the track references. *)
Lemma deepcopy_loop (off : nat) (s0 : Store) (l : list nat) (s : Store) :
  frame off s0 s ->
  Forall (fun ref => (ref < off)%nat /\ is_Some (objects s0 !! ref)) l ->
  exists s',
    forM l (fun ref => bind (read_track ref)
              (fun t => write_track (ref + off) (copy_track off t))) s
    = (Ok tt, s')
    /\ next_id s' = next_id s
    /\ frame off s0 s'
    /\ (forall ref t, In ref l -> objects s0 !! ref = Some t ->
                      objects s' !! (ref + off)%nat = Some (copy_track off t))
    /\ (forall r, (forall ref, In ref l -> r <> (ref + off)%nat) ->
                  objects s' !! r = objects s !! r).
Proof.
  revert s. induction l as [|ref l IH]; intros s Hframe Hall.
  - exists s. simpl. repeat split; auto. intros ref t [].
  - inversion Hall as [|? ? [Hlt [t Ht]] Hrest]; subst.
    simpl. unfold bind at 1. unfold bind at 1. unfold read_track at 1.
    rewrite (Hframe ref Hlt), Ht. unfold write_track at 1.
    set (s1 := {| objects := <[(ref + off)%nat := copy_track off t]> (objects s);
                  next_id := next_id s |}).
    destruct (IH s1) as (s' & Hrun & Hnext & Hframe' & Hcopies & Hothers).
    { intros r Hr. simpl. rewrite lookup_insert_ne by lia. by apply Hframe. }
    { exact Hrest. }
    exists s'. split; [exact Hrun|]. split; [exact Hnext|].
    split; [exact Hframe'|]. split.
    + intros ref' t' [<-|Hin] Ht'.
      * destruct (in_dec Nat.eq_dec ref l) as [Hl|Hl]; [by apply Hcopies|].
        rewrite Hothers.
        -- simpl. rewrite lookup_insert_eq. congruence.
        -- intros r' Hr' Heq. apply Hl. by replace ref with r' by lia.
      * by apply Hcopies.
    + intros r Hr. rewrite Hothers.
      * simpl. apply lookup_insert_ne. intros Heq.
        apply (Hr ref); [by left|by symmetry].
      * intros r' Hr'. apply Hr. by right.
Qed.

Lemma deepcopy_spec (tl : timeline.Timeline nat) (s : Store) :
  Forall (fun ref => (ref < next_id s)%nat /\ is_Some (objects s !! ref))
         (timeline._tracks tl) ->
  exists s',
    deepcopy tl s
    = (Ok (timeline.set_tracks tl
             (map (fun ref => (ref + next_id s)%nat) (timeline._tracks tl))), s')
    /\ (forall ref t, In ref (timeline._tracks tl) -> objects s !! ref = Some t ->
                      objects s' !! (ref + next_id s)%nat
                      = Some (copy_track (next_id s) t)).
Proof.
  intros Hall. unfold deepcopy. unfold bind at 1. unfold get at 1.
  destruct (deepcopy_loop (next_id s) s (timeline._tracks tl) s (frame_refl _ _) Hall)
    as (s' & Hrun & _ & _ & Hcopies & _).
  unfold bind at 1. rewrite Hrun. unfold bind, modify, ret. simpl.
  eexists. split; [reflexivity|]. simpl. exact Hcopies.
Qed.

Lemma get_track_map {T U} (f : T -> U) (tl : timeline.Timeline T) (i : Z) :
  timeline.get_track
    (timeline.set_tracks tl (map f (timeline._tracks tl))) i
  = match timeline.get_track tl i with
    | Ok r => Ok (f <$> r)
    | Raise e => Raise e
    end.
Proof.
  destruct (guarded_access (timeline._tracks tl) i) as (r & Hr & _ & Hnth).
  destruct (guarded_access (map f (timeline._tracks tl)) i) as (r' & Hr' & _ & Hnth').
  unfold timeline.get_track. simpl. rewrite Hr, Hr'. f_equal.
  rewrite Hnth, Hnth'. unfold pylist.len. rewrite length_map.
  destruct ((0 <=? i) && (i <? Z.of_nat (length (timeline._tracks tl))));
    [|reflexivity].
  rewrite nth_error_map. by destruct (nth_error (timeline._tracks tl) (Z.to_nat i)).
Qed.

End Copy.

Section Fill.
Import placeholder.
Context {Data : Type}.
Context (self : VideoTemplate Data) (data : Data) (s : Store).

Local Abbreviation off := (next_id s).
Local Abbreviation base := (timeline self).
Local Abbreviation copy := (copy_of self s).
Local Abbreviation copies := (copies self s).
Local Abbreviation writes_to := (writes_to self s).
Local Abbreviation fillable := (fillable self data).

Hypothesis base_allocated :
  Forall (fun ref => (ref < off)%nat /\ is_Some (objects s !! ref))
         (timeline._tracks base).

Lemma slot_of_base (pos : Z * Z) (ref i : nat) :
  slot_of s base pos = Some (ref, i) ->
  exists t, timeline.get_track base (fst pos) = Ok (Some ref)
            /\ In ref (timeline._tracks base)
            /\ objects s !! ref = Some t
            /\ 0 <= snd pos < pylist.len (track._clips t)
            /\ i = Z.to_nat (snd pos).
Proof.
  unfold slot_of. destruct (timeline.get_track base pos.1) as [[r|]|e] eqn:Hget;
    try discriminate.
  destruct (objects s !! r) as [t|] eqn:Ht; [|discriminate].
  destruct ((0 <=? pos.2) && (pos.2 <? pylist.len (track._clips t))) eqn:Hr;
    [|discriminate].
  intros [= <- <-]. exists t. apply andb_true_iff in Hr as [Hlo Hhi].
  repeat split; auto; try lia. eapply get_track_In, Hget.
Qed.

Lemma fill_one_spec (kp : string * Placeholder Data) (sk : Store) :
  copies sk ->
  fillable kp ->
  exists sk',
    fill_one self data copy kp sk = (Ok tt, sk')
    /\ copies sk'
    /\ (forall ref i, ~ writes_to kp (ref, i) ->
                      clip_in sk' ((ref + off)%nat, i) = clip_in sk ((ref + off)%nat, i))
    /\ (forall ref i c, writes_to kp (ref, i) ->
                        create_clip (snd kp) data = Ok c ->
                        clip_in sk' ((ref + off)%nat, i)
                        = Some (set_oid c (next_id sk))).
Proof.
  intros Hcopies Hfill. unfold fill_one, writes_to, fillable in *.
  destruct (_placeholder_positions self !! kp.1) as [[ti ci]|] eqn:Hpos.
  2:{ exists sk. repeat split; auto.
      - intros ref i c (pos & Hp & _). discriminate. }
  destruct (Hfill _ eq_refl) as [Hci [c Hc]]. simpl in Hci.
  unfold bind at 1. unfold lift at 1. rewrite Hc.
  unfold bind at 1. unfold new_clip at 1.
  set (sk2 := {| objects := objects sk; next_id := S (next_id sk) |}).
  set (ac := set_oid c (next_id sk)).
  assert (Hcopies2 : copies sk2) by exact Hcopies.
  unfold bind at 1. unfold lift at 1. unfold copy. rewrite get_track_map.
  destruct (guarded_access (timeline._tracks base) ti) as (r & Hr & _ & _).
  fold (timeline.get_track base ti) in Hr. rewrite Hr.
  destruct r as [ref|]; simpl.
  2:{ exists sk2. repeat split; auto.
      intros ref i c' (pos & [= <-] & Hs).
      unfold slot_of in Hs. simpl in Hs. rewrite Hr in Hs. discriminate. }
  assert (Hin : In ref (timeline._tracks base)) by (eapply get_track_In, Hr).
  assert (Ht : is_Some (objects s !! ref)).
  { rewrite List.Forall_forall in base_allocated.
    by destruct (base_allocated ref Hin). }
  destruct Ht as [t Ht].
  destruct (Hcopies2 ref t Hin Ht) as (tk & Htk & Hlen).
  assert (Htk' : objects sk !! (ref + off)%nat = Some tk) by exact Htk.
  unfold bind at 1. unfold read_track at 1. rewrite Htk.
  assert (Hlen' : pylist.len (track._clips tk) = pylist.len (track._clips t))
    by (unfold pylist.len; by rewrite Hlen).
  rewrite Hlen'.
  assert (Hslot : slot_of s base (ti, ci)
                  = if ci <? pylist.len (track._clips t)
                    then Some (ref, Z.to_nat ci) else None).
  { unfold slot_of. simpl. rewrite Hr, Ht.
    destruct (Z.leb_spec 0 ci) as [_|Hneg]; [reflexivity|lia]. }
  destruct (Z.ltb_spec ci (pylist.len (track._clips t))) as [Hhi|Hhi].
  - (* the position exists *)
    assert (Htruthy : truthy tk = true).
    { unfold truthy. rewrite Hlen'. apply negb_true_iff, Z.eqb_neq. lia. }
    rewrite Htruthy. simpl andb. cbv iota.
    unfold bind at 1. unfold lift at 1. unfold pylist.setitem.
    destruct (Z.ltb_spec ci 0) as [Hneg|_]; [lia|].
    destruct (Z.leb_spec 0 ci) as [_|Hneg]; [|lia].
    rewrite Hlen'. destruct (Z.ltb_spec ci (pylist.len (track._clips t))) as [_|Hge];
      [|lia].
    simpl andb. cbv iota. unfold write_track.
    eexists. split; [reflexivity|].
    assert (Hi : (Z.to_nat ci < length (track._clips tk))%nat)
      by (unfold pylist.len in Hhi; lia).
    split; [|split].
    + intros ref2 t2 Hin2 Ht2. simpl.
      destruct (decide (ref2 = ref)) as [->|Hne].
      * rewrite lookup_insert_eq. eexists. split; [reflexivity|].
        simpl. rewrite length_insert. congruence.
      * rewrite lookup_insert_ne by lia. by apply Hcopies2.
    + intros ref2 i2 Hnot. unfold clip_in. simpl.
      destruct (decide (ref2 = ref)) as [->|Hne].
      * rewrite lookup_insert_eq, Htk'. simpl.
        rewrite !nth_error_lookup. apply list_lookup_insert_ne.
        intros <-. apply Hnot. exists (ti, ci). split; [reflexivity|exact Hslot].
      * by rewrite lookup_insert_ne by lia.
    + intros ref2 i2 c' (pos & [= <-] & Hs) Hc'.
      rewrite Hslot in Hs. injection Hs as <- <-.
      assert (c' = c) as -> by congruence.
      unfold clip_in. simpl. rewrite lookup_insert_eq. simpl.
      rewrite nth_error_lookup. by apply list_lookup_insert_eq.
  - (* the clip index is past the end *)
    rewrite andb_false_r.
    exists sk2. split; [reflexivity|]. split; [exact Hcopies2|].
    split; [auto|].
    intros ref2 i2 c' (pos & [= <-] & Hs).
    rewrite Hslot in Hs. discriminate.
Qed.

Lemma fill_loop (l : list (string * Placeholder Data)) (sk : Store) :
  copies sk ->
  Forall fillable l ->
  exists sk',
    forM l (fill_one self data copy) sk = (Ok tt, sk')
    /\ copies sk'
    /\ (forall ref i, Forall (fun kp => ~ writes_to kp (ref, i)) l ->
                      clip_in sk' ((ref + off)%nat, i) = clip_in sk ((ref + off)%nat, i)).
Proof.
  revert sk. induction l as [|kp l IH]; intros sk Hcopies Hall.
  - exists sk. repeat split; auto.
  - inversion Hall as [|? ? Hkp Hrest]; subst.
    destruct (fill_one_spec kp sk Hcopies Hkp) as (sk1 & Hrun1 & Hcopies1 & Hkeep1 & _).
    destruct (IH sk1 Hcopies1 Hrest) as (sk' & Hrun & Hcopies' & Hkeep).
    exists sk'. simpl. unfold bind. rewrite Hrun1, Hrun.
    repeat split; auto.
    intros ref i Hnone. inversion Hnone as [|? ? Hnot Hnone']; subst.
    rewrite (Hkeep ref i Hnone'). by apply Hkeep1.
Qed.

Lemma forM_app {S A} (l1 l2 : list A) (f : A -> M S unit) (st : S) :
  forM (l1 ++ l2) f st = bind (forM l1 f) (fun _ => forM l2 f) st.
Proof.
  revert st. induction l1 as [|x l1 IH]; intros st; simpl.
  - unfold bind, ret. reflexivity.
  - unfold bind in *. destruct (f x st) as [[[]|e] st1]; [|reflexivity].
    apply IH.
Qed.

Lemma clip_at_copy (sk : Store) (pos : Z * Z) (ref i : nat) :
  copies sk ->
  slot_of s base pos = Some (ref, i) ->
  clip_at sk copy pos = clip_in sk ((ref + off)%nat, i).
Proof.
  intros Hcopies Hslot.
  destruct (slot_of_base pos ref i Hslot) as (t & Hget & Hin & Ht & Hrange & ->).
  destruct (Hcopies ref t Hin Ht) as (tk & Htk & Hlen).
  unfold clip_at, clip_in, copy. rewrite get_track_map, Hget. simpl.
  rewrite Htk.
  destruct (guarded_access (track._clips tk) pos.2) as (r & Hr & _ & Hnth).
  fold (track.get_clip tk pos.2) in Hr. rewrite Hr, Hnth.
  unfold pylist.len in *. rewrite Hlen.
  destruct (Z.leb_spec 0 pos.2); [|lia].
  destruct (Z.ltb_spec pos.2 (Z.of_nat (length (track._clips t)))); [|lia].
  simpl. by destruct (nth_error (track._clips tk) (Z.to_nat pos.2)).
Qed.

(** [fill] on data that passes validation, all placeholders being
    fillable: it returns the copy of the base timeline, and a
    position that exists holds the clip created for the last
    placeholder bound to it. *)
Lemma fill_success :
  validate_data_all self data = [] ->
  Forall fillable (_placeholders self) ->
  exists s',
    fill self data s = (Ok copy, s')
    /\ copies s'
    /\ (forall before kp after pos slot c,
        _placeholders self = before ++ kp :: after ->
        _placeholder_positions self !! fst kp = Some pos ->
        slot_of s base pos = Some slot ->
        create_clip (snd kp) data = Ok c ->
        Forall (fun kp' => ~ writes_to kp' slot) after ->
        exists n, clip_at s' copy pos = Some (set_oid c n))
    /\ (forall pos slot,
          slot_of s base pos = Some slot ->
          Forall (fun kp => ~ writes_to kp slot) (_placeholders self) ->
          clip_at s' copy pos
          = (fun c => set_oid c (clips.oid c + off)) <$> clip_at s base pos).
Proof.
  intros Hval Hall. unfold fill. rewrite Hval.
  destruct (deepcopy_spec base s base_allocated) as (s1 & Hcopy & Hcopies1).
  unfold bind at 1. fold base. rewrite Hcopy. fold off copy.
  assert (Hc1 : copies s1).
  { intros ref t Hin Ht. eexists. split; [by apply Hcopies1|].
    simpl. by rewrite length_map. }
  destruct (fill_loop (_placeholders self) s1 Hc1 Hall) as (s' & Hrun & Hc' & Hkeep').
  unfold bind at 1. rewrite Hrun. unfold ret.
  exists s'. split; [reflexivity|]. split; [exact Hc'|]. split.
  2:{ intros pos [ref i] Hslot Hnone.
      rewrite (clip_at_copy s' pos ref i Hc' Hslot), (Hkeep' ref i Hnone).
      destruct (slot_of_base pos ref i Hslot) as (t & Hget & Hin & Ht & Hrange & ->).
      unfold clip_in, clip_at. simpl. rewrite (Hcopies1 ref t Hin Ht), Hget, Ht.
      destruct (guarded_access (track._clips t) pos.2) as (r & Hr & _ & Hnth).
      fold (track.get_clip t pos.2) in Hr. rewrite Hr, Hnth.
      destruct (Z.leb_spec 0 pos.2); [|lia].
      destruct (Z.ltb_spec pos.2 (pylist.len (track._clips t))); [|lia].
      simpl. rewrite nth_error_map.
      by destruct (nth_error (track._clips t) (Z.to_nat pos.2)). }
  intros before kp after pos [ref i] c Hsplit Hpos Hslot Hc Hafter.
  rewrite Hsplit in Hrun, Hall.
  rewrite forM_app in Hrun. unfold bind in Hrun.
  apply Forall_app in Hall as [Hbefore Hrest].
  inversion Hrest as [|? ? Hkp Hafter_fill]; subst.
  destruct (fill_loop before s1 Hc1 Hbefore) as (s2 & Hrun2 & Hc2 & _).
  rewrite Hrun2 in Hrun. simpl in Hrun. unfold bind in Hrun.
  destruct (fill_one_spec kp s2 Hc2 Hkp) as (s3 & Hrun3 & Hc3 & _ & Hwritten).
  rewrite Hrun3 in Hrun.
  destruct (fill_loop after s3 Hc3 Hafter_fill) as (s4 & Hrun4 & Hc4 & Hkeep).
  rewrite Hrun4 in Hrun. injection Hrun as <-.
  exists (next_id s2). rewrite (clip_at_copy s4 pos ref i Hc4 Hslot).
  rewrite (Hkeep ref i Hafter). apply Hwritten; [|exact Hc].
  exists pos. auto.
Qed.

End Fill.

(** What [fill] keeps of its contract.  Whatever it does, no object
    that existed before the call is changed, so the base timeline
    keeps its tracks and clips.  If a placeholder reports an error,
    [fill] raises one [ValueError] carrying all the messages and
    leaves the store as it was.  If none does -- the base timeline's
    tracks being allocated objects, no bound clip index negative and
    every [create_clip] returning -- [fill] returns a new timeline,
    the copy of the base, in which every bound position that exists
    in the base timeline holds the clip created for the last
    placeholder bound to it, and every position no placeholder is
    bound to holds the copy of the base's clip. *)
Theorem fill_all_or_nothing {Data : Type}
        (self : placeholder.VideoTemplate Data) (data : Data)
        (s : placeholder.Store) :
  frame (placeholder.next_id s) s (snd (placeholder.fill self data s))
  /\ (placeholder.validate_data_all self data <> [] ->
      placeholder.fill self data s
      = (Raise (ValueError ("Template validation failed: "
                            ++ String.concat "; "
                                 (placeholder.validate_data_all self data))),
         s))
  /\ (placeholder.validate_data_all self data = [] ->
      Forall (fun ref => (ref < placeholder.next_id s)%nat
                         /\ is_Some (placeholder.objects s !! ref))
             (timeline._tracks (placeholder.timeline self)) ->
      Forall (fillable self data) (placeholder._placeholders self) ->
      exists tl s',
        placeholder.fill self data s = (Ok tl, s')
        /\ timeline._tracks tl
           = map (fun ref => (ref + placeholder.next_id s)%nat)
                 (timeline._tracks (placeholder.timeline self))
        /\ (forall before kp after pos slot c,
            placeholder._placeholders self = before ++ kp :: after ->
            placeholder._placeholder_positions self !! fst kp = Some pos ->
            slot_of s (placeholder.timeline self) pos = Some slot ->
            placeholder.create_clip (snd kp) data = Ok c ->
            Forall (fun kp' => ~ writes_to self s kp' slot) after ->
            exists n, clip_at s' tl pos = Some (placeholder.set_oid c n))
        /\ (forall pos slot,
              slot_of s (placeholder.timeline self) pos = Some slot ->
              Forall (fun kp => ~ writes_to self s kp slot)
                     (placeholder._placeholders self) ->
              clip_at s' tl pos
              = (fun c => placeholder.set_oid c (clips.oid c + placeholder.next_id s))
                  <$> clip_at s (placeholder.timeline self) pos)).
Proof.
  split; [apply fill_frame|]. split.
  - intros Hne. unfold placeholder.fill.
    destruct (placeholder.validate_data_all self data); [congruence|reflexivity].
  - intros Hval Hrefs Hfill.
    destruct (fill_success self data s Hrefs Hval Hfill)
      as (s' & Hrun & _ & Hclips & Hrest).
    eexists. exists s'. split; [exact Hrun|]. split; [reflexivity|].
    split; [exact Hclips|exact Hrest].
Qed.

Lemma fill_all_or_nothing_witness :
  exists tl s' c,
    placeholder.fill title_template hello_data store_with_title_track = (Ok tl, s')
    /\ clip_at s' tl (0, 0) = Some c
    /\ clips.attrs c
       = clips.TextClip "Hello" 48 "Arial"
           {| clips.r := 255; clips.g := 255; clips.b := 255; clips.a := 255 |}
           {| clips.x := 480; clips.y := 540 |}
    /\ placeholder.objects s' !! 0%nat
       = placeholder.objects store_with_title_track !! 0%nat.
Proof.
  destruct (fill_all_or_nothing title_template hello_data store_with_title_track)
    as (Hframe & _ & Hsuccess).
  destruct Hsuccess as (tl & s' & Hrun & _ & Hclips & _).
  - reflexivity.
  - constructor; [|constructor]. split; [simpl; lia|]. vm_compute. eauto.
  - constructor; [|constructor]. intros pos Hpos. vm_compute in Hpos.
    injection Hpos as <-. split; [simpl; lia|]. eexists. reflexivity.
  - destruct (Hclips [] (_, _) [] (0, 0) (0%nat, 0%nat) _
                     eq_refl eq_refl eq_refl eq_refl (List.Forall_nil _))
      as (n & Hclip).
    eexists tl, s', _. split; [exact Hrun|]. split; [exact Hclip|].
    split; [reflexivity|].
    rewrite Hrun in Hframe. apply Hframe. simpl. lia.
Defined.

(** C4 (where the code departs from the claim): the template that
    [create_simple_text_template] builds has its placeholder bound to
    position (0, 0) of a track without clips ([add_placeholder]
    without a clip index binds to the number of clips of the track).
    Validation succeeds and [create_clip] returns the clip, yet the
    bound position of the timeline [fill] returns holds no clip: the
    guard of the assignment skips it. *)
Lemma fill_skips_position_outside_track :
  exists template s0 c tl s',
    placeholder.create_simple_text_template "Title card" "title" 5 (1920, 1080)
                                            placeholder.empty_store
    = (Ok template, s0)
    /\ placeholder._placeholder_positions template !! "title" = Some (0, 0)
    /\ placeholder.validate_data_all template hello_data = []
    /\ (exists p, placeholder._placeholders template = [("title", p)]
                  /\ placeholder.create_clip p hello_data = Ok c)
    /\ placeholder.fill template hello_data s0 = (Ok tl, s')
    /\ clip_at s' tl (0, 0) = None.
Proof.
  eexists. eexists. eexists. eexists. eexists.
  split; [vm_compute; reflexivity|].
  split; [vm_compute; reflexivity|].
  split; [vm_compute; reflexivity|].
  split; [eexists; split; vm_compute; reflexivity|].
  split; vm_compute; reflexivity.
Qed.

(** A second departure: an optional text placeholder whose key is
    absent passes validation, and [create_clip] then fails on the
    unbound [font_size]; [fill] raises that error and not a
    validation error, the base timeline untouched. *)
Example fill_optional_text_without_data :
  let optional :=
    {| placeholder.text_key := "subtitle";
       placeholder.text_description := None;
       placeholder.text_duration := 5;
       placeholder.text_start_time := 0;
       placeholder.font_size := 24;
       placeholder.font_family := "Arial";
       placeholder.color := {| clips.r := 255; clips.g := 255; clips.b := 255;
                               clips.a := 255 |};
       placeholder.position := {| clips.x := 0; clips.y := 0 |};
       placeholder.max_length := None;
       placeholder.required := false |} in
  let template :=
    snd (placeholder.add_placeholder store_with_title_track
           (placeholder.as_placeholder_text optional) 0 (Some 0)
           (placeholder.new (placeholder.timeline title_template) None)) in
  placeholder.validate_data_all template (∅ : gmap string string) = []
  /\ exists msg s',
      placeholder.fill template ∅ store_with_title_track
      = (Raise (UnboundLocalError msg), s')
      /\ placeholder.objects s' !! 0%nat
         = placeholder.objects store_with_title_track !! 0%nat.
Proof.
  split; [vm_compute; reflexivity|].
  eexists. eexists. split; vm_compute; reflexivity.
Qed.

(** * Properties of the other methods *)

(** ** Tracks: sorting *)

Lemma sort_insert_perm {A} (key : A -> Q) (x : A) (l : list A) :
  Permutation (pylist.sort_insert key x l) (x :: l).
Proof.
  induction l as [|y r IH]; simpl; [reflexivity|].
  destruct (Qlt_bool (key y) (key x)); [|reflexivity].
  rewrite IH. apply perm_swap.
Qed.

Lemma sort_perm {A} (key : A -> Q) (l : list A) :
  Permutation (pylist.sort key l) l.
Proof.
  induction l as [|x r IH]; simpl; [reflexivity|].
  unfold pylist.sort in *. simpl. rewrite sort_insert_perm, IH. reflexivity.
Qed.






(** ** Tracks: inserting and removing clips *)

(** X2: [insert_clip(clip, i)] on a track whose type admits the clip
    places it as [list.insert] does, for an index that fits a C
    [ssize_t]: at position [i] when [0 <= i <= len], at the end when
    [i > len], and at [len + i] (not below 0) when [i < 0].  The track
    is one clip longer, [get_clip] at that position returns the clip,
    the clips before it keep their positions, the ones from it on move
    up by one, and the transitions are not re-keyed.  An index that
    does not fit raises [OverflowError] and the track is as it was. *)
Theorem insert_clip_position (t : track.Track) (c : clips.Clip) (i : Z) :
  allowed_on (track.track_type t) (clips.class_of c) = true ->
  let n := track.__len__ t in
  let j := if i <? 0 then Z.max 0 (i + n) else Z.min i n in
  if pylist.fits_ssize_t i then
    exists t',
      track.insert_clip c i t = (Ok tt, t')
      /\ track.__len__ t' = n + 1
      /\ track.get_clip t' j = Ok (Some c)
      /\ (forall k, k < j -> track.get_clip t' k = track.get_clip t k)
      /\ (forall k, j <= k -> track.get_clip t' (k + 1) = track.get_clip t k)
      /\ track._transitions t' = track._transitions t
  else
    track.insert_clip c i t
    = (Raise (OverflowError "Python int too large to convert to C ssize_t"), t).
Proof.
  intros Ha n j. unfold track.insert_clip.
  rewrite (add_clip_allowed t c (Some i) Ha).
  destruct (pylist.fits_ssize_t i); [|reflexivity].
  eexists. split; [reflexivity|].
  destruct (stored_by_insert t c i) as (Hlen & Hj & Hbefore & Hafter & _).
  split; [exact Hlen|]. split; [exact Hj|]. split; [exact Hbefore|].
  split; [exact Hafter|reflexivity].
Qed.

(** Inserting at [-1] into the track of the test suite puts the clip
    before the last one. *)
Lemma insert_clip_position_witness :
  exists t',
    track.insert_clip (video_clip 3 "video3.mp4" 10) (-1) track_with_transition
    = (Ok tt, t')
    /\ track.get_clip t' 1 = Ok (Some (video_clip 3 "video3.mp4" 10))
    /\ track.get_clip t' 2 = Ok (Some (video_clip 2 "video2.mp4" 5)).
Proof.
  pose proof (insert_clip_position track_with_transition
                (video_clip 3 "video3.mp4" 10) (-1) eq_refl) as H.
  cbv zeta in H. change (pylist.fits_ssize_t (-1)) with true in H.
  cbv iota in H.
  destruct H as (t' & Hrun & _ & Hj & _ & Hafter & _).
  exists t'. split; [exact Hrun|]. split; [exact Hj|].
  exact (Hafter 1 ltac:(vm_compute; discriminate)).
Defined.

Lemma pop_in_range {A} (l : list A) (i : Z) :
  0 <= i < pylist.len l ->
  exists x, l !! Z.to_nat i = Some x
            /\ pylist.pop l i
               = Ok (x, take (Z.to_nat i) l ++ drop (S (Z.to_nat i)) l).
Proof.
  intros Hi. unfold pylist.pop.
  destruct (Z.ltb_spec i 0); [lia|].
  destruct (Z.leb_spec 0 i); [|lia].
  destruct (Z.ltb_spec i (pylist.len l)); [|lia]. simpl.
  rewrite nth_error_lookup.
  destruct (l !! Z.to_nat i) as [x|] eqn:Hx; [by exists x|].
  apply lookup_ge_None in Hx. unfold pylist.len in Hi. lia.
Qed.

Lemma del_transition_spec (i : Z) (t : track.Track) :
  track.del_transition_if_present i t
  = (Ok tt, track.set_transitions t (delete i (track._transitions t))).
Proof.
  unfold track.del_transition_if_present, bind, get, put, ret.
  destruct (bool_decide (is_Some (track._transitions t !! i))) eqn:Hd;
    [reflexivity|].
  apply bool_decide_eq_false in Hd. rewrite <- eq_None_not_Some in Hd.
  rewrite delete_id by exact Hd. by rewrite set_transitions_same.
Qed.

(** X3: [remove_clip(i)] with an index never raises.  For
    [0 <= i < len] the clip at [i] is removed: the track is one clip
    shorter, the clips before [i] keep their positions, the later ones
    move down by one, the transition keyed by [i] is dropped and every
    other transition keeps its key.  For any other index, negative
    ones included, the track is left exactly as it was. *)
Theorem remove_clip_by_index (t : track.Track) (i : Z) :
  exists t',
    track.remove_clip (track.AsIndex i) t = (Ok tt, t')
    /\ if (0 <=? i) && (i <? track.__len__ t) then
         track.__len__ t' = track.__len__ t - 1
         /\ (forall k, k < i -> track.get_clip t' k = track.get_clip t k)
         /\ (forall k, i <= k -> track.get_clip t' k = track.get_clip t (k + 1))
         /\ track.get_transition t' i = None
         /\ (forall k, k <> i ->
                       track.get_transition t' k = track.get_transition t k)
       else t' = t.
Proof.
  unfold track.remove_clip, track.__len__.
  unfold bind at 1. unfold get at 1.
  destruct ((0 <=? i) && (i <? pylist.len (track._clips t))) eqn:Hi;
    [|exists t; split; reflexivity].
  apply andb_true_iff in Hi as [Hlo Hhi].
  apply Z.leb_le in Hlo. apply Z.ltb_lt in Hhi.
  unfold bind. rewrite del_transition_spec. unfold get, lift. simpl.
  destruct (pop_in_range (track._clips t) i) as (x & Hx & ->); [lia|].
  unfold put. simpl. eexists. split; [reflexivity|].
  set (cs := take (Z.to_nat i) (track._clips t)
             ++ drop (S (Z.to_nat i)) (track._clips t)).
  assert (Htake : length (take (Z.to_nat i) (track._clips t)) = Z.to_nat i).
  { rewrite length_take. unfold pylist.len in Hhi. lia. }
  assert (Hlen : pylist.len cs = pylist.len (track._clips t) - 1).
  { unfold cs, pylist.len in *. rewrite length_app, Htake, length_drop. lia. }
  split; [exact Hlen|]. split; [|split; [|split]].
  - intros k Hk. rewrite !get_clip_lookup. simpl. rewrite Hlen.
    destruct (Z.leb_spec 0 k); simpl; [|reflexivity].
    destruct (Z.ltb_spec k (pylist.len (track._clips t) - 1));
      destruct (Z.ltb_spec k (pylist.len (track._clips t))); try lia.
    unfold cs. rewrite lookup_app_l by lia. f_equal. apply lookup_take_lt. lia.
  - intros k Hk. rewrite !get_clip_lookup. simpl. rewrite Hlen.
    destruct (Z.leb_spec 0 k); [|lia]. destruct (Z.leb_spec 0 (k + 1)); [|lia].
    simpl.
    destruct (Z.ltb_spec k (pylist.len (track._clips t) - 1));
      destruct (Z.ltb_spec (k + 1) (pylist.len (track._clips t)));
      try lia; [|reflexivity].
    unfold cs. rewrite lookup_app_r by lia. rewrite Htake, lookup_drop.
    do 2 f_equal. lia.
  - unfold track.get_transition. simpl. apply lookup_delete_eq.
  - intros k Hk. unfold track.get_transition. simpl.
    apply lookup_delete_ne. congruence.
Qed.

Lemma index_absent (c : clips.Clip) (l : list clips.Clip) (n : Z) :
  Forall (fun x => clips.same_object x c = false) l ->
  exists msg, pylist.index_from clips.same_object c l n = Raise (ValueError msg).
Proof.
  intros H. revert n. induction H as [|x l Hx _ IH]; intros n; simpl; [eauto|].
  rewrite Hx. apply IH.
Qed.

Lemma index_first (c x : clips.Clip) (l1 l2 : list clips.Clip) (n : Z) :
  Forall (fun x => clips.same_object x c = false) l1 ->
  clips.same_object x c = true ->
  pylist.index_from clips.same_object c (l1 ++ x :: l2) n
  = Ok (n + pylist.len l1)
  /\ pylist.remove clips.same_object (l1 ++ x :: l2) c = Ok (l1 ++ l2).
Proof.
  intros H Hx. revert n. induction H as [|y l Hy _ IH]; intros n; simpl.
  - rewrite Hx. split; [f_equal; unfold pylist.len; simpl; lia|reflexivity].
  - rewrite Hy. destruct (IH (n + 1)) as [-> ->]. split; [|reflexivity].
    f_equal. unfold pylist.len. simpl length. lia.
Qed.

(** X4: [remove_clip(clip)] with a clip object that is not on the
    track does nothing (the [ValueError] of [list.index] is
    swallowed), whatever the type of the track and its transitions.
    It undoes [add_clip(clip)]: when in addition the type of the track
    admits the clip and the transitions are in range, adding the clip
    and removing it again gives back the track as it was. *)
Theorem add_clip_remove_clip_round_trip (t : track.Track) (c : clips.Clip) :
  Forall (fun x => clips.same_object x c = false) (track._clips t) ->
  track.remove_clip (track.AsClip c) t = (Ok tt, t)
  /\ (allowed_on (track.track_type t) (clips.class_of c) = true ->
      transitions_valid t ->
      (track.add_clip c None ;; track.remove_clip (track.AsClip c))%M t
      = (Ok tt, t)).
Proof.
  intros Hfresh. split.
  - unfold track.remove_clip, try_except, bind, get, lift, pylist.index.
    destruct (index_absent c _ 0 Hfresh) as [msg ->]. reflexivity.
  - intros Ha Hv. unfold bind at 1. rewrite (add_clip_allowed t c None Ha).
    unfold track.remove_clip, try_except.
    unfold bind at 1. unfold get at 1. unfold bind at 1. unfold lift at 1.
    unfold pylist.index. simpl.
    assert (Hsame : clips.same_object c c = true) by apply Nat.eqb_refl.
    destruct (index_first c c (track._clips t) [] 0 Hfresh Hsame) as [Hix Hrm].
    rewrite Z.add_0_l in Hix. rewrite Hix. unfold bind at 1. rewrite del_transition_spec.
    unfold bind, get, lift, put. simpl. rewrite Hrm. simpl.
    rewrite app_nil_r. f_equal.
    rewrite delete_id.
    + destruct t; reflexivity.
    + destruct (track._transitions t !! pylist.len (track._clips t)) as [tr|] eqn:Htr;
        [|reflexivity].
      apply Hv in Htr. lia.
Qed.

(** On the track of the test suite, with a third video clip. *)
Lemma add_clip_remove_clip_round_trip_witness :
  track.remove_clip (track.AsClip (video_clip 3 "video3.mp4" 10))
                    track_with_transition
  = (Ok tt, track_with_transition)
  /\ (track.add_clip (video_clip 3 "video3.mp4" 10) None ;;
      track.remove_clip (track.AsClip (video_clip 3 "video3.mp4" 10)))%M
       track_with_transition
     = (Ok tt, track_with_transition).
Proof.
  destruct (add_clip_remove_clip_round_trip track_with_transition
              (video_clip 3 "video3.mp4" 10)) as [Hremove Hround].
  - repeat constructor.
  - split; [exact Hremove|]. apply Hround.
    + reflexivity.
    + intros i tr Hi.
      change (track._transitions track_with_transition)
        with (<[0 := crossfade]> (∅ : gmap Z transitions.Transition)) in Hi.
      apply lookup_insert_Some in Hi as [[<- _]|[_ Hi]].
      * vm_compute. split; [discriminate|reflexivity].
      * rewrite lookup_empty in Hi. discriminate.
Defined.

(** ** Tracks: the type restriction, opacity, access by index *)

Lemma remove_Forall {A} (eqb : A -> A -> bool) (P : A -> Prop)
      (l l' : list A) (x : A) :
  pylist.remove eqb l x = Ok l' -> Forall P l -> Forall P l'.
Proof.
  revert l'. induction l as [|y r IH]; intros l' Hr Hl; simpl in Hr;
    [discriminate|].
  apply Forall_cons in Hl as [Hy Hl].
  destruct (eqb y x); [by injection Hr as <-|].
  destruct (pylist.remove eqb r x) as [r'|e]; [|discriminate].
  injection Hr as <-. constructor; [exact Hy|]. by apply IH.
Qed.

(** [remove_clip] never raises; what is left is the track with some of
    its clips and some of its transitions. *)
Lemma remove_clip_keeps (P : clips.Clip -> Prop) (x : track.ClipOrIndex)
      (t : track.Track) :
  Forall P (track._clips t) ->
  exists cs ts, track.remove_clip x t
                = (Ok tt, track.set_transitions (track.set_clips t cs) ts)
                /\ Forall P cs.
Proof.
  intros HP. destruct x as [i|c]; simpl.
  - unfold bind at 1. unfold get at 1.
    destruct ((0 <=? i) && (i <? pylist.len (track._clips t))) eqn:Hi.
    + apply andb_true_iff in Hi as [Hlo Hhi].
      apply Z.leb_le in Hlo. apply Z.ltb_lt in Hhi.
      unfold bind. rewrite del_transition_spec. unfold get, lift. simpl.
      destruct (pop_in_range (track._clips t) i) as (y & Hy & ->); [lia|].
      unfold put. simpl. eexists _, _. split; [reflexivity|].
      apply Forall_app. split.
      * by apply Forall_take.
      * by apply Forall_drop.
    + exists (track._clips t), (track._transitions t).
      split; [by destruct t|exact HP].
  - unfold try_except, bind, get, lift, pylist.index.
    assert (Hix : forall l n,
               (exists k, pylist.index_from clips.same_object c l n = Ok k)
               \/ exists m, pylist.index_from clips.same_object c l n
                            = Raise (ValueError m)).
    { induction l as [|y r IH]; intros n; simpl; [right; eauto|].
      destruct (clips.same_object y c); [left; eauto|apply IH]. }
    assert (Hrm : forall l,
               (exists l', pylist.remove clips.same_object l c = Ok l')
               \/ exists m, pylist.remove clips.same_object l c
                            = Raise (ValueError m)).
    { induction l as [|y r IH]; simpl; [right; eauto|].
      destruct (clips.same_object y c); [left; eauto|].
      destruct IH as [[l' ->]|[m ->]]; [left|right]; eauto. }
    destruct (Hix (track._clips t) 0) as [[k ->]|[m ->]].
    + rewrite del_transition_spec. simpl.
      destruct (Hrm (track._clips t)) as [[l' Hl']|[m Hm]].
      * rewrite Hl'. unfold put. eexists _, _. split; [reflexivity|].
        eapply remove_Forall; eassumption.
      * rewrite Hm. unfold ret.
        exists (track._clips t), (delete k (track._transitions t)).
        split; [|exact HP]. by destruct t.
    + unfold ret. exists (track._clips t), (track._transitions t).
      split; [by destruct t|exact HP].
Qed.

Lemma apply_track_op_typed (op : TrackOp) (t : track.Track) :
  well_typed t ->
  track.track_type (apply_track_op op t) = track.track_type t
  /\ well_typed (apply_track_op op t).
Proof.
  unfold well_typed. intros Ht.
  destruct op as [c index|c i|x|i tr|i| |o|b|b|b|]; unfold apply_track_op.
  - destruct (allowed_on (track.track_type t) (clips.class_of c)) eqn:Ha.
    + destruct (add_clip_cases t c index) as [->|[e ->]]; [|by split].
      simpl. split; [reflexivity|].
      destruct index as [i|].
      * unfold pylist.insert_at. apply Forall_app. split; [by apply Forall_take|].
        constructor; [exact Ha|by apply Forall_drop].
      * apply Forall_app. split; [exact Ht|]. by constructor.
    + destruct (add_clip_refused t c index Ha) as [msg ->]. by split.
  - unfold track.insert_clip.
    destruct (allowed_on (track.track_type t) (clips.class_of c)) eqn:Ha.
    + destruct (add_clip_cases t c (Some i)) as [->|[e ->]]; [|by split].
      simpl. split; [reflexivity|].
      unfold pylist.insert_at. apply Forall_app. split; [by apply Forall_take|].
      constructor; [exact Ha|by apply Forall_drop].
    + destruct (add_clip_refused t c (Some i) Ha) as [msg ->]. by split.
  - destruct (remove_clip_keeps _ x t Ht) as (cs & ts & -> & Hcs). by split.
  - unfold track.add_transition, bind, get, put, ret.
    destruct ((0 <=? i) && (i <? pylist.len (track._clips t) - 1)); by split.
  - unfold track.remove_transition. rewrite del_transition_spec. by split.
  - simpl. split; [reflexivity|constructor].
  - by split.
  - by split.
  - by split.
  - by split.
  - simpl. split; [reflexivity|].
    apply List.Forall_forall. intros c Hc.
    apply (Permutation_in _ (sort_perm _ _)) in Hc.
    rewrite List.Forall_forall in Ht. by apply Ht.
Qed.

Lemma filter_true {A} (f : A -> bool) (l : list A) :
  Forall (fun x => f x = true) l -> List.filter f l = l.
Proof.
  induction 1 as [|x l Hx _ IH]; [reflexivity|]. simpl. by rewrite Hx, IH.
Qed.

Lemma filter_false {A} (f : A -> bool) (l : list A) :
  Forall (fun x => f x = false) l -> List.filter f l = [].
Proof.
  induction 1 as [|x l Hx _ IH]; [reflexivity|]. simpl. by rewrite Hx, IH.
Qed.

(** X5: the type restriction of a track is an invariant of its
    methods.  Whatever sequence of [add_clip], [insert_clip],
    [remove_clip], [add_transition], [remove_transition], [clear],
    [set_opacity], [set_muted], [set_locked], [set_enabled] and
    [sort_clips_by_time] calls is made on a new track -- calls that
    raise included -- the track keeps its type and holds only clips of
    the classes its type admits: [get_clips_by_type] of the admitted
    classes returns every clip, and of any other class none. *)
Theorem track_type_restriction_invariant
        (ty : track.TrackType) (name : option string) (enabled : bool)
        (ops : list TrackOp) :
  let t := fold_left (fun t op => apply_track_op op t) ops
                     (track.new ty name enabled) in
  track.track_type t = ty
  /\ well_typed t
  /\ track.get_clips_by_type t (admitted ty) = track._clips t
  /\ (forall k, allowed_on ty k = false -> track.get_clips_by_type t [k] = []).
Proof.
  intros t.
  assert (H : track.track_type t = ty /\ well_typed t).
  { unfold t.
    assert (H0 : track.track_type (track.new ty name enabled) = ty
                 /\ well_typed (track.new ty name enabled))
      by (split; [reflexivity|constructor]).
    revert H0. generalize (track.new ty name enabled) as t0.
    induction ops as [|op ops IH]; intros t0 [Hty Hwt]; [by split|].
    simpl. apply IH.
    destruct (apply_track_op_typed op t0 Hwt) as [-> Hwt']. by split. }
  destruct H as [Hty Hwt]. split; [exact Hty|]. split; [exact Hwt|].
  unfold well_typed in Hwt. rewrite Hty in Hwt.
  unfold track.get_clips_by_type. split.
  - apply filter_true. eapply List.Forall_impl; [|exact Hwt].
    intros c Hc. simpl in Hc. unfold clips.isinstance, admitted.
    destruct ty, (clips.class_of c); simpl in *; congruence.
  - intros k Hk. apply filter_false. eapply List.Forall_impl; [|exact Hwt].
    intros c Hc. simpl in Hc. unfold clips.isinstance.
    destruct ty, k, (clips.class_of c); simpl in *; congruence.
Qed.


Lemma Qlt_bool_false (x y : Q) : Qlt_bool x y = false <-> (y <= x)%Q.
Proof.
  rewrite <- not_true_iff_false, Qlt_bool_iff. split.
  - apply Qnot_lt_le.
  - intros H H'. lra.
Qed.

(** The value [max(0.0, min(1.0, v))]. *)
Lemma clamp_cases (v : Q) :
  ((v <= 0)%Q /\ py_max2 0 (py_min2 1 v) = 0%Q)
  \/ ((0 < v < 1)%Q /\ py_max2 0 (py_min2 1 v) = v)
  \/ ((1 <= v)%Q /\ py_max2 0 (py_min2 1 v) = 1%Q).
Proof.
  unfold py_max2, py_min2.
  destruct (Qlt_bool v 1) eqn:H1.
  - apply Qlt_bool_iff in H1. destruct (Qlt_bool 0 v) eqn:H0.
    + apply Qlt_bool_iff in H0. right. left. by repeat split.
    + apply Qlt_bool_false in H0. left. by split.
  - apply Qlt_bool_false in H1. right. right. by split.
Qed.

(** X6: [Track.set_opacity] never raises and stores the opacity
    clamped to [0.0 .. 1.0]: a value in the range is stored as it is,
    a negative one as 0.0, one above 1.0 as 1.0; clips, transitions,
    type and the enabled flag are unchanged. *)
Theorem set_opacity_clamps (t : track.Track) (o : Q) :
  exists t',
    track.set_opacity o t = (Ok tt, t')
    /\ (0 <= track.opacity t' <= 1)%Q
    /\ ((0 <= o <= 1)%Q -> (track.opacity t' == o)%Q)
    /\ ((o < 0)%Q -> track.opacity t' = 0%Q)
    /\ ((1 < o)%Q -> track.opacity t' = 1%Q)
    /\ track._clips t' = track._clips t
    /\ track._transitions t' = track._transitions t
    /\ track.enabled t' = track.enabled t
    /\ track.track_type t' = track.track_type t.
Proof.
  eexists. split; [reflexivity|]. simpl.
  destruct (clamp_cases o) as [[Ho ->]|[[Ho ->]|[Ho ->]]];
    (split; [lra|]); (split; [intros; lra|]);
    (split; [intros; try reflexivity; lra|]);
    (split; [intros; try reflexivity; lra|]); auto.
Qed.

(** X7: [track[i]] and [get_clip(i)] agree on [0 <= i < len].  For
    [-len <= i < 0] they differ: [track[i]] counts from the end and
    returns the clip [get_clip(i + len)] returns, while [get_clip(i)]
    is [None].  Outside [-len .. len - 1], [get_clip] returns [None]
    where [track[i]] raises [IndexError]. *)
Theorem getitem_and_get_clip (t : track.Track) (i : Z) :
  let n := track.__len__ t in
  (0 <= i < n ->
   exists c, track.__getitem__ t i = Ok c /\ track.get_clip t i = Ok (Some c))
  /\ (- n <= i < 0 ->
      track.get_clip t i = Ok None
      /\ exists c, track.__getitem__ t i = Ok c
                   /\ track.get_clip t (i + n) = Ok (Some c))
  /\ (i < - n \/ n <= i ->
      track.get_clip t i = Ok None
      /\ track.__getitem__ t i = Raise (IndexError "list index out of range")).
Proof.
  intros n. unfold n, track.__len__, track.__getitem__.
  split; [|split].
  - intros Hi. destruct (getitem_in_range (track._clips t) i Hi) as (c & Hget & Hnth).
    exists c. split; [exact Hget|].
    unfold track.get_clip. rewrite Hget.
    destruct (Z.leb_spec 0 i); [|lia].
    destruct (Z.ltb_spec i (pylist.len (track._clips t))); [|lia]. reflexivity.
  - intros Hi. split.
    + unfold track.get_clip. destruct (Z.leb_spec 0 i); [lia|reflexivity].
    + destruct (getitem_in_range (track._clips t) (i + pylist.len (track._clips t)))
        as (c & Hget & Hnth); [lia|].
      exists c. split.
      * unfold pylist.getitem in *.
        destruct (Z.ltb_spec i 0); [|lia].
        destruct (Z.ltb_spec (i + pylist.len (track._clips t)) 0); [lia|].
        exact Hget.
      * unfold track.get_clip. rewrite Hget.
        destruct (Z.leb_spec 0 (i + pylist.len (track._clips t))); [|lia].
        destruct (Z.ltb_spec (i + pylist.len (track._clips t))
                             (pylist.len (track._clips t))); [|lia].
        reflexivity.
  - intros Hi. split.
    + unfold track.get_clip.
      destruct (Z.leb_spec 0 i); simpl; [|reflexivity].
      destruct (Z.ltb_spec i (pylist.len (track._clips t))); [lia|reflexivity].
    + unfold pylist.getitem.
      destruct (Z.ltb_spec i 0).
      * destruct (Z.leb_spec 0 (i + pylist.len (track._clips t))); [lia|reflexivity].
      * destruct (Z.leb_spec 0 i); [|lia]. simpl.
        destruct (Z.ltb_spec i (pylist.len (track._clips t))); [lia|reflexivity].
Qed.

(** X8: [add_transition], [get_transition] and [remove_transition]
    never raise.  After [add_transition(i, tr)], [get_transition(i)]
    is [tr] when [0 <= i < len - 1] and what it was before otherwise
    (no transition can be put after the last clip);
    [remove_transition(i)] then leaves no transition at [i].  Neither
    call changes the transition at another position or the clips. *)
Theorem transition_round_trip (t : track.Track) (i : Z)
        (tr : transitions.Transition) :
  exists t1 t2,
    track.add_transition i tr t = (Ok tt, t1)
    /\ track.remove_transition i t1 = (Ok tt, t2)
    /\ track.get_transition t1 i
       = (if (0 <=? i) && (i <? track.__len__ t - 1) then Some tr
          else track.get_transition t i)
    /\ (forall k, k <> i -> track.get_transition t1 k = track.get_transition t k)
    /\ track.get_transition t2 i = None
    /\ (forall k, k <> i -> track.get_transition t2 k = track.get_transition t k)
    /\ track._clips t1 = track._clips t
    /\ track._clips t2 = track._clips t.
Proof.
  unfold track.remove_transition, track.__len__.
  unfold track.add_transition, bind, get, put, ret.
  destruct ((0 <=? i) && (i <? pylist.len (track._clips t) - 1)) eqn:Hi;
    eexists _, _; (split; [reflexivity|]);
    rewrite del_transition_spec; (split; [reflexivity|]);
    unfold track.get_transition; simpl.
  - rewrite lookup_insert_eq, lookup_delete_eq. repeat split; auto.
    + intros k Hk. by rewrite lookup_insert_ne.
    + intros k Hk. by rewrite lookup_delete_ne, lookup_insert_ne.
  - rewrite lookup_delete_eq. repeat split; auto.
    intros k Hk. by rewrite lookup_delete_ne.
Qed.

(** ** Timelines: inserting, removing and moving tracks *)

Lemma get_track_lookup {T} (tl : timeline.Timeline T) (k : Z) :
  timeline.get_track tl k
  = Ok (if (0 <=? k) && (k <? pylist.len (timeline._tracks tl))
        then timeline._tracks tl !! Z.to_nat k else None).
Proof.
  unfold timeline.get_track.
  destruct (guarded_access (timeline._tracks tl) k) as (r & -> & _ & ->).
  by rewrite nth_error_lookup.
Qed.

Lemma set_tracks_same {T} (tl : timeline.Timeline T) :
  timeline.set_tracks tl (timeline._tracks tl) = tl.
Proof. by destruct tl. Qed.

(** Inserting at an index in range and popping there again. *)
Lemma pop_insert {A} (l : list A) (i : Z) (x : A) :
  0 <= i <= pylist.len l ->
  pylist.pop (pylist.insert_at l i x) i = Ok (x, l).
Proof.
  intros Hi.
  destruct (pop_in_range (pylist.insert_at l i x) i) as (y & Hy & ->);
    [rewrite len_insert; lia|].
  unfold pylist.insert_at in *. unfold pylist.len in Hi.
  destruct (Z.ltb_spec i 0); [lia|].
  replace (Z.min i (pylist.len l)) with i in * by (unfold pylist.len; lia).
  assert (Htake : length (take (Z.to_nat i) l) = Z.to_nat i)
    by (rewrite length_take; lia).
  rewrite lookup_app_r in Hy by lia.
  rewrite Htake, Nat.sub_diag in Hy. injection Hy as <-.
  do 2 f_equal.
  rewrite take_app_length' by (symmetry; exact Htake).
  rewrite drop_app_ge by lia. rewrite Htake.
  replace (S (Z.to_nat i) - Z.to_nat i)%nat with 1%nat by lia.
  simpl. rewrite drop_0. apply take_drop.
Qed.

Lemma insert_in_range {A} (l : list A) (i : Z) (x : A) :
  0 <= i <= pylist.len l ->
  pylist.insert_at l i x = take (Z.to_nat i) l ++ x :: drop (Z.to_nat i) l.
Proof.
  intros Hi. unfold pylist.insert_at. destruct (Z.ltb_spec i 0); [lia|].
  by replace (Z.min i (pylist.len l)) with i by lia.
Qed.

Lemma insert_clamp {A} (l : list A) (i : Z) (x : A) :
  pylist.insert_at l i x
  = pylist.insert_at l (if i <? 0 then Z.max 0 (i + pylist.len l)
                     else Z.min i (pylist.len l)) x.
Proof.
  assert (Hn : 0 <= pylist.len l) by (unfold pylist.len; lia).
  unfold pylist.insert_at at 1. destruct (Z.ltb_spec i 0).
  - rewrite insert_in_range by lia. reflexivity.
  - rewrite insert_in_range by lia. reflexivity.
Qed.

(** X9: [insert_track(track, i)] with an index that fits a C
    [ssize_t] places the track as [list.insert] does: at [i] for
    [0 <= i <= len], at the end for [i > len], at [len + i] (not
    below 0) for [i < 0].  [get_track] at that position returns the
    track, and [remove_track] with that position gives back the
    timeline as it was.  An index that does not fit raises
    [OverflowError] and the timeline is as it was.  [remove_track]
    with an index that is negative or not less than the number of
    tracks does nothing. *)
Theorem insert_track_remove_track {T} (same_object : T -> T -> bool)
        (tl : timeline.Timeline T) (x : T) (i : Z) :
  let n := timeline.__len__ tl in
  let j := if i <? 0 then Z.max 0 (i + n) else Z.min i n in
  (if pylist.fits_ssize_t i then
     exists tl1,
       timeline.insert_track x i tl = (Ok tt, tl1)
       /\ timeline.__len__ tl1 = n + 1
       /\ timeline.get_track tl1 j = Ok (Some x)
       /\ timeline.remove_track same_object (timeline.AsIndex j) tl1
          = (Ok tt, tl)
   else
     timeline.insert_track x i tl
     = (Raise (OverflowError "Python int too large to convert to C ssize_t"),
        tl))
  /\ (forall k, k < 0 \/ n <= k ->
        timeline.remove_track same_object (timeline.AsIndex k) tl
        = (Ok tt, tl)).
Proof.
  intros n j. split.
  - unfold timeline.insert_track, bind, get, lift, put, pylist.insert.
    destruct (pylist.fits_ssize_t i); [|reflexivity].
    eexists. split; [reflexivity|].
    unfold timeline.__len__ in *. simpl.
    assert (Hn : 0 <= n) by (unfold n, pylist.len; lia).
    assert (Hj : 0 <= j <= n) by (unfold j; destruct (Z.ltb_spec i 0); lia).
    assert (Hins : pylist.insert_at (timeline._tracks tl) i x
                   = pylist.insert_at (timeline._tracks tl) j x)
      by apply insert_clamp.
    rewrite Hins.
    assert (Hpop := pop_insert (timeline._tracks tl) j x Hj).
    split; [apply len_insert|]. split.
    + rewrite get_track_lookup. simpl. rewrite len_insert. fold n.
      destruct (Z.leb_spec 0 j); [|lia]. destruct (Z.ltb_spec j (n + 1)); [|lia].
      simpl. destruct (pop_in_range (pylist.insert_at (timeline._tracks tl) j x) j)
        as (y & Hy & Hpop'); [rewrite len_insert; fold n; lia|].
      rewrite Hpop in Hpop'. injection Hpop' as -> _. by rewrite Hy.
    + unfold timeline.remove_track, bind, get, lift, put. simpl.
      rewrite len_insert. fold n.
      destruct (Z.leb_spec 0 j); [|lia]. destruct (Z.ltb_spec j (n + 1)); [|lia].
      simpl. rewrite Hpop. simpl. by destruct tl.
  - intros k Hk. unfold timeline.remove_track, bind, get, ret.
    unfold timeline.__len__ in n. fold n.
    destruct (Z.leb_spec 0 k); simpl; [|reflexivity].
    destruct (Z.ltb_spec k n); [lia|reflexivity].
Qed.

(** X10: [move_track(from_index, to_index)] never raises and keeps
    the tracks (a permutation, the same number).  When both indices
    are in [0 .. len - 1] the track that was at [from_index] is at
    [to_index] afterwards, the other tracks keep their relative order
    (removing the moved track at its new position gives what removing
    it at its old position gave), and [move_track(to_index,
    from_index)] undoes the move.  When either index is out of range
    -- negative ones included -- the timeline is unchanged. *)
Theorem move_track_round_trip {T} (same_object : T -> T -> bool)
        (tl : timeline.Timeline T) (from_index to_index : Z) :
  let n := timeline.__len__ tl in
  exists tl1,
    timeline.move_track from_index to_index tl = (Ok tt, tl1)
    /\ timeline.__len__ tl1 = n
    /\ Permutation (timeline._tracks tl1) (timeline._tracks tl)
    /\ if ((0 <=? from_index) && (from_index <? n))
          && ((0 <=? to_index) && (to_index <? n))
       then
         timeline.get_track tl1 to_index = timeline.get_track tl from_index
         /\ timeline.remove_track same_object (timeline.AsIndex to_index) tl1
            = timeline.remove_track same_object (timeline.AsIndex from_index) tl
         /\ timeline.move_track to_index from_index tl1 = (Ok tt, tl)
       else tl1 = tl.
Proof.
  intros n. unfold timeline.__len__ in *. unfold timeline.move_track at 1.
  unfold bind at 1. unfold get at 1. fold n.
  destruct (((0 <=? from_index) && (from_index <? n))
            && ((0 <=? to_index) && (to_index <? n))) eqn:Hr;
    [|exists tl; repeat split; reflexivity].
  apply andb_true_iff in Hr as [Hf Ht].
  apply andb_true_iff in Hf as [Hf0 Hf1]. apply andb_true_iff in Ht as [Ht0 Ht1].
  apply Z.leb_le in Hf0, Ht0. apply Z.ltb_lt in Hf1, Ht1.
  destruct (pop_in_range (timeline._tracks tl) from_index) as (x & Hx & Hpop);
    [fold n; lia|].
  unfold bind, lift, put. rewrite Hpop. simpl.
  set (l := timeline._tracks tl) in *.
  set (l' := take (Z.to_nat from_index) l ++ drop (S (Z.to_nat from_index)) l).
  assert (Hl : l = take (Z.to_nat from_index) l
                   ++ x :: drop (S (Z.to_nat from_index)) l)
    by (symmetry; by apply take_drop_middle).
  assert (Htake : length (take (Z.to_nat from_index) l) = Z.to_nat from_index).
  { rewrite length_take. unfold n, pylist.len in Hf1. lia. }
  assert (Hlen' : pylist.len l' = n - 1).
  { unfold l', n, pylist.len in *. rewrite length_app, Htake, length_drop. lia. }
  assert (Hpop1 : pylist.pop (pylist.insert_at l' to_index x) to_index = Ok (x, l'))
    by (apply pop_insert; lia).
  assert (Hlen1 : pylist.len (pylist.insert_at l' to_index x) = n)
    by (rewrite len_insert; lia).
  assert (Hback : pylist.insert_at l' from_index x = l).
  { rewrite insert_in_range by lia. unfold l'.
    rewrite take_app_length' by (symmetry; exact Htake).
    rewrite drop_app_length' by (symmetry; exact Htake).
    symmetry. exact Hl. }
  eexists. split; [reflexivity|]. simpl.
  split; [exact Hlen1|]. split; [|split; [|split]].
  - rewrite insert_in_range by lia.
    rewrite <- Permutation_middle, take_drop.
    unfold l'. rewrite Permutation_middle. by rewrite <- Hl.
  - rewrite !get_track_lookup. simpl. rewrite Hlen1. fold l. fold n.
    destruct (Z.leb_spec 0 to_index); [|lia].
    destruct (Z.ltb_spec to_index n); [|lia].
    destruct (Z.leb_spec 0 from_index); [|lia].
    destruct (Z.ltb_spec from_index n); [|lia]. simpl.
    destruct (pop_in_range (pylist.insert_at l' to_index x) to_index)
      as (y & Hy & Hpop'); [lia|].
    rewrite Hpop1 in Hpop'. injection Hpop' as -> _. by rewrite Hy, Hx.
  - unfold timeline.remove_track, bind, get, lift, put. simpl.
    rewrite Hlen1. fold l. fold n.
    destruct (Z.leb_spec 0 to_index); [|lia].
    destruct (Z.ltb_spec to_index n); [|lia].
    destruct (Z.leb_spec 0 from_index); [|lia].
    destruct (Z.ltb_spec from_index n); [|lia]. simpl.
    rewrite Hpop1, Hpop. reflexivity.
  - unfold timeline.move_track, bind, get, lift, put. simpl.
    rewrite Hlen1.
    destruct (Z.leb_spec 0 to_index); [|lia].
    destruct (Z.ltb_spec to_index n); [|lia].
    destruct (Z.leb_spec 0 from_index); [|lia].
    destruct (Z.ltb_spec from_index n); [|lia]. simpl.
    rewrite Hpop1. simpl. rewrite Hback. unfold l. by destruct tl.
Qed.

(** ** Timelines: the clips of all tracks *)

Lemma track_find_clips (t : track.Track) (time : Q) :
  track.find_clips_at_time t time
  = Ok (List.filter (active_at time) (track._clips t)).
Proof. unfold track.find_clips_at_time. apply (find_clips_loop time _ []). Qed.

Lemma get_all_clips_flat (ts : list track.Track) (acc : list clips.Clip) :
  fold_left (fun all_clips t => all_clips ++ track._clips t) ts acc
  = acc ++ flat_map track._clips ts.
Proof.
  revert acc. induction ts as [|t ts IH]; intros acc; simpl.
  - by rewrite app_nil_r.
  - by rewrite IH, app_assoc.
Qed.

Lemma get_clips_by_type_flat (ty : list clips.ClipClass)
      (ts : list track.Track) (acc : list clips.Clip) :
  fold_left (fun cs t => cs ++ track.get_clips_by_type t ty) ts acc
  = acc ++ List.filter (fun c => clips.isinstance c ty)
                       (flat_map track._clips ts).
Proof.
  revert acc. induction ts as [|t ts IH]; intros acc; simpl.
  - by rewrite app_nil_r.
  - rewrite IH, List.filter_app, app_assoc. reflexivity.
Qed.

(** X11: [Timeline.get_all_clips] returns the clips of all tracks,
    enabled or not, track after track; [Timeline.get_clips_by_type]
    returns exactly the clips of [get_all_clips] that are instances of
    the given classes, in the same order (all of them for the four
    clip classes together). *)
Theorem timeline_get_clips_by_type (tl : timeline.Timeline track.Track)
        (clip_type : list clips.ClipClass) :
  timeline.get_clips_by_type tl clip_type
  = List.filter (fun c => clips.isinstance c clip_type)
                (timeline.get_all_clips tl)
  /\ (forall c, In c (timeline.get_all_clips tl)
                <-> exists t, In t (timeline._tracks tl)
                              /\ In c (track._clips t))
  /\ timeline.get_all_clips tl
     = concat (map track._clips (timeline._tracks tl))
  /\ timeline.get_clips_by_type tl
       [clips.CVideoClip; clips.CAudioClip; clips.CImageClip; clips.CTextClip]
     = timeline.get_all_clips tl.
Proof.
  unfold timeline.get_clips_by_type, timeline.get_all_clips.
  rewrite !get_clips_by_type_flat, get_all_clips_flat. simpl.
  split; [reflexivity|]. split; [|split].
  - intros c. rewrite in_flat_map. reflexivity.
  - apply flat_map_concat_map.
  - apply filter_true. apply List.Forall_forall. intros c _.
    unfold clips.isinstance. by destruct (clips.class_of c).
Qed.

(** The items [find_clips_at_time] adds for the tracks [l], the first
    of which has index [k]. *)
Lemma timeline_find_loop (time : Q) (l : list track.Track) (k : nat)
      (acc : list (Z * list clips.Clip)) :
  fold_left
    (fun acc item =>
       rbind acc (fun found =>
         if track.enabled (snd item) then
           rbind (track.find_clips_at_time (snd item) time) (fun active =>
             match active with
             | [] => Ok found
             | _ => Ok (found ++ [(fst item, active)])
             end)
         else Ok found))
    (combine (map Z.of_nat (seq k (length l))) l) (Ok acc)
  = Ok (acc ++ flat_map
                 (fun item =>
                    if track.enabled (snd item) then
                      match List.filter (active_at time) (track._clips (snd item)) with
                      | [] => []
                      | cs => [(fst item, cs)]
                      end
                    else [])
                 (combine (map Z.of_nat (seq k (length l))) l)).
Proof.
  revert k acc. induction l as [|t l IH]; intros k acc; simpl.
  - by rewrite app_nil_r.
  - rewrite track_find_clips. simpl.
    destruct (track.enabled t); simpl.
    + destruct (List.filter (active_at time) (track._clips t)) as [|c cs]; simpl.
      * apply IH.
      * rewrite IH, <- app_assoc. reflexivity.
    + apply IH.
Qed.

(** X12: [Timeline.find_clips_at_time(t)] never raises.  The
    dictionary it returns has the key [i] exactly when track [i] is
    enabled and has a clip active at [t]; the value is the list of
    the clips of that track active at [t], in track order, and is
    never empty.  The keys are inserted in increasing order. *)
Theorem timeline_find_clips_at_time (tl : timeline.Timeline track.Track)
        (time : Q) :
  exists found,
    timeline.find_clips_at_time tl time = Ok found
    /\ (forall i cs,
          In (i, cs) found
          <-> exists t, 0 <= i
                        /\ timeline._tracks tl !! Z.to_nat i = Some t
                        /\ track.enabled t = true
                        /\ cs = List.filter (active_at time) (track._clips t)
                        /\ cs <> [])
    /\ StronglySorted Z.lt (map fst found).
Proof.
  unfold timeline.find_clips_at_time, pylist.enumerate.
  rewrite (timeline_find_loop time (timeline._tracks tl) 0 []). simpl.
  eexists. split; [reflexivity|].
  generalize (timeline._tracks tl) as l. intros l.
  assert (H : forall k,
    (forall i cs,
       In (i, cs)
          (flat_map
             (fun item =>
                if track.enabled (snd item) then
                  match List.filter (active_at time) (track._clips (snd item)) with
                  | [] => []
                  | cs => [(fst item, cs)]
                  end
                else [])
             (combine (map Z.of_nat (seq k (length l))) l))
       <-> exists t, Z.of_nat k <= i
                     /\ l !! (Z.to_nat i - k)%nat = Some t
                     /\ track.enabled t = true
                     /\ cs = List.filter (active_at time) (track._clips t)
                     /\ cs <> [])
    /\ StronglySorted Z.lt
         (map fst
            (flat_map
               (fun item =>
                  if track.enabled (snd item) then
                    match List.filter (active_at time) (track._clips (snd item)) with
                    | [] => []
                    | cs => [(fst item, cs)]
                    end
                  else [])
               (combine (map Z.of_nat (seq k (length l))) l)))).
  { induction l as [|t l IH]; intros k; simpl.
    - split; [|constructor]. intros i cs. split; [intros []|].
      intros (t & _ & Ht & _). rewrite lookup_nil in Ht. discriminate.
    - destruct (IH (S k)) as [IHin IHs]. split.
      + intros i cs. rewrite in_app_iff, IHin. split.
        * intros [Hhd|(t' & Hi & Ht' & Hrest)].
          -- destruct (track.enabled t) eqn:He; [|destruct Hhd].
             destruct (List.filter (active_at time) (track._clips t))
               as [|c cs'] eqn:Hf; [destruct Hhd|].
             destruct Hhd as [[= <- <-]|[]].
             exists t. rewrite Nat2Z.id, Nat.sub_diag.
             split; [lia|]. split; [reflexivity|]. split; [exact He|].
             split; [congruence|discriminate].
          -- exists t'. split; [lia|]. split; [|exact Hrest].
             replace (Z.to_nat i - k)%nat with (S (Z.to_nat i - S k)) by lia.
             exact Ht'.
        * intros (t' & Hi & Ht' & He & Hcs & Hne).
          destruct (decide (i = Z.of_nat k)) as [->|Hik].
          -- left. rewrite Nat2Z.id, Nat.sub_diag in Ht'. injection Ht' as <-.
             rewrite He. rewrite <- Hcs. destruct cs; [congruence|]. by left.
          -- right. exists t'. split; [lia|]. split; [|auto].
             replace (Z.to_nat i - k)%nat with (S (Z.to_nat i - S k)) in Ht' by lia.
             exact Ht'.
      + rewrite map_app. 
        assert (Hlt : Forall (fun j => Z.of_nat k < j)
                        (map fst
                           (flat_map
                              (fun item =>
                                 if track.enabled (snd item) then
                                   match List.filter (active_at time) (track._clips (snd item)) with
                                   | [] => []
                                   | cs => [(fst item, cs)]
                                   end
                                 else [])
                              (combine (map Z.of_nat (seq (S k) (length l))) l)))).
        { apply List.Forall_forall. intros j Hj. apply in_map_iff in Hj.
          destruct Hj as ([j' cs] & <- & Hin). apply IHin in Hin.
          destruct Hin as (? & ? & _). simpl. lia. }
        destruct (track.enabled t); simpl; [|exact IHs].
        destruct (List.filter (active_at time) (track._clips t)); simpl;
          [exact IHs|].
        constructor; assumption. }
  destruct (H 0%nat) as [Hin Hs]. split; [|exact Hs].
  intros i cs. rewrite Hin. rewrite Nat.sub_0_r. reflexivity.
Qed.

(** ** Timelines: adding clips and clearing the tracks *)

Lemma on_track_spec {A} (ref : nat) (c : M track.Track A) (t : track.Track)
      (s : placeholder.Store) :
  placeholder.objects s !! ref = Some t ->
  timeline_objects.on_track ref c s
  = (fst (c t),
     {| placeholder.objects := <[ref := snd (c t)]> (placeholder.objects s);
        placeholder.next_id := placeholder.next_id s |}).
Proof.
  intros Ht. unfold timeline_objects.on_track, bind, placeholder.read_track,
               placeholder.write_track, lift.
  rewrite Ht. reflexivity.
Qed.








(** ** The render queue: statistics and listings *)

Section QueueListing.
Import render_queue.

Lemma count_status_cons (s : JobStatus) (j : RenderJob) (jobs : list RenderJob) :
  count_status s (j :: jobs)
  = ((if JobStatus_eqb (status j) s then 1 else 0) + count_status s jobs)%nat.
Proof.
  unfold count_status. simpl. by destruct (JobStatus_eqb (status j) s).
Qed.

Lemma count_status_total (jobs : list RenderJob) :
  length jobs
  = (count_status PENDING jobs + count_status RUNNING jobs
     + count_status COMPLETED jobs + count_status FAILED jobs
     + count_status CANCELLED jobs)%nat.
Proof.
  induction jobs as [|j jobs IH]; [reflexivity|].
  rewrite !count_status_cons. simpl length. rewrite IH.
  destruct (status j); simpl; lia.
Qed.

(** X15: [get_stats] counts every job exactly once: [total_jobs] is
    the sum of the five status counts and equals [len(queue)];
    [queue_running] is the [_running] flag. *)
Theorem get_stats_counts_add_up (q : RenderQueue) :
  let s := get_stats q in
  total_jobs s
  = (pending s + running s + completed s + failed s + cancelled s)%nat
  /\ Z.of_nat (total_jobs s) = __len__ q
  /\ queue_running s = _running q.
Proof.
  simpl. split; [apply count_status_total|]. split; [|reflexivity].
  unfold __len__. rewrite length_fmap, length_map_to_list. reflexivity.
Qed.

Lemma omap_lookup_delete (k : string) (order : list string)
      (jobs : gmap string RenderJob) :
  ~ In k order ->
  omap (fun job_id => delete k jobs !! job_id) order
  = omap (fun job_id => jobs !! job_id) order.
Proof.
  induction order as [|x order IH]; intros Hk; [reflexivity|].
  csimpl. rewrite lookup_delete_ne by (intros ->; apply Hk; by left).
  rewrite IH by (intros H; apply Hk; by right). reflexivity.
Qed.

(** With a consistent table the values of the map are the jobs of the
    order list, up to their order. *)
Lemma listed_jobs_perm (order : list string) (jobs : gmap string RenderJob) :
  NoDup order ->
  (forall k, In k order <-> is_Some (jobs !! k)) ->
  Permutation (omap (fun job_id => jobs !! job_id) order) (map_to_list jobs).*2.
Proof.
  revert jobs. induction order as [|k order IH]; intros jobs Hnd Hkeys.
  - assert (jobs = ∅) as ->.
    { apply map_empty. intros i. apply eq_None_not_Some. rewrite <- Hkeys.
      intros []. }
    by rewrite map_to_list_empty.
  - apply NoDup_cons in Hnd as [Hk Hnd].
    rewrite list_elem_of_In in Hk.
    destruct (proj1 (Hkeys k) (or_introl eq_refl)) as [j Hj].
    csimpl. rewrite Hj.
    rewrite <- (omap_lookup_delete k order jobs Hk).
    assert (Hjobs : jobs = <[k := j]> (delete k jobs))
      by (symmetry; by apply insert_delete_id).
    set (m := delete k jobs) in *.
    rewrite Hjobs, map_to_list_insert by apply lookup_delete_eq.
    simpl. constructor. apply IH; [exact Hnd|].
    intros i. unfold m. rewrite lookup_delete_is_Some, <- Hkeys. simpl.
    split.
    + intros Hi. split; [|by right]. intros <-. contradiction.
    + intros [Hne [?|?]]; [congruence|assumption].
Qed.

Lemma filter_perm {A} (f : A -> bool) (l l' : list A) :
  Permutation l l' -> Permutation (List.filter f l) (List.filter f l').
Proof.
  induction 1 as [|x l l' _ IH|x y l|l1 l2 l3 _ IH1 _ IH2]; simpl.
  - constructor.
  - destruct (f x); [by constructor|exact IH].
  - destruct (f x), (f y); try reflexivity. apply perm_swap.
  - by transitivity (List.filter f l2).
Qed.

(** X16: on a consistent table (no id twice in the order list, the
    list holding exactly the ids of the map) [list_jobs()] returns the
    jobs in submission order, one per id, as many as [len(queue)];
    [list_jobs(status)] is the sublist of the jobs with that status,
    and its length is the count [get_stats] reports for the status. *)
Theorem list_jobs_agrees_with_stats (q : RenderQueue) :
  consistent q ->
  Forall2 (fun k j => get_job q k = Some j) (_job_order q) (list_jobs q None)
  /\ Z.of_nat (length (list_jobs q None)) = __len__ q
  /\ (forall s, list_jobs q (Some s)
                = List.filter (fun j => JobStatus_eqb (status j) s)
                              (list_jobs q None))
  /\ length (list_jobs q (Some PENDING)) = pending (get_stats q)
  /\ length (list_jobs q (Some RUNNING)) = running (get_stats q)
  /\ length (list_jobs q (Some COMPLETED)) = completed (get_stats q)
  /\ length (list_jobs q (Some FAILED)) = failed (get_stats q)
  /\ length (list_jobs q (Some CANCELLED)) = cancelled (get_stats q).
Proof.
  intros [Hnd Hkeys].
  pose proof (listed_jobs_perm _ _ Hnd Hkeys) as Hperm.
  assert (Hcount : forall s,
             length (list_jobs q (Some s))
             = count_status s (map_to_list (_jobs q)).*2).
  { intros s. unfold list_jobs, count_status.
    apply Permutation_length, filter_perm, Hperm. }
  split; [|split; [|split; [reflexivity|]]].
  - unfold list_jobs, get_job.
    assert (H : forall k, In k (_job_order q) -> is_Some (_jobs q !! k))
      by (intros k; apply Hkeys).
    revert H. generalize (_job_order q) as order.
    induction order as [|k order IH]; intros H; [constructor|].
    destruct (H k (or_introl eq_refl)) as [j Hj]. csimpl. rewrite Hj.
    constructor; [exact Hj|]. apply IH. intros k' Hk'. apply H. by right.
  - unfold list_jobs, __len__. rewrite (Permutation_length Hperm).
    by rewrite length_fmap, length_map_to_list.
  - repeat split; apply Hcount.
Qed.

End QueueListing.

(** A queue holding one submitted job. *)
Lemma list_jobs_agrees_with_stats_witness :
  let q := render_queue.queue
             (snd (submit None (render_queue.initial
                                  (render_queue.new (Some stub_renderer) None)))) in
  Z.of_nat (length (render_queue.list_jobs q None)) = render_queue.__len__ q
  /\ length (render_queue.list_jobs q (Some render_queue.PENDING))
     = render_queue.pending (render_queue.get_stats q).
Proof.
  intros q.
  assert (Hc : consistent q).
  { apply add_job_consistent.
    - split; [constructor|]. intros k. simpl. rewrite lookup_empty.
      split; [intros []|intros [? ?]; discriminate].
    - reflexivity. }
  destruct (list_jobs_agrees_with_stats q Hc) as (_ & Hlen & _ & Hp & _).
  split; [exact Hlen|exact Hp].
Defined.

(** ** The render queue: adding, looking up and removing jobs *)

Section QueueRoundTrip.
Import render_queue.
Context (now : nat -> Q) (uuid4 : nat -> string).

Lemma remove_absent (l : list string) (k : string) :
  ~ In k l -> pylist.remove String.eqb (l ++ [k]) k = Ok l.
Proof.
  induction l as [|y l IH]; intros Hk; simpl.
  - by rewrite String.eqb_refl.
  - destruct (String.eqb_spec y k) as [->|Hne]; [exfalso; apply Hk; by left|].
    rewrite IH by (intros H; apply Hk; by right). reflexivity.
Qed.

(** X17: [add_job] under an id that is not in use (a renderer being
    available) returns the id; [get_job] of the id then returns the
    new job -- a new object, Pending, created at the current clock
    reading, without
    start and completion times, error message or progress -- and
    [get_job] of every other id is as before; the queue is one job
    longer.  [remove_job] of the id then returns [True] and restores
    the table and the order list exactly, and a second [remove_job]
    returns [False] and changes nothing. *)
Theorem add_job_get_job_remove_job tl out (r : option Renderer) opts job_id md
        (st : State) (rd : Renderer) :
  match r with None => default_renderer (queue st) | Some r' => Some r' end
  = Some rd ->
  let k := match job_id with
           | Some i => i
           | None => uuid4 (uuid_draws st)
           end in
  get_job (queue st) k = None ->
  ~ In k (_job_order (queue st)) ->
  exists st1 st2,
    add_job now uuid4 tl out r opts job_id md st = (Ok k, st1)
    /\ get_job (queue st1) k
       = Some {| oid := next_oid st;
                 id := k; timeline := tl; output_path := out; renderer := rd;
                 options := opts; status := PENDING;
                 created_at := now (clock_reads st); started_at := None;
                 completed_at := None; error_message := None; progress := 0;
                 metadata := default [] md |}
    /\ (forall k', k' <> k -> get_job (queue st1) k' = get_job (queue st) k')
    /\ __len__ (queue st1) = __len__ (queue st) + 1
    /\ remove_job k st1 = (Ok true, st2)
    /\ queue st2 = queue st
    /\ remove_job k st2 = (Ok false, st2).
Proof.
  intros Hr k Hfresh Hnot. unfold get_job in *.
  rewrite (add_job_spec now uuid4 tl out r opts job_id md st rd Hr). fold k.
  eexists _, _. split; [reflexivity|]. cbn [queue _jobs set_table].
  split; [apply lookup_insert_eq|].
  split; [intros k' Hk'; by apply lookup_insert_ne|].
  split.
  { unfold __len__. cbn [_jobs set_table].
    rewrite map_size_insert_None by exact Hfresh. lia. }
  rewrite remove_job_spec. cbn [queue _jobs _job_order set_table].
  rewrite lookup_insert_eq. cbv zeta. cbn [status JobStatus_eqb].
  rewrite bool_decide_eq_true_2
    by (apply list_elem_of_In, in_app_iff; right; by left).
  rewrite remove_absent by exact Hnot.
  split; [reflexivity|]. cbn [queue].
  rewrite delete_insert_id by exact Hfresh.
  split; [by destruct (queue st)|].
  rewrite remove_job_spec. cbn [queue _jobs set_table]. by rewrite Hfresh.
Qed.

End QueueRoundTrip.

(** A first job, under a generated id. *)
Lemma add_job_get_job_remove_job_witness :
  let st := render_queue.initial (render_queue.new (Some stub_renderer) None) in
  exists st1 st2,
    submit None st = (Ok "job-0", st1)
    /\ render_queue.remove_job "job-0" st1 = (Ok true, st2)
    /\ render_queue.queue st2 = render_queue.queue st.
Proof.
  intros st.
  destruct (add_job_get_job_remove_job ticking_clock counting_uuid empty_timeline
              "out.mp4" None None None None st stub_renderer eq_refl eq_refl)
    as (st1 & st2 & Hadd & _ & _ & _ & Hrem & Hq & _).
  - intros [].
  - exists st1, st2. split; [exact Hadd|]. split; [exact Hrem|exact Hq].
Defined.

(** ** The render queue: [clear_completed] *)

Section ClearCompleted.
Import render_queue.

Lemma remove_NoDup (l : list string) (k : string) :
  NoDup l -> In k l ->
  pylist.remove String.eqb l k
  = Ok (List.filter (fun x => negb (String.eqb x k)) l).
Proof.
  induction 1 as [|y l Hy Hnd IH]; intros Hin; [destruct Hin|].
  simpl. destruct (String.eqb_spec y k) as [->|Hne]; simpl.
  - f_equal. symmetry. apply filter_true. apply List.Forall_forall.
    intros x Hx. apply negb_true_iff. apply String.eqb_neq. intros ->.
    apply Hy. by apply list_elem_of_In.
  - destruct Hin as [?|Hin]; [congruence|]. by rewrite IH.
Qed.

Lemma filter_absent (l : list string) (k : string) :
  ~ In k l -> List.filter (fun x => negb (String.eqb x k)) l = l.
Proof.
  intros Hk. apply filter_true. apply List.Forall_forall. intros x Hx.
  apply negb_true_iff, String.eqb_neq. intros ->. contradiction.
Qed.

Lemma NoDup_filter_list {A} (f : A -> bool) (l : list A) :
  NoDup l -> NoDup (List.filter f l).
Proof.
  induction 1 as [|x l Hx Hnd IH]; simpl; [constructor|].
  destruct (f x); [|exact IH]. constructor; [|exact IH].
  rewrite list_elem_of_In, filter_In. rewrite list_elem_of_In in Hx. tauto.
Qed.

Lemma clear_completed_loop_spec (ids : list string) (c : nat) (st : State) :
  NoDup (_job_order (queue st)) ->
  clear_completed_loop ids c st = (Ok (c + length ids)%nat, without ids st).
Proof.
  revert c st. induction ids as [|x ids IH]; intros c st Hnd.
  - simpl. unfold ret. f_equal; [f_equal; lia|].
    unfold without. destruct st as [q no cr ud rc]. simpl. f_equal.
    destruct q as [dr cb jobs order run canc]. unfold set_table. simpl. f_equal.
    + apply map_eq. intros k. apply option_eq. intros j.
      rewrite map_lookup_filter_Some. simpl. split; [|tauto].
      intros H. split; [exact H|apply not_elem_of_nil].
    + symmetry. by apply filter_true, List.Forall_forall.
  - cbn [clear_completed_loop]. unfold bind at 1. unfold modify_queue at 1.
    unfold modify at 1. unfold bind at 1. unfold get_queue, bind, get, ret.
    cbn [queue _jobs _job_order set_table].
    set (order1 := List.filter (fun k => negb (String.eqb k x))
                               (_job_order (queue st))).
    set (st1 := {| queue := set_table (delete x (_jobs (queue st))) order1 (queue st);
                   next_oid := next_oid st;
                   clock_reads := clock_reads st; uuid_draws := uuid_draws st;
                   render_calls := render_calls st |}).
    assert (Hstep :
      (if bool_decide (x ∈ _job_order (queue st)) then
         fun s => match lift (pylist.remove String.eqb (_job_order (queue st)) x) s with
                  | (Ok order, s') =>
                      modify_queue
                        (set_table (delete x (_jobs (queue st))) order) s'
                  | (Raise e, s') => (Raise e, s')
                  end
       else fun s => (Ok tt, s))
        {| queue := set_table (delete x (_jobs (queue st)))
                              (_job_order (queue st)) (queue st);
           next_oid := next_oid st;
           clock_reads := clock_reads st; uuid_draws := uuid_draws st;
           render_calls := render_calls st |}
      = (Ok tt, st1)).
    { destruct (bool_decide (x ∈ _job_order (queue st))) eqn:Hin.
      - apply bool_decide_eq_true in Hin. apply list_elem_of_In in Hin.
        unfold lift. rewrite (remove_NoDup _ _ Hnd Hin). reflexivity.
      - apply bool_decide_eq_false in Hin. rewrite list_elem_of_In in Hin.
        unfold st1, order1. rewrite (filter_absent _ _ Hin). reflexivity. }
    match goal with
    | |- match ?c with _ => _ end = _ =>
        replace c with (@Ok unit tt, st1)
    end.
    rewrite IH by (apply NoDup_filter_list, Hnd).
    f_equal; [f_equal; simpl; lia|].
    unfold without, st1. cbn [queue _jobs _job_order set_table clock_reads
                              uuid_draws render_calls next_oid
                              default_renderer progress_callback _running _cancelled].
    f_equal. unfold set_table. f_equal.
    + apply map_eq. intros k. apply option_eq. intros j.
      rewrite !map_lookup_filter_Some, lookup_delete_Some. simpl.
      rewrite not_elem_of_cons. intuition congruence.
    + unfold order1. clear. induction (_job_order (queue st)) as [|y l IHl];
        [reflexivity|]. simpl.
      destruct (String.eqb_spec y x) as [->|Hne]; simpl.
      * rewrite (bool_decide_eq_true_2 (x ∈ x :: ids)) by apply list_elem_of_here.
        simpl. exact IHl.
      * destruct (bool_decide (y ∈ ids)) eqn:Hy.
        -- apply bool_decide_eq_true in Hy.
           rewrite (bool_decide_eq_true_2 (y ∈ x :: ids))
             by (by apply list_elem_of_further).
           simpl. exact IHl.
        -- apply bool_decide_eq_false in Hy.
           rewrite (bool_decide_eq_false_2 (y ∈ x :: ids))
             by (rewrite not_elem_of_cons; tauto).
           simpl. by rewrite IHl.
Qed.

Lemma finished_ids_spec (jobs : gmap string RenderJob) (k : string) :
  k ∈ map fst (List.filter (fun item => is_finished (snd item)) (map_to_list jobs))
  <-> exists j, jobs !! k = Some j /\ is_finished j = true.
Proof.
  rewrite list_elem_of_In, in_map_iff. split.
  - intros ([k' j] & <- & Hin). apply filter_In in Hin as [Hin Hf].
    apply list_elem_of_In, elem_of_map_to_list in Hin. by exists j.
  - intros (j & Hj & Hf). exists (k, j). split; [reflexivity|].
    apply filter_In. split; [|exact Hf].
    by apply list_elem_of_In, elem_of_map_to_list.
Qed.

Lemma without_lookup (ids : list string) (st : State) (k : string) :
  _jobs (queue (without ids st)) !! k
  = if bool_decide (k ∈ ids) then None else _jobs (queue st) !! k.
Proof.
  cbn [without queue _jobs set_table].
  destruct (bool_decide (k ∈ ids)) eqn:Hk.
  - apply bool_decide_eq_true in Hk. apply map_lookup_filter_None. right.
    intros j _. simpl. auto.
  - apply bool_decide_eq_false in Hk. apply option_eq. intros j.
    rewrite map_lookup_filter_Some. simpl. tauto.
Qed.

Lemma without_ext (ids ids' : list string) (st : State) :
  (forall k, k ∈ ids <-> k ∈ ids') -> without ids st = without ids' st.
Proof.
  intros H. unfold without. f_equal. f_equal.
  - apply map_filter_ext. intros k j _. simpl. by rewrite H.
  - apply filter_ext. intros k. f_equal. apply bool_decide_ext, H.
Qed.

(** X18: [clear_completed] on a consistent table returns the number
    of finished jobs (Completed, Failed or Cancelled) and removes
    exactly those: [get_job] of a finished job is [None] afterwards
    and every other job is as before, [list_jobs()] is the former
    listing without the finished jobs, and the table is consistent
    again.  The result does not depend on the order in which the
    dictionary yields the finished ids; neither the clock nor the id
    generator is used and no render call is made. *)
Theorem clear_completed_removes_finished (st : State) :
  consistent (queue st) ->
  exists st',
    clear_completed st
    = (Ok (length (List.filter is_finished (map_to_list (_jobs (queue st))).*2)),
       st')
    /\ (forall k, get_job (queue st') k
                  = match get_job (queue st) k with
                    | Some j => if is_finished j then None else Some j
                    | None => None
                    end)
    /\ list_jobs (queue st') None
       = List.filter (fun j => negb (is_finished j)) (list_jobs (queue st) None)
    /\ consistent (queue st')
    /\ (forall ids,
          (forall k, k ∈ ids <-> exists j, _jobs (queue st) !! k = Some j
                                          /\ is_finished j = true) ->
          clear_completed_loop ids 0 st = (Ok (length ids), st'))
    /\ clock_reads st' = clock_reads st
    /\ uuid_draws st' = uuid_draws st
    /\ render_calls st' = render_calls st.
Proof.
  intros [Hnd Hkeys].
  set (ids0 := map fst (List.filter (fun item => is_finished (snd item))
                                    (map_to_list (_jobs (queue st))))).
  exists (without ids0 st).
  assert (Hlook : forall k,
             _jobs (queue (without ids0 st)) !! k
             = match _jobs (queue st) !! k with
               | Some j => if is_finished j then None else Some j
               | None => None
               end).
  { intros k. rewrite without_lookup.
    destruct (bool_decide (k ∈ ids0)) eqn:Hk.
    - apply bool_decide_eq_true in Hk. apply finished_ids_spec in Hk.
      destruct Hk as (j & -> & ->). reflexivity.
    - apply bool_decide_eq_false in Hk.
      destruct (_jobs (queue st) !! k) as [j|] eqn:Hj; [|reflexivity].
      destruct (is_finished j) eqn:Hf; [|reflexivity].
      exfalso. apply Hk. apply finished_ids_spec. eauto. }
  split; [|split; [|split; [|split; [|split; [|repeat split]]]]].
  - unfold clear_completed, bind, get_queue, get, ret. simpl. fold ids0.
    rewrite clear_completed_loop_spec by exact Hnd. f_equal. f_equal.
    unfold ids0. rewrite length_map. simpl.
    generalize (map_to_list (_jobs (queue st))) as l.
    induction l as [|[k j] l IH]; [reflexivity|]. simpl.
    destruct (is_finished j); simpl; by rewrite IH.
  - exact Hlook.
  - unfold list_jobs.
    assert (Hlook' := Hlook). revert Hlook'.
    cbn [without queue _job_order _jobs set_table].
    generalize (filter (fun kv : string * RenderJob => kv.1 ∉ ids0)
                       (_jobs (queue st))) as jobs'.
    intros jobs' Hlook'. clear Hnd Hkeys Hlook.
    induction (_job_order (queue st)) as [|k order IH]; [reflexivity|].
    cbn [List.filter]. csimpl.
    destruct (bool_decide (k ∈ ids0)) eqn:Hk; cbn [negb].
    + apply bool_decide_eq_true in Hk. apply finished_ids_spec in Hk.
      destruct Hk as (j & -> & Hf). cbn [List.filter]. rewrite Hf.
      cbn [negb]. exact IH.
    + csimpl. rewrite Hlook'.
      destruct (_jobs (queue st) !! k) as [j|] eqn:Hj; [|exact IH].
      destruct (is_finished j) eqn:Hf.
      * exfalso. apply bool_decide_eq_false in Hk. apply Hk.
        apply finished_ids_spec. eauto.
      * cbn [List.filter]. rewrite Hf. cbn [negb]. by rewrite IH.
  - split.
    + cbn [without queue _job_order set_table]. by apply NoDup_filter_list.
    + intros k. rewrite without_lookup.
      cbn [without queue _job_order set_table].
      rewrite filter_In, Hkeys, negb_true_iff.
      destruct (bool_decide (k ∈ ids0)); split.
      * intros [_ ?]; discriminate.
      * intros [? ?]; discriminate.
      * tauto.
      * tauto.
  - intros ids Hids. rewrite clear_completed_loop_spec by exact Hnd.
    f_equal. apply without_ext. intros k.
    rewrite Hids. unfold ids0. by rewrite finished_ids_spec.
Qed.

End ClearCompleted.

(** A decidable criterion for the consistency of a table. *)
Lemma consistent_by_dom (q : render_queue.RenderQueue) :
  NoDup (render_queue._job_order q) ->
  list_to_set (render_queue._job_order q) =@{gset string}
    dom (render_queue._jobs q) ->
  consistent q.
Proof.
  intros Hnd Hdom. split; [exact Hnd|]. intros k.
  rewrite <- list_elem_of_In, <- elem_of_dom, <- Hdom, elem_of_list_to_set.
  reflexivity.
Qed.

(** The three jobs of the example after a run: two Completed and one
    Failed, all three removed. *)
Lemma clear_completed_removes_finished_witness :
  exists st',
    render_queue.clear_completed three_jobs_done = (Ok 3%nat, st')
    /\ render_queue.list_jobs (render_queue.queue st') None = [].
Proof.
  assert (Hc : consistent (render_queue.queue three_jobs_done)).
  { apply consistent_by_dom.
    - apply (bool_decide_unpack (NoDup _)). vm_compute. reflexivity.
    - apply (bool_decide_unpack (_ = _)). vm_compute. reflexivity. }
  destruct (clear_completed_removes_finished three_jobs_done Hc)
    as (st' & Hrun & _ & Hlist & _).
  exists st'. split.
  - rewrite Hrun. reflexivity.
  - rewrite Hlist. reflexivity.
Defined.

(** ** The render queue: how a run ends *)

(** A job is listed and Pending, or it is not. *)
Lemma classic_pending (k : string) (j : render_queue.RenderJob)
      (order : list string) :
  (In k order /\ render_queue.status j = render_queue.PENDING)
  \/ ~ (In k order /\ render_queue.status j = render_queue.PENDING).
Proof.
  destruct (in_dec String.string_dec k order) as [Hin|Hin]; [|tauto].
  destruct (render_queue.status j); (left; by split) || (right; intros [_ ?]; discriminate).
Qed.

Section RunEnds.
Import render_queue.
Context (now : nat -> Q).
Context (render_code : Renderer -> timeline.Timeline track.Track -> string
                       -> option RenderOptions -> External).
Context (callback_code : Callback -> External).

(** The [finally] clause of [run]: whenever the sequential loop is
    left, [_running] is false afterwards. *)
Lemma run_resets_running (mode : QueueMode) (fuel : nat) (st : State)
      (r : result unit) (st' : State) :
  _running (queue st) = false ->
  run now render_code callback_code mode fuel st = Done (r, st') ->
  _running (queue st') = false.
Proof.
  intros Hrun. unfold run, _run_parallel_process. rewrite Hrun.
  destruct mode; [| |discriminate];
    (destruct (_run_sequential _ _ _ _ _) as [[r' st'']| | |];
     [|discriminate..]; by intros [= <- <-]).
Qed.

(** X19: how a run in sequential or process mode ends.  On a queue
    that is already running it raises [RuntimeError] and changes
    nothing.  Otherwise, whatever the renderers and the progress
    callback do, [_running] is false again when the run is left, by
    returning or by an exception, and a [stop()] called before the
    run has no effect on it: the run clears the request.  With
    renderers and a callback that keep quiet -- every call returns or,
    for a render call, raises an [Exception], and leaves the jobs and
    the queue as they are -- the run ends (the fuel exceeding the
    number of Pending jobs listed) by returning, the order list and
    the ids of the table are as before, no listed job is Pending, and
    the jobs that were not both listed and Pending are as they
    were. *)
Theorem run_ends_and_resets_running (mode : QueueMode) (fuel : nat) (st : State) :
  mode <> PARALLEL_THREAD ->
  (if _running (queue st) then
     run now render_code callback_code mode fuel st
     = Done (Raise (RuntimeError "Queue is already running"), st)
   else
     (forall r st',
         run now render_code callback_code mode fuel st = Done (r, st') ->
         _running (queue st') = false)
     /\ run now render_code callback_code mode fuel (snd (stop st))
        = run now render_code callback_code mode fuel st)
  /\ (_running (queue st) = false ->
      callback_quiet callback_code (queue st) ->
      renderers_quiet render_code (queue st) ->
      distinct_objects (queue st) ->
      (length (List.filter (pending_b (_jobs (queue st)))
                           (_job_order (queue st))) < fuel)%nat ->
      exists st',
        run now render_code callback_code mode fuel st = Done (Ok tt, st')
        /\ _running (queue st') = false
        /\ _job_order (queue st') = _job_order (queue st)
        /\ (forall k, is_Some (get_job (queue st') k)
                      <-> is_Some (get_job (queue st) k))
        /\ (forall k j, In k (_job_order (queue st)) ->
                        get_job (queue st') k = Some j -> status j <> PENDING)
        /\ (forall k j, get_job (queue st) k = Some j ->
                        ~ (In k (_job_order (queue st)) /\ status j = PENDING) ->
                        get_job (queue st') k = Some j)).
Proof.
  intros Hmode. split.
  - destruct (_running (queue st)) eqn:Hrun.
    + unfold run. by rewrite Hrun.
    + split; [intros r st'; by apply run_resets_running|].
      unfold run.
      change (_running (queue (snd (stop st)))) with (_running (queue st)).
      rewrite Hrun. reflexivity.
  - intros Hrun Hcb Hrd Hdist Hfuel. unfold run. rewrite Hrun.
    set (st1 := snd (modify_queue (set_flags true false) st)).
    destruct (run_sequential_spec now render_code callback_code fuel st1)
      as (st' & Hseq & Hq & _ & _ & _ & Hnone & Hjobs);
      [exact Hcb|exact Hrd|exact Hdist|reflexivity|exact Hfuel|].
    exists (snd (modify_queue (fun q => set_flags false (_cancelled q) q) st')).
    unfold _run_parallel_process.
    split; [destruct mode; try congruence; by rewrite Hseq|].
    split; [reflexivity|].
    change (_jobs (queue st1)) with (_jobs (queue st)) in *.
    change (_job_order (queue st1)) with (_job_order (queue st)) in *.
    unfold get_job. cbn [modify_queue modify snd queue _jobs _job_order set_flags].
    split; [by rewrite Hq|]. split; [|split].
    + intros k. destruct (_jobs (queue st) !! k) as [j|] eqn:Hk.
      * destruct (Hjobs k j Hk) as [Hproc Hkeep].
        destruct (classic_pending k j (_job_order (queue st))) as [[Hin Hs]|Hnot].
        -- destruct (Hproc Hin Hs) as (? & ? & ? & _ & _ & ->). split; eauto.
        -- rewrite (Hkeep Hnot). split; eauto.
      * rewrite (Hnone k Hk). reflexivity.
    + intros k j Hin Hj Hp.
      destruct (_jobs (queue st) !! k) as [j0|] eqn:Hk.
      * destruct (Hjobs k j0 Hk) as [Hproc Hkeep].
        destruct (classic_pending k j0 (_job_order (queue st))) as [[_ Hs]|Hnot].
        -- destruct (Hproc Hin Hs) as (? & r & ? & _ & _ & Hj').
           rewrite Hj' in Hj. injection Hj as <-.
           pose proof (job_after_not_pending j0 r (now (clock_reads x))
                                             (now (S (clock_reads x)))) as Hn.
           by rewrite Hp in Hn.
        -- rewrite (Hkeep Hnot) in Hj. injection Hj as <-. tauto.
      * rewrite (Hnone k Hk) in Hj. discriminate.
    + intros k j Hk Hnot. by destruct (Hjobs k j Hk) as [_ Hkeep]; apply Hkeep.
Qed.

End RunEnds.

(** The three jobs of the example, one of which fails. *)
Lemma run_ends_and_resets_running_witness :
  exists st',
    render_queue.run ticking_clock (example_render "boom") quiet_callback
                     render_queue.SEQUENTIAL 4 three_jobs
    = render_queue.Done (Ok tt, st')
    /\ render_queue._running (render_queue.queue st') = false
    /\ status_of st' "job-1" = Some render_queue.FAILED.
Proof.
  destruct (run_ends_and_resets_running ticking_clock (example_render "boom")
              quiet_callback render_queue.SEQUENTIAL 4 three_jobs)
    as (_ & Hquiet).
  - discriminate.
  - destruct Hquiet as (st' & Hrun & Hrunning & _).
    + reflexivity.
    + exact I.
    + apply example_render_quiet.
    + apply distinct_objects_by_list.
      apply (bool_decide_unpack (NoDup _)). vm_compute. reflexivity.
    + vm_compute. lia.
    + exists st'. split; [exact Hrun|]. split; [exact Hrunning|].
      revert Hrun. vm_compute. intros [= <-]. reflexivity.
Defined.

(** ** Templates: the registry of placeholders *)

Section Dicts.
Import placeholder.
Context {V : Type}.

Lemma dict_get_set (k k' : string) (v : V) (d : list (string * V)) :
  dict_get k' (dict_set k v d) = if decide (k = k') then Some v else dict_get k' d.
Proof.
  induction d as [|[x y] d IH]; simpl.
  - destruct (String.eqb_spec k k'), (decide (k = k')); congruence.
  - destruct (String.eqb_spec x k) as [->|Hxk]; simpl.
    + destruct (String.eqb_spec k k'), (decide (k = k')); congruence.
    + destruct (String.eqb_spec x k') as [->|Hxk'].
      * destruct (decide (k = k')); congruence.
      * exact IH.
Qed.

Lemma dict_get_Some_keys (k : string) (d : list (string * V)) :
  is_Some (dict_get k d) <-> In k (map fst d).
Proof.
  induction d as [|[x y] d IH]; simpl.
  - split; [intros [? ?]; discriminate|intros []].
  - destruct (String.eqb_spec x k) as [->|Hne].
    + split; [by left|eauto].
    + rewrite IH. split; [by right|intros [?|?]; [congruence|assumption]].
Qed.

Lemma dict_set_keys (k : string) (v : V) (d : list (string * V)) :
  map fst (dict_set k v d)
  = if bool_decide (k ∈ map fst d) then map fst d else map fst d ++ [k].
Proof.
  induction d as [|[x y] d IH]; simpl; [reflexivity|].
  destruct (String.eqb_spec x k) as [->|Hne]; simpl.
  - by rewrite bool_decide_eq_true_2 by apply list_elem_of_here.
  - rewrite IH. destruct (bool_decide (k ∈ map fst d)) eqn:Hk.
    + apply bool_decide_eq_true in Hk.
      by rewrite bool_decide_eq_true_2 by (by apply list_elem_of_further).
    + apply bool_decide_eq_false in Hk.
      rewrite bool_decide_eq_false_2; [reflexivity|].
      intros Hc. apply list_elem_of_In in Hc as [?|Hc]; [congruence|].
      by apply Hk, list_elem_of_In.
Qed.

Lemma dict_set_NoDup (k : string) (v : V) (d : list (string * V)) :
  NoDup (map fst d) -> NoDup (map fst (dict_set k v d)).
Proof.
  intros Hnd. rewrite dict_set_keys.
  destruct (bool_decide (k ∈ map fst d)) eqn:Hk; [exact Hnd|].
  apply bool_decide_eq_false in Hk. apply NoDup_app.
  split; [exact Hnd|]. split; [|apply NoDup_singleton].
  intros x Hx Hx'. apply list_elem_of_singleton in Hx'. by subst.
Qed.

Lemma dict_del_keys (k k' : string) (d : list (string * V)) :
  In k' (map fst (dict_del k d)) -> In k' (map fst d).
Proof.
  induction d as [|[x y] d IH]; simpl; [auto|].
  destruct (String.eqb_spec x k); simpl; [by right|].
  intros [?|?]; [by left|right; auto].
Qed.

Lemma dict_del_NoDup (k : string) (d : list (string * V)) :
  NoDup (map fst d) -> NoDup (map fst (dict_del k d)).
Proof.
  induction d as [|[x y] d IH]; simpl; [auto|]. intros Hnd.
  apply NoDup_cons in Hnd as [Hx Hnd].
  destruct (String.eqb_spec x k); simpl; [exact Hnd|].
  constructor; [|by apply IH].
  intros Hc. apply Hx. apply list_elem_of_In. eapply dict_del_keys.
  apply list_elem_of_In, Hc.
Qed.

Lemma dict_get_del (k k' : string) (d : list (string * V)) :
  NoDup (map fst d) ->
  dict_get k' (dict_del k d) = if decide (k = k') then None else dict_get k' d.
Proof.
  induction d as [|[x y] d IH]; simpl; intros Hnd.
  - by destruct (decide (k = k')).
  - apply NoDup_cons in Hnd as [Hx Hnd].
    destruct (String.eqb_spec x k) as [->|Hxk]; simpl.
    + destruct (decide (k = k')) as [<-|Hne].
      * destruct (dict_get k d) eqn:Hg; [|reflexivity].
        exfalso. apply Hx. apply list_elem_of_In, dict_get_Some_keys. eauto.
      * destruct (String.eqb_spec k k'); [congruence|reflexivity].
    + destruct (String.eqb_spec x k') as [->|Hxk'].
      * destruct (decide (k = k')); congruence.
      * by apply IH.
Qed.

End Dicts.

Section RegistryFacts.
Import placeholder.
Context {Data : Type}.

Lemma add_placeholder_spec (s : Store) (p : Placeholder Data) (ti : Z)
      (ci : option Z) (self : VideoTemplate Data) :
  let self1 := set_placeholders self (dict_set (key p) p (_placeholders self)) in
  (exists ci', add_placeholder s p ti ci self
               = (Ok tt, set_positions self1
                           (<[key p := (ti, ci')]> (_placeholder_positions self)))
               /\ (forall c, ci = Some c -> ci' = c))
  \/ (ci = None /\ exists e, add_placeholder s p ti ci self = (Raise e, self1)).
Proof.
  intros self1.
  assert (Heq : exists r : result Z,
            add_placeholder s p ti ci self
            = match r with
              | Ok c => (Ok tt, set_positions self1
                                  (<[key p := (ti, c)]>
                                     (_placeholder_positions self)))
              | Raise e => (Raise e, self1)
              end
            /\ (forall c, ci = Some c -> r = Ok c)).
  { unfold add_placeholder, bind, modify, get, lift, ret, put, raise.
    fold self1. destruct ci as [c|].
    - exists (Ok c). split; [reflexivity|]. congruence.
    - destruct (timeline.get_track (timeline self1) ti) as [[ref|]|e].
      + destruct (read_track ref s) as [[t|e] s']; simpl.
        * exists (Ok (pylist.len (track._clips t))). split; [reflexivity|].
          intros ? [=].
        * exists (Raise e). split; [reflexivity|]. intros ? [=].
      + eexists (Raise _). split; [reflexivity|]. intros ? [=].
      + exists (Raise e). split; [reflexivity|]. intros ? [=]. }
  destruct Heq as ([c|e] & Heq & Hci).
  - left. exists c. split; [exact Heq|]. intros c' Hc'.
    specialize (Hci c' Hc'). congruence.
  - right. destruct ci as [c|]; [specialize (Hci c eq_refl); discriminate|].
    split; [reflexivity|]. by exists e.
Qed.

Lemma remove_placeholder_spec (k : string) (self : VideoTemplate Data) :
  remove_placeholder k self
  = (Ok tt,
     match dict_get k (_placeholders self) with
     | Some _ =>
         set_positions (set_placeholders self (dict_del k (_placeholders self)))
                       (delete k (_placeholder_positions self))
     | None => self
     end).
Proof.
  unfold remove_placeholder, bind, get, put, ret.
  destruct (dict_get k (_placeholders self)); [|reflexivity]. simpl.
  destruct (bool_decide (is_Some (_placeholder_positions self !! k))) eqn:Hd;
    [reflexivity|].
  apply bool_decide_eq_false in Hd. rewrite <- eq_None_not_Some in Hd.
  rewrite delete_id by exact Hd. reflexivity.
Qed.

Lemma apply_template_op_ok (op : TemplateOp) (self : VideoTemplate Data) :
  registry_ok self -> registry_ok (apply_template_op op self).
Proof.
  intros [Hnd Hpos]. unfold registry_ok, list_placeholders, get_placeholder in *.
  destruct op as [s p ti ci|k]; unfold apply_template_op.
  - destruct (add_placeholder_spec s p ti ci self)
      as [(ci' & -> & _)|(_ & e & ->)]; simpl.
    + split; [by apply dict_set_NoDup|]. intros k.
      rewrite lookup_insert_is_Some, dict_get_set.
      destruct (decide (key p = k)); [eauto|]. intros [?|[_ ?]]; [congruence|auto].
    + split; [by apply dict_set_NoDup|]. intros k Hk.
      rewrite dict_get_set. destruct (decide (key p = k)); [eauto|auto].
  - rewrite remove_placeholder_spec. simpl.
    destruct (dict_get k (_placeholders self)) eqn:Hk; [|by split]. simpl.
    split; [by apply dict_del_NoDup|]. intros k'.
    rewrite lookup_delete_is_Some, dict_get_del by exact Hnd.
    destruct (decide (k = k')); [tauto|]. intros [_ ?]. auto.
Qed.

(** X20: the placeholders of a template.  After any sequence of
    [add_placeholder] and [remove_placeholder] calls on a new template
    (calls that raise included) no key is listed twice by
    [list_placeholders] and every key bound to a position is the key
    of a registered placeholder.  From such a template,
    [add_placeholder(p, ti, ci)] returns, [get_placeholder(p.key)] is
    [p], the key is listed and bound to [(ti, ci)];
    [remove_placeholder(p.key)] then returns and leaves the key
    unregistered, unlisted and unbound.  Neither call affects another
    key. *)
Theorem placeholder_registry (tl : timeline.Timeline nat)
        (info : option TemplateInfo) (ops : list TemplateOp)
        (s : Store) (p : Placeholder Data) (ti ci : Z) :
  let self := fold_left (fun t op => apply_template_op op t) ops (new tl info) in
  registry_ok self
  /\ exists self1 self2,
       add_placeholder s p ti (Some ci) self = (Ok tt, self1)
       /\ remove_placeholder (key p) self1 = (Ok tt, self2)
       /\ get_placeholder self1 (key p) = Some p
       /\ _placeholder_positions self1 !! key p = Some (ti, ci)
       /\ In (key p) (list_placeholders self1)
       /\ get_placeholder self2 (key p) = None
       /\ _placeholder_positions self2 !! key p = None
       /\ ~ In (key p) (list_placeholders self2)
       /\ (forall k, k <> key p ->
              get_placeholder self1 k = get_placeholder self k
              /\ get_placeholder self2 k = get_placeholder self k
              /\ _placeholder_positions self1 !! k = _placeholder_positions self !! k
              /\ _placeholder_positions self2 !! k = _placeholder_positions self !! k).
Proof.
  intros self.
  assert (Hok : registry_ok self).
  { unfold self.
    assert (H0 : registry_ok (new (Data := Data) tl info)).
    { split; [constructor|]. intros k. simpl. rewrite lookup_empty.
      intros [? ?]; discriminate. }
    revert H0. generalize (new (Data := Data) tl info) as t0.
    induction ops as [|op ops IH]; intros t0 H0; [exact H0|].
    simpl. apply IH. by apply apply_template_op_ok. }
  split; [exact Hok|].
  pose proof (apply_template_op_ok (PAdd s p ti (Some ci)) self Hok) as Hok1.
  unfold apply_template_op in Hok1.
  destruct (add_placeholder_spec s p ti (Some ci) self)
    as [(ci' & Hadd & Hci)|([=] & _)].
  rewrite (Hci ci eq_refl) in Hadd. rewrite Hadd in Hok1. simpl in Hok1.
  destruct Hok1 as [Hnd1 _].
  eexists _, _. split; [exact Hadd|]. rewrite remove_placeholder_spec.
  split; [reflexivity|].
  unfold get_placeholder, list_placeholders in *. simpl in *.
  rewrite !dict_get_set. destruct (decide (key p = key p)); [|congruence].
  simpl. rewrite dict_get_del by exact Hnd1.
  destruct (decide (key p = key p)); [|congruence].
  rewrite lookup_insert_eq, lookup_delete_eq.
  split; [reflexivity|]. split; [reflexivity|].
  split. { apply dict_get_Some_keys. rewrite dict_get_set.
           destruct (decide (key p = key p)); [eauto|congruence]. }
  split; [reflexivity|]. split; [reflexivity|].
  split. { intros Hin. apply dict_get_Some_keys in Hin.
           rewrite dict_get_del in Hin by exact Hnd1.
           destruct (decide (key p = key p)); [|congruence].
           destruct Hin; discriminate. }
  intros k Hk. rewrite dict_get_del by exact Hnd1. rewrite !dict_get_set.
  destruct (decide (key p = k)); [congruence|].
  rewrite lookup_delete_ne, !lookup_insert_ne by congruence. auto.
Qed.

End RegistryFacts.

Section PartialRegistration.
Import placeholder.
Context {Data : Type}.

Lemma validate_data_all_flat (self : VideoTemplate Data) (data : Data) :
  validate_data_all self data
  = flat_map (fun kp => validate_data (snd kp) data) (_placeholders self).
Proof.
  unfold validate_data_all.
  assert (H : forall l acc,
             fold_left (fun all_errors kp => all_errors ++ validate_data (snd kp) data)
                       l acc
             = acc ++ flat_map (fun kp : string * Placeholder Data =>
                                  validate_data (snd kp) data) l).
  { induction l as [|kp l IH]; intros acc; simpl.
    - by rewrite app_nil_r.
    - by rewrite IH, app_assoc. }
  apply (H _ []).
Qed.

Lemma dict_set_In {V} (k : string) (v : V) (d : list (string * V)) :
  In (k, v) (dict_set k v d).
Proof.
  induction d as [|[x y] d IH]; simpl; [by left|].
  destruct (String.eqb x k); [by left|by right].
Qed.

(** X21: [add_placeholder] without a clip index for a track index
    that is negative or not less than the number of tracks raises
    [AttributeError] ([get_track] returned [None]) after the
    placeholder was registered: [get_placeholder] returns it, no
    position is bound by the call, and the template goes on to
    validate it -- its validation errors are among those of
    [validate_data], and [fill] raises the validation error for data
    it rejects. *)
Theorem add_placeholder_without_track (s : Store) (p : Placeholder Data)
        (ti : Z) (self : VideoTemplate Data) (data : Data) :
  ti < 0 \/ timeline.__len__ (timeline self) <= ti ->
  exists self',
    add_placeholder s p ti None self
    = (Raise (AttributeError "'NoneType' object has no attribute 'clips'"), self')
    /\ get_placeholder self' (key p) = Some p
    /\ _placeholder_positions self' = _placeholder_positions self
    /\ (forall e, In e (validate_data p data) ->
                  In e (validate_data_all self' data))
    /\ (validate_data p data <> [] ->
        exists msg, forall st, fill self' data st = (Raise (ValueError msg), st)).
Proof.
  intros Hti.
  exists (set_placeholders self (dict_set (key p) p (_placeholders self))).
  assert (Hin : forall e, In e (validate_data p data) ->
                  In e (validate_data_all
                          (set_placeholders self
                             (dict_set (key p) p (_placeholders self))) data)).
  { intros e He. rewrite validate_data_all_flat. simpl. apply in_flat_map.
    exists (key p, p). split; [apply dict_set_In|exact He]. }
  split; [|split; [|split; [reflexivity|split; [exact Hin|]]]].
  - unfold add_placeholder, bind, modify, get, lift, ret, put, raise. simpl.
    rewrite get_track_lookup. unfold timeline.__len__ in Hti.
    destruct (Z.leb_spec 0 ti); simpl; [|reflexivity].
    destruct (Z.ltb_spec ti (pylist.len (timeline._tracks (timeline self))));
      [lia|reflexivity].
  - unfold get_placeholder. simpl. rewrite dict_get_set.
    destruct (decide (key p = key p)); [reflexivity|congruence].
  - intros Hne. unfold fill.
    destruct (validate_data_all
                (set_placeholders self (dict_set (key p) p (_placeholders self)))
                data) as [|e es] eqn:Hall.
    + destruct (validate_data p data) as [|e es]; [congruence|].
      exfalso. exact (Hin e (or_introl eq_refl)).
    + eexists. intros st. reflexivity.
Qed.

End PartialRegistration.

(** The title placeholder, added to the template of the example for a
    track that does not exist. *)
Lemma add_placeholder_without_track_witness :
  exists self',
    placeholder.add_placeholder store_with_title_track
      (placeholder.as_placeholder_text title_placeholder) 5 None title_template
    = (Raise (AttributeError "'NoneType' object has no attribute 'clips'"), self')
    /\ placeholder.get_placeholder self' "title"
       = Some (placeholder.as_placeholder_text title_placeholder).
Proof.
  destruct (add_placeholder_without_track store_with_title_track
              (placeholder.as_placeholder_text title_placeholder) 5
              title_template hello_data)
    as (self' & Hrun & Hget & _).
  - right. vm_compute. discriminate.
  - exists self'. split; [exact Hrun|exact Hget].
Defined.

(** ** Templates: validation and creation of clips *)

(** X22: validation and creation for the concrete placeholders (data
    values being plain strings).  For an audio and for an image
    placeholder [validate_data] reports no error exactly when
    [create_clip] returns a clip.  For a text placeholder
    [create_clip] returns exactly when the key is in the data; a
    required text placeholder that validates can be created; and a
    text that is present validates exactly when [max_length] is
    [None], is 0 (no limit), or is not exceeded by the length of the
    text. *)
Theorem validation_and_creation (data : gmap string string) :
  (forall p : placeholder.PlaceholderAudio,
      placeholder.PlaceholderAudio_validate_data p data = []
      <-> exists c, placeholder.PlaceholderAudio_create_clip p data = Ok c)
  /\ (forall p : placeholder.PlaceholderImage,
        placeholder.PlaceholderImage_validate_data p data = []
        <-> exists c, placeholder.PlaceholderImage_create_clip p data = Ok c)
  /\ (forall p : placeholder.PlaceholderText,
        (exists c, placeholder.PlaceholderText_create_clip p data = Ok c)
        <-> is_Some (data !! placeholder.text_key p))
  /\ (forall p : placeholder.PlaceholderText,
        placeholder.required p = true ->
        placeholder.PlaceholderText_validate_data p data = [] ->
        exists c, placeholder.PlaceholderText_create_clip p data = Ok c)
  /\ (forall (p : placeholder.PlaceholderText) (text : string),
        data !! placeholder.text_key p = Some text ->
        placeholder.PlaceholderText_validate_data p data = []
        <-> match placeholder.max_length p with
            | None => True
            | Some m => m = 0 \/ Z.of_nat (String.length text) <= m
            end).
Proof.
  split; [|split; [|split; [|split]]].
  - intros p. unfold placeholder.PlaceholderAudio_validate_data,
                placeholder.PlaceholderAudio_create_clip.
    destruct (data !! placeholder.audio_key p); split; eauto;
      try discriminate. intros [c Hc]. discriminate.
  - intros p. unfold placeholder.PlaceholderImage_validate_data,
                placeholder.PlaceholderImage_create_clip.
    destruct (data !! placeholder.image_key p); split; eauto;
      try discriminate. intros [c Hc]. discriminate.
  - intros p. unfold placeholder.PlaceholderText_create_clip.
    destruct (data !! placeholder.text_key p); split; eauto.
    + intros [c Hc]. destruct (placeholder.required p); discriminate.
    + intros [? ?]. discriminate.
  - intros p Hreq. unfold placeholder.PlaceholderText_validate_data,
                     placeholder.PlaceholderText_create_clip.
    rewrite Hreq. destruct (data !! placeholder.text_key p); [eauto|discriminate].
  - intros p text Htext. unfold placeholder.PlaceholderText_validate_data.
    rewrite Htext. unfold placeholder.truthy_int.
    destruct (placeholder.max_length p) as [m|]; simpl; [|tauto].
    destruct (Z.eqb_spec m 0) as [->|Hm]; simpl; [tauto|].
    destruct (Z.ltb_spec m (Z.of_nat (String.length text))); split;
      try discriminate; try tauto; intros; lia.
Qed.

(** ** The template library *)

Section LibraryFacts.
Import placeholder.
Context {Data : Type}.

Lemma existsb_eqb_In (n : string) (names : list string) :
  existsb (String.eqb n) names = true <-> In n names.
Proof.
  rewrite existsb_exists. split.
  - intros (x & Hx & Heq). apply String.eqb_eq in Heq. by subst.
  - intros Hin. exists n. split; [exact Hin|apply String.eqb_refl].
Qed.

Lemma add_template_spec (t : VideoTemplate Data) (c : string)
      (lib : TemplateLibrary Data) :
  let name := info_name (info t) in
  let names := default [] (dict_get c (_categories lib)) in
  exists cats',
    add_template t c lib
    = (Ok tt, {| _templates := dict_set name t (_templates lib);
                 _categories := cats' |})
    /\ dict_get c cats'
       = Some (if existsb (String.eqb name) names then names
               else names ++ [name])
    /\ (forall c', c' <> c -> dict_get c' cats' = dict_get c' (_categories lib))
    /\ (NoDup (map fst (_categories lib)) -> NoDup (map fst cats')).
Proof.
  intros name names. unfold add_template, bind, modify, get, put, ret, lift,
                       dict_getitem.
  fold name. simpl. unfold names.
  destruct (dict_get c (_categories lib)) as [ns|] eqn:Hc; simpl.
  - rewrite Hc. simpl. destruct (existsb (String.eqb name) ns) eqn:He; simpl.
    + exists (_categories lib). repeat split; auto.
    + eexists. split; [reflexivity|]. split; [|split].
      * rewrite dict_get_set. by destruct (decide (c = c)).
      * intros c' Hc'. rewrite dict_get_set.
        destruct (decide (c = c')); [congruence|reflexivity].
      * apply dict_set_NoDup.
  - rewrite dict_get_set. destruct (decide (c = c)); [|congruence]. simpl.
    eexists. split; [reflexivity|]. split; [|split].
    + rewrite dict_get_set. by destruct (decide (c = c)).
    + intros c' Hc'. rewrite !dict_get_set.
      destruct (decide (c = c')); [congruence|reflexivity].
    + intros Hnd. by do 2 apply dict_set_NoDup.
Qed.

Lemma add_template_ok (t : VideoTemplate Data) (c : string)
      (lib : TemplateLibrary Data) :
  library_ok lib -> library_ok (snd (add_template t c lib)).
Proof.
  intros (Hnt & Hnc & Hcat).
  destruct (add_template_spec t c lib) as (cats' & -> & Hc & Hother & Hnd).
  unfold library_ok, list_templates, get_template in *. simpl in *.
  split; [by apply dict_set_NoDup|]. split; [auto|].
  intros c' names' Hnames'.
  destruct (decide (c' = c)) as [->|Hne].
  - rewrite Hc in Hnames'. injection Hnames' as <-.
    destruct (dict_get c (_categories lib)) as [ns|] eqn:Hns; simpl.
    + destruct (Hcat c ns Hns) as [Hndns Hin].
      destruct (existsb (String.eqb (info_name (info t))) ns) eqn:He.
      * split; [exact Hndns|]. intros n Hn. rewrite dict_get_set.
        destruct (decide (info_name (info t) = n)); [eauto|auto].
      * split.
        -- apply NoDup_app. split; [exact Hndns|].
           split; [|apply NoDup_singleton].
           intros x Hx Hx'. apply list_elem_of_singleton in Hx'. subst x.
           apply list_elem_of_In, existsb_eqb_In in Hx. congruence.
        -- intros n Hn. rewrite dict_get_set.
           destruct (decide (info_name (info t) = n)); [eauto|].
           apply in_app_iff in Hn as [Hn|[<-|[]]]; [auto|congruence].
    + split; [apply NoDup_singleton|].
      intros n [<-|[]]. rewrite dict_get_set.
      destruct (decide (info_name (info t) = info_name (info t))); [eauto|congruence].
  - rewrite Hother in Hnames' by exact Hne.
    destruct (Hcat c' names' Hnames') as [Hndns Hin].
    split; [exact Hndns|]. intros n Hn. rewrite dict_get_set.
    destruct (decide (info_name (info t) = n)); [eauto|auto].
Qed.

(** X23: the template library stays consistent.  After any sequence
    of [add_template] calls on a new library no template name and no
    category is listed twice, no category lists a name twice, and
    every name a category lists is the name of a template of the
    library.  [add_template(t, c)] never raises; afterwards
    [get_template(t.info.name)] is [t], the name is listed in category
    [c] and among all templates, templates under other names are as
    before and so are the listings of the other categories. *)
Theorem template_library_consistent
        (adds : list (VideoTemplate Data * string))
        (t : VideoTemplate Data) (c : string) :
  let lib := fold_left (fun l a => snd (add_template (fst a) (snd a) l))
                       adds new_library in
  library_ok lib
  /\ exists lib',
       add_template t c lib = (Ok tt, lib')
       /\ library_ok lib'
       /\ get_template lib' (info_name (info t)) = Some t
       /\ In (info_name (info t)) (list_templates lib' (Some c))
       /\ In (info_name (info t)) (list_templates lib' None)
       /\ (forall n, n <> info_name (info t) ->
                     get_template lib' n = get_template lib n)
       /\ (forall c', c' <> c ->
                      list_templates lib' (Some c') = list_templates lib (Some c')).
Proof.
  intros lib.
  assert (Hok : library_ok lib).
  { unfold lib.
    assert (H0 : library_ok (new_library (Data := Data))).
    { split; [constructor|]. split; [constructor|]. intros ? ? [=]. }
    revert H0. generalize (new_library (Data := Data)) as l0.
    induction adds as [|[t0 c0] adds IH]; intros l0 H0; [exact H0|].
    simpl. apply IH. by apply add_template_ok. }
  split; [exact Hok|].
  pose proof (add_template_ok t c lib Hok) as Hok'.
  destruct (add_template_spec t c lib) as (cats' & Hrun & Hc & Hother & _).
  rewrite Hrun in Hok'. eexists. split; [exact Hrun|]. split; [exact Hok'|].
  unfold get_template, list_templates. simpl.
  split; [|split; [|split; [|split]]].
  - rewrite dict_get_set. by destruct (decide (info_name (info t) = info_name (info t))).
  - rewrite Hc. simpl.
    destruct (existsb (String.eqb (info_name (info t)))
                      (default [] (dict_get c (_categories lib)))) eqn:He.
    + by apply existsb_eqb_In.
    + apply in_app_iff. right. by left.
  - apply dict_get_Some_keys. rewrite dict_get_set.
    destruct (decide (info_name (info t) = info_name (info t))); [eauto|congruence].
  - intros n Hn. rewrite dict_get_set.
    destruct (decide (info_name (info t) = n)); [congruence|reflexivity].
  - intros c' Hc'. by rewrite Hother.
Qed.

End LibraryFacts.

(** ** Templates: filling twice *)

Section FillTwice.
Import placeholder.
Context {Data : Type}.

(** The loops of [fill] never lower the allocation counter. *)
Lemma forM_grows {A} (l : list A) (f : A -> M Store unit) :
  (forall x s, (next_id s <= next_id (snd (f x s)))%nat) ->
  forall s, (next_id s <= next_id (snd (forM l f s)))%nat.
Proof.
  intros Hf. induction l as [|x l IH]; intros s; simpl; [lia|].
  unfold bind. specialize (Hf x s).
  destruct (f x s) as [[[]|e] s1]; simpl in *; [|exact Hf].
  specialize (IH s1). lia.
Qed.

Lemma fill_one_grows (self : VideoTemplate Data) (data : Data)
      (tl : timeline.Timeline nat) (kp : string * Placeholder Data) (s : Store) :
  (next_id s <= next_id (snd (fill_one self data tl kp s)))%nat.
Proof.
  unfold fill_one. destruct (_placeholder_positions self !! fst kp) as [[ti ci]|];
    [|simpl; lia].
  unfold bind, lift, new_clip, read_track, write_track, ret.
  destruct (create_clip (snd kp) data) as [c|e]; simpl; [|lia].
  destruct (timeline.get_track tl ti) as [[ref|]|e]; simpl; try lia.
  destruct (objects s !! ref) as [t|]; simpl; [|lia].
  destruct (truthy t && (ci <? pylist.len (track._clips t))); simpl; [|lia].
  destruct (pylist.setitem _ _ _); simpl; lia.
Qed.

(** What [fill] returns lies below the allocation counter it leaves. *)
Lemma fill_result_allocated (self : VideoTemplate Data) (data : Data)
      (s s1 : Store) (tl1 : timeline.Timeline nat) :
  Forall (fun ref => (ref < next_id s)%nat) (timeline._tracks (timeline self)) ->
  fill self data s = (Ok tl1, s1) ->
  (next_id s <= next_id s1)%nat
  /\ Forall (fun ref => (ref < next_id s1)%nat) (timeline._tracks tl1).
Proof.
  intros Hbase. unfold fill.
  destruct (validate_data_all self data); [|discriminate].
  unfold bind at 1. unfold deepcopy. unfold bind at 1. unfold get at 1.
  unfold bind at 1.
  destruct (forM (timeline._tracks (timeline self)) _ s) as [[[]|e] sd];
    [|discriminate].
  unfold bind at 1. unfold modify at 1. unfold ret at 1. unfold bind at 1.
  set (s' := {| objects := objects sd; next_id := next_id s + next_id s |}).
  pose proof (forM_grows (_placeholders self)
                (fill_one self data
                   (timeline.set_tracks (timeline self)
                      (map (fun ref => (ref + next_id s)%nat)
                           (timeline._tracks (timeline self)))))
                (fill_one_grows self data _) s') as Hgrow.
  destruct (forM (_placeholders self) _ s') as [[[]|e] s2]; [|discriminate].
  unfold ret. intros [= <- <-]. simpl in *. split; [lia|].
  apply List.Forall_forall. intros ref Href. apply in_map_iff in Href.
  destruct Href as (r & <- & Hr). rewrite List.Forall_forall in Hbase.
  specialize (Hbase r Hr). lia.
Qed.

(** X24: timelines filled from the same template are independent.
    When the tracks of the base timeline are allocated objects and
    [fill(data1)] has returned a timeline, a later [fill(data2)] --
    whether it returns or raises -- changes no track of that
    timeline, so the timeline denotes what it denoted before; it
    changes no track of the base timeline either, and the timeline it
    returns shares no track with the first one. *)
Theorem fill_twice_independent (self : VideoTemplate Data) (data1 data2 : Data)
        (s s1 : Store) (tl1 : timeline.Timeline nat) :
  Forall (fun ref => (ref < next_id s)%nat) (timeline._tracks (timeline self)) ->
  fill self data1 s = (Ok tl1, s1) ->
  let s2 := snd (fill self data2 s1) in
  (forall ref, In ref (timeline._tracks tl1) ->
               objects s2 !! ref = objects s1 !! ref)
  /\ snapshot s2 tl1 = snapshot s1 tl1
  /\ (forall ref, In ref (timeline._tracks (timeline self)) ->
                  objects s2 !! ref = objects s !! ref)
  /\ (forall tl2, fst (fill self data2 s1) = Ok tl2 ->
        forall ref, In ref (timeline._tracks tl1) ->
                    ~ In ref (timeline._tracks tl2)).
Proof.
  intros Hbase Hfill s2.
  destruct (fill_result_allocated self data1 s s1 tl1 Hbase Hfill) as [Hle Hres].
  pose proof (fill_frame self data1 s) as Hf1. rewrite Hfill in Hf1. simpl in Hf1.
  pose proof (fill_frame self data2 s1) as Hf2. fold s2 in Hf2.
  rewrite List.Forall_forall in Hres, Hbase.
  assert (H1 : forall ref, In ref (timeline._tracks tl1) ->
                 objects s2 !! ref = objects s1 !! ref).
  { intros ref Href. apply Hf2. by apply Hres. }
  split; [exact H1|]. split; [|split].
  - unfold snapshot. 
    assert (Hm : mapM (fun ref => objects s2 !! ref) (timeline._tracks tl1)
                 = mapM (fun ref => objects s1 !! ref) (timeline._tracks tl1)).
    { revert H1. generalize (timeline._tracks tl1) as l.
      induction l as [|r l IH]; intros H1; [reflexivity|].
      cbn. rewrite (H1 r (or_introl eq_refl)).
      rewrite IH by (intros ref Href; apply H1; by right). reflexivity. }
    by rewrite Hm.
  - intros ref Href. rewrite Hf2 by (specialize (Hbase ref Href); lia).
    apply Hf1. by apply Hbase.
  - intros tl2 Htl2 ref Href Hin2.
    assert (Hlow : Forall (fun r => (next_id s1 <= r)%nat) (timeline._tracks tl2)).
    { revert Htl2. unfold fill.
      destruct (validate_data_all self data2); [|discriminate].
      unfold bind at 1. unfold deepcopy. unfold bind at 1. unfold get at 1.
      unfold bind at 1.
      destruct (forM (timeline._tracks (timeline self)) _ s1) as [[[]|e] sd];
        [|discriminate].
      unfold bind at 1. unfold modify at 1. unfold ret at 1. unfold bind at 1.
      destruct (forM (_placeholders self) _ _) as [[[]|e] s3]; [|discriminate].
      unfold ret. simpl. intros [= <-]. simpl.
      apply List.Forall_forall. intros r Hr. apply in_map_iff in Hr.
      destruct Hr as (r0 & <- & _). lia. }
    rewrite List.Forall_forall in Hlow. specialize (Hlow ref Hin2).
    specialize (Hres ref Href). lia.
Qed.

End FillTwice.

(** The title template filled twice. *)
Lemma fill_twice_independent_witness :
  exists tl1 s1,
    placeholder.fill title_template hello_data store_with_title_track
    = (Ok tl1, s1)
    /\ placeholder.snapshot
         (snd (placeholder.fill title_template {[ "title" := "World" ]} s1)) tl1
       = placeholder.snapshot s1 tl1.
Proof.
  eexists _, _. split; [vm_compute; reflexivity|].
  refine (proj1 (proj2 (fill_twice_independent title_template hello_data
                          {[ "title" := "World" ]} store_with_title_track
                          _ _ _ _))).
  - repeat constructor.
  - vm_compute. reflexivity.
Defined.

(** ** Colours in hexadecimal *)

(** The components [0 .. 255]. *)
Lemma byte_range (n : Z) :
  0 <= n <= 255 -> In n (map Z.of_nat (seq 0 256)).
Proof.
  intros Hn. apply in_map_iff. exists (Z.to_nat n). split; [lia|].
  apply in_seq. lia.
Qed.

Lemma format_02x_byte (n : Z) :
  0 <= n <= 255 ->
  exists c1 c2, clips.format_02x n = String c1 (String c2 EmptyString).
Proof.
  intros Hn.
  assert (Hlen : String.length (clips.format_02x n) = 2%nat).
  { apply Nat.eqb_eq. revert n Hn.
    assert (H : forallb (fun n => Nat.eqb (String.length (clips.format_02x n)) 2)
                        (map Z.of_nat (seq 0 256)) = true)
      by (vm_compute; reflexivity).
    rewrite forallb_forall in H. intros n Hn. apply H, byte_range, Hn. }
  destruct (clips.format_02x n) as [|c1 [|c2 [|c3 s]]]; try discriminate.
  by exists c1, c2.
Qed.

Lemma format_02x_inj (n m : Z) :
  0 <= n <= 255 -> 0 <= m <= 255 ->
  clips.format_02x n = clips.format_02x m -> n = m.
Proof.
  intros Hn Hm Heq.
  assert (H : forallb
                (fun n => forallb
                            (fun m => implb (String.eqb (clips.format_02x n)
                                                        (clips.format_02x m))
                                            (n =? m))
                            (map Z.of_nat (seq 0 256)))
                (map Z.of_nat (seq 0 256)) = true)
    by (vm_compute; reflexivity).
  rewrite forallb_forall in H. specialize (H n (byte_range n Hn)).
  rewrite forallb_forall in H. specialize (H m (byte_range m Hm)).
  rewrite Heq, String.eqb_refl in H. simpl in H. by apply Z.eqb_eq.
Qed.

(** X25: [Color.to_hex] on colours whose red, green and blue
    components are within [0 .. 255] returns a string of seven
    characters that starts with [#], and two such colours have the
    same string exactly when they have the same red, green and blue
    components: the string determines the three components, and the
    alpha channel is not encoded. *)
Theorem to_hex_encodes_rgb (c1 c2 : clips.Color) :
  0 <= clips.r c1 <= 255 -> 0 <= clips.g c1 <= 255 -> 0 <= clips.b c1 <= 255 ->
  0 <= clips.r c2 <= 255 -> 0 <= clips.g c2 <= 255 -> 0 <= clips.b c2 <= 255 ->
  String.length (clips.to_hex c1) = 7%nat
  /\ (exists s : string, clips.to_hex c1 = ("#" ++ s)%string)
  /\ (clips.to_hex c1 = clips.to_hex c2
      <-> clips.r c1 = clips.r c2 /\ clips.g c1 = clips.g c2
          /\ clips.b c1 = clips.b c2).
Proof.
  intros Hr1 Hg1 Hb1 Hr2 Hg2 Hb2. unfold clips.to_hex.
  destruct (format_02x_byte _ Hr1) as (r11 & r12 & Er1).
  destruct (format_02x_byte _ Hg1) as (g11 & g12 & Eg1).
  destruct (format_02x_byte _ Hb1) as (b11 & b12 & Eb1).
  destruct (format_02x_byte _ Hr2) as (r21 & r22 & Er2).
  destruct (format_02x_byte _ Hg2) as (g21 & g22 & Eg2).
  destruct (format_02x_byte _ Hb2) as (b21 & b22 & Eb2).
  split; [|split].
  - rewrite Er1, Eg1, Eb1. reflexivity.
  - eexists. reflexivity.
  - split.
    + intros Heq. rewrite Er1, Eg1, Eb1, Er2, Eg2, Eb2 in Heq. simpl in Heq.
      injection Heq as -> -> -> -> -> ->.
      rewrite <- Er2 in Er1. rewrite <- Eg2 in Eg1. rewrite <- Eb2 in Eb1.
      repeat split; by apply format_02x_inj.
    + intros (-> & -> & ->). reflexivity.
Qed.

(** White, opaque and half transparent. *)
Lemma to_hex_encodes_rgb_witness :
  clips.to_hex {| clips.r := 255; clips.g := 255; clips.b := 255; clips.a := 255 |}
  = clips.to_hex {| clips.r := 255; clips.g := 255; clips.b := 255; clips.a := 128 |}
  /\ clips.to_hex {| clips.r := 255; clips.g := 255; clips.b := 255; clips.a := 255 |}
     = "#ffffff".
Proof.
  split; [|reflexivity].
  apply (to_hex_encodes_rgb
           {| clips.r := 255; clips.g := 255; clips.b := 255; clips.a := 255 |}
           {| clips.r := 255; clips.g := 255; clips.b := 255; clips.a := 128 |});
    simpl; lia.
Defined.

(** Outside [0 .. 255] a component takes more than two digits and
    different colours can share a string. *)
Example to_hex_out_of_range :
  clips.to_hex {| clips.r := 16; clips.g := 0; clips.b := 256; clips.a := 255 |}
  = "#1000100"
  /\ clips.to_hex {| clips.r := 256; clips.g := 1; clips.b := 0; clips.a := 255 |}
     = "#1000100"
  /\ clips.to_hex {| clips.r := -1; clips.g := 0; clips.b := 0; clips.a := 255 |}
     = "#-10000".
Proof. repeat split. Qed.

(** ** Parameters of transitions *)

Lemma valid_curve_dec (c : string) :
  existsb (String.eqb c) transitions.valid_curves = true
  <-> In c transitions.valid_curves.
Proof.
  rewrite existsb_exists. split.
  - intros (x & Hx & Heq). apply String.eqb_eq in Heq. by subst.
  - intros Hin. exists c. split; [exact Hin|apply String.eqb_refl].
Qed.

(** X26: transitions keep their parameters valid.
    [CrossfadeTransition(duration, curve)] returns a transition with
    that curve when the curve is one of [linear], [ease_in],
    [ease_out], [ease_in_out], and raises [ValueError] otherwise;
    [set_curve] sets a valid curve and raises [ValueError] for any
    other, leaving the transition as it was, so the curve of a
    transition is always one of the four.  The feather of a
    [WipeTransition] is clamped to [0.0 .. 1.0] by the constructor and
    by [set_feather], which never raise and leave direction and
    duration alone. *)
Theorem transition_parameters_stay_valid :
  (forall d c n,
      match transitions.new_crossfade d c n with
      | Ok t => In c transitions.valid_curves
                /\ transitions.curve t = c
                /\ transitions.crossfade_duration t = d
                /\ transitions.crossfade_name t = n
      | Raise e => ~ In c transitions.valid_curves
                   /\ e = transitions.curve_error
      end)
  /\ (forall t c,
        In (transitions.curve t) transitions.valid_curves ->
        In (transitions.curve (snd (transitions.set_curve c t)))
           transitions.valid_curves
        /\ (In c transitions.valid_curves ->
            transitions.set_curve c t
            = (Ok tt, {| transitions.crossfade_duration :=
                           transitions.crossfade_duration t;
                         transitions.crossfade_name := transitions.crossfade_name t;
                         transitions.curve := c |}))
        /\ (~ In c transitions.valid_curves ->
            transitions.set_curve c t = (Raise transitions.curve_error, t)))
  /\ (forall d dir f n,
        (0 <= transitions.feather (transitions.new_wipe d dir f n) <= 1)%Q
        /\ ((0 <= f <= 1)%Q ->
            (transitions.feather (transitions.new_wipe d dir f n) == f)%Q))
  /\ (forall t f,
        exists t',
          transitions.set_feather f t = (Ok tt, t')
          /\ (0 <= transitions.feather t' <= 1)%Q
          /\ ((0 <= f <= 1)%Q -> (transitions.feather t' == f)%Q)
          /\ ((f < 0)%Q -> transitions.feather t' = 0%Q)
          /\ ((1 < f)%Q -> transitions.feather t' = 1%Q)
          /\ transitions.direction t' = transitions.direction t
          /\ transitions.wipe_duration t' = transitions.wipe_duration t).
Proof.
  split; [|split; [|split]].
  - intros d c n. unfold transitions.new_crossfade.
    destruct (existsb (String.eqb c) transitions.valid_curves) eqn:Hc; cbn [negb].
    + apply valid_curve_dec in Hc. auto.
    + split; [|reflexivity]. rewrite <- valid_curve_dec. congruence.
  - intros t c Hvalid. unfold transitions.set_curve.
    destruct (existsb (String.eqb c) transitions.valid_curves) eqn:Hc; cbn [negb].
    + apply valid_curve_dec in Hc. split; [exact Hc|]. split; [auto|tauto].
    + split; [exact Hvalid|]. split; [|reflexivity].
      rewrite <- valid_curve_dec. congruence.
  - intros d dir f n. simpl.
    destruct (clamp_cases f) as [[Hf ->]|[[Hf ->]|[Hf ->]]];
      (split; [lra|intros; lra]).
  - intros t f. eexists. split; [reflexivity|]. simpl.
    destruct (clamp_cases f) as [[Hf ->]|[[Hf ->]|[Hf ->]]];
      (split; [lra|]); (split; [intros; lra|]);
      (split; [intros; try reflexivity; lra|]);
      (split; [intros; try reflexivity; lra|]); auto.
Qed.

(** ** Render progress *)

(** X27: [RenderProgress.progress_percent] never divides by zero and
    never exceeds 100: it is 0.0 when [total_time <= 0], 100.0 when
    [current_time >= total_time > 0], [current_time / total_time * 100]
    in between, and it is not negative when [current_time] is not.
    [update] stores the time and the message and marks the progress
    complete when [current_time >= total_time]; it never marks it
    incomplete again.  On a new object, whose [total_time] is 0.0,
    every [update] with a non-negative time marks it complete while
    [progress_percent] stays 0.0. *)
Theorem progress_percent_bounds (p : renderer.RenderProgress) :
  (renderer.progress_percent p <= 100)%Q
  /\ ((renderer.total_time p <= 0)%Q -> renderer.progress_percent p = 0%Q)
  /\ ((0 <= renderer.current_time p)%Q -> (0 <= renderer.progress_percent p)%Q)
  /\ ((0 < renderer.total_time p)%Q ->
      (renderer.total_time p <= renderer.current_time p)%Q ->
      renderer.progress_percent p = 100%Q)
  /\ ((0 < renderer.total_time p)%Q ->
      (renderer.current_time p < renderer.total_time p)%Q ->
      renderer.progress_percent p
      = (renderer.current_time p / renderer.total_time p * 100)%Q)
  /\ (forall t m,
        exists p',
          renderer.update t m p = (Ok tt, p')
          /\ renderer.current_time p' = t
          /\ renderer.message p' = m
          /\ renderer.total_time p' = renderer.total_time p
          /\ renderer.is_complete p'
             = renderer.is_complete p || Qle_bool (renderer.total_time p) t)
  /\ (forall t m,
        (0 <= t)%Q ->
        renderer.is_complete (snd (renderer.update t m renderer.new)) = true
        /\ renderer.progress_percent (snd (renderer.update t m renderer.new))
           = 0%Q).
Proof.
  unfold renderer.progress_percent.
  assert (Hdiv : forall c t : Q, (0 < t)%Q ->
            ((c < t)%Q -> (c / t * 100 < 100)%Q)
            /\ ((t <= c)%Q -> (100 <= c / t * 100)%Q)
            /\ ((0 <= c)%Q -> (0 <= c / t * 100)%Q)).
  { intros c t Ht. split; [|split]; intros Hc.
    - assert (c / t < 1)%Q by (apply Qlt_shift_div_r; [exact Ht|lra]). lra.
    - assert (1 <= c / t)%Q by (apply Qle_shift_div_l; [exact Ht|lra]). lra.
    - assert (0 <= c / t)%Q by (apply Qle_shift_div_l; [exact Ht|lra]). lra. }
  destruct (Qle_bool (renderer.total_time p) 0) eqn:Htot.
  - apply Qle_bool_iff in Htot.
    split; [lra|]. split; [reflexivity|]. split; [intros; lra|].
    split; [intros; lra|]. split; [intros; lra|].
    split.
    + intros t m. unfold renderer.update, bind, modify, get, put, ret. simpl.
      destruct (Qle_bool (renderer.total_time p) t); eexists;
        (split; [reflexivity|]); simpl; repeat split;
        by rewrite ?orb_true_r, ?orb_false_r.
    + intros t m Ht. unfold renderer.update, bind, modify, get, put, ret. simpl.
      assert (Hle : Qle_bool 0 t = true) by (by apply Qle_bool_iff).
      rewrite Hle. simpl. split; reflexivity.
  - assert (Hpos : (0 < renderer.total_time p)%Q).
    { apply Qnot_le_lt. intros H. apply Qle_bool_iff in H. congruence. }
    destruct (Hdiv (renderer.current_time p) _ Hpos) as (Hlt & Hge & Hnn).
    unfold py_min2.
    destruct (Qlt_bool (renderer.current_time p / renderer.total_time p * 100) 100)
      eqn:Hm.
    + apply Qlt_bool_iff in Hm.
      split; [lra|]. split; [intros; lra|]. split; [exact Hnn|].
      split; [intros _ H; specialize (Hge H); lra|]. split; [reflexivity|].
      split.
      * intros t m. unfold renderer.update, bind, modify, get, put, ret. simpl.
        destruct (Qle_bool (renderer.total_time p) t); eexists;
          (split; [reflexivity|]); simpl; repeat split;
          by rewrite ?orb_true_r, ?orb_false_r.
      * intros t m Ht. unfold renderer.update, bind, modify, get, put, ret. simpl.
        assert (Hle : Qle_bool 0 t = true) by (by apply Qle_bool_iff).
        rewrite Hle. simpl. split; reflexivity.
    + apply Qlt_bool_false in Hm.
      split; [lra|]. split; [intros; lra|]. split; [intros; lra|].
      split; [reflexivity|]. split; [intros _ H; specialize (Hlt H); lra|].
      split.
      * intros t m. unfold renderer.update, bind, modify, get, put, ret. simpl.
        destruct (Qle_bool (renderer.total_time p) t); eexists;
          (split; [reflexivity|]); simpl; repeat split;
          by rewrite ?orb_true_r, ?orb_false_r.
      * intros t m Ht. unfold renderer.update, bind, modify, get, put, ret. simpl.
        assert (Hle : Qle_bool 0 t = true) by (by apply Qle_bool_iff).
        rewrite Hle. simpl. split; reflexivity.
Qed.

(** ** Simple videos: clips laid end to end *)

Lemma laid_out_app (cs1 cs2 : list clips.Clip) (t0 t1 t2 : Q) :
  laid_out cs1 t0 t1 -> laid_out cs2 t1 t2 -> laid_out (cs1 ++ cs2) t0 t2.
Proof.
  revert t0. induction cs1 as [|c cs1 IH]; intros t0; simpl.
  - by intros ->.
  - intros (Hs & d & Hd & Hrest) H2. split; [exact Hs|]. exists d.
    split; [exact Hd|]. by apply IH.
Qed.

(** Along clips laid end to end with non-negative durations, time
    does not go back. *)
Lemma laid_out_le (cs : list clips.Clip) (t0 t1 : Q) :
  laid_out cs t0 t1 ->
  Forall (fun c => forall d, clips.duration c = Some d -> (0 <= d)%Q) cs ->
  (t0 <= t1)%Q
  /\ Forall (fun c => (t0 <= clips.start_time c)%Q) cs
  /\ Forall (fun e => (e <= t1)%Q) (end_times cs).
Proof.
  revert t0. induction cs as [|c cs IH]; intros t0; simpl.
  - intros -> _. split; [lra|]. split; constructor.
  - intros (Hs & d & Hd & Hrest) Hpos. apply Forall_cons in Hpos as [Hc Hpos].
    specialize (Hc d Hd). destruct (IH _ Hrest Hpos) as (Hle & Hstarts & Hends).
    split; [lra|]. split.
    + constructor; [rewrite Hs; lra|].
      eapply List.Forall_impl; [|exact Hstarts]. intros c' Hc'. simpl in Hc'. lra.
    + rewrite Hd. simpl. constructor; [rewrite Hs; exact Hle|exact Hends].
Qed.

(** With positive durations at most one of the clips is active at any
    time. *)
Lemma laid_out_one_active (cs : list clips.Clip) (t0 t1 time : Q) :
  laid_out cs t0 t1 ->
  Forall (fun c => forall d, clips.duration c = Some d -> (0 < d)%Q) cs ->
  (length (List.filter (active_at time) cs) <= 1)%nat.
Proof.
  revert t0. induction cs as [|c cs IH]; intros t0; simpl; [lia|].
  intros (Hs & d & Hd & Hrest) Hpos. apply Forall_cons in Hpos as [Hc Hpos].
  specialize (IH _ Hrest Hpos).
  destruct (active_at time c) eqn:Hact; [|exact IH].
  assert (Hnone : List.filter (active_at time) cs = []).
  { apply filter_false.
    destruct (laid_out_le cs _ _ Hrest) as (_ & Hstarts & _).
    { eapply List.Forall_impl; [|exact Hpos]. intros c' Hc' d' Hd'.
      simpl in Hc'. specialize (Hc' d' Hd'). lra. }
    eapply List.Forall_impl; [|exact Hstarts]. intros c' Hc'. simpl in Hc'.
    apply active_at_iff in Hact. destruct Hact as (d0 & Hd0 & _ & Hlt).
    rewrite Hd in Hd0. injection Hd0 as <-. rewrite Hs in Hlt.
    apply not_true_iff_false. intros Hact'. apply active_at_iff in Hact'.
    destruct Hact' as (d' & _ & Hle' & _). lra. }
  rewrite Hnone. simpl. lia.
Qed.

(** The end of one clip is the start of the next. *)
Lemma laid_out_consecutive (cs : list clips.Clip) (t0 t1 : Q) (i : nat)
      (c1 c2 : clips.Clip) :
  laid_out cs t0 t1 ->
  cs !! i = Some c1 -> cs !! S i = Some c2 ->
  clips.end_time c1 = Ok (clips.start_time c2).
Proof.
  revert t0 i. induction cs as [|c cs IH]; intros t0 i; simpl; [discriminate|].
  intros (Hs & d & Hd & Hrest) H1 H2. destruct i as [|i]; simpl in *.
  - injection H1 as <-. destruct cs as [|c' cs]; [discriminate|].
    injection H2 as <-. destruct Hrest as (Hs' & _).
    unfold clips.end_time. rewrite Hd, Hs, Hs'. reflexivity.
  - eapply IH; eassumption.
Qed.

(** The last end time is the end of the layout. *)
Lemma laid_out_end (cs : list clips.Clip) (t0 t1 : Q) :
  laid_out cs t0 t1 -> cs <> [] -> In t1 (end_times cs).
Proof.
  revert t0. induction cs as [|c cs IH]; intros t0; simpl; [congruence|].
  intros (Hs & d & Hd & Hrest) _. rewrite Hd. simpl.
  destruct cs as [|c' cs].
  - left. simpl in Hrest. rewrite Hs. congruence.
  - right. apply (IH _ Hrest). discriminate.
Qed.

Lemma make_clip_spec (c : app.ClipConfig) (t : Q) :
  has_keys c ->
  if known_type c then
    exists clip, app.make_clip c t = Ok (Some clip)
                 /\ clips.start_time clip = t
                 /\ clips.duration clip = Some (length_of c)
  else app.make_clip c t = Ok None.
Proof.
  intros (ty & Hty & Hpath & Htext). unfold known_type, app.make_clip, length_of.
  rewrite Hty. simpl.
  destruct (String.eqb ty "video") eqn:Hv; simpl in *.
  { destruct (Hpath eq_refl) as [p ->]. simpl. eauto. }
  destruct (String.eqb ty "audio") eqn:Ha; simpl in *.
  { destruct (Hpath eq_refl) as [p ->]. simpl. eauto. }
  destruct (String.eqb ty "image") eqn:Hi; simpl in *.
  { destruct (Hpath eq_refl) as [p ->]. simpl. eauto. }
  destruct (String.eqb_spec ty "text") as [->|Hne]; simpl; [|reflexivity].
  destruct (Htext eq_refl) as [x ->]. simpl. eauto.
Qed.

Lemma set_clips_twice (t : track.Track) (a b : list clips.Clip) :
  track.set_clips (track.set_clips t a) b = track.set_clips t b.
Proof. reflexivity. Qed.

Lemma add_clips_spec (ref : nat) (configs : list app.ClipConfig) (t0 : Q)
      (s : placeholder.Store) (tr : track.Track) :
  placeholder.objects s !! ref = Some tr ->
  track.track_type tr = track.COMPOSITE ->
  Forall has_keys configs ->
  exists new t1 s',
    app.add_clips ref configs t0 s = (Ok t1, s')
    /\ placeholder.objects s' !! ref
       = Some (track.set_clips tr (track._clips tr ++ new))
    /\ laid_out new t0 t1
    /\ map clips.duration new
       = map (fun c => Some (length_of c)) (List.filter known_type configs)
    /\ (forall r, r <> ref ->
                  placeholder.objects s' !! r = placeholder.objects s !! r).
Proof.
  intros Href Hty Hall. revert t0 s tr Href Hty.
  induction Hall as [|c configs Hc _ IH]; intros t0 s tr Href Hty.
  - exists [], t0, s. simpl. rewrite app_nil_r, set_clips_same. by repeat split.
  - cbn [app.add_clips]. unfold bind at 1. unfold lift at 1.
    pose proof (make_clip_spec c t0 Hc) as Hmake.
    cbn [List.filter]. destruct (known_type c).
    + destruct Hmake as (clip & -> & Hstart & Hdur).
      unfold bind at 1. unfold placeholder.new_clip at 1.
      unfold bind at 1.
      set (clip' := placeholder.set_oid clip (placeholder.next_id s)).
      set (s1 := {| placeholder.objects := placeholder.objects s;
                    placeholder.next_id := S (placeholder.next_id s) |}).
      rewrite (on_track_spec _ _ tr) by exact Href.
      rewrite add_clip_allowed by (by rewrite Hty).
      cbn [fst snd].
      set (tr' := track.set_clips tr (track._clips tr ++ [clip'])).
      set (s2 := {| placeholder.objects := <[ref := tr']> (placeholder.objects s1);
                    placeholder.next_id := placeholder.next_id s1 |}).
      destruct (IH (t0 + default 5 (app.duration c))%Q s2 tr')
        as (new & t1 & s' & Hrun & Hobj & Hlaid & Hdurs & Hother);
        [apply lookup_insert_eq|exact Hty|].
      exists (clip' :: new), t1, s'. split; [exact Hrun|]. split; [|split; [|split]].
      * rewrite Hobj. unfold tr'. rewrite set_clips_twice. simpl.
        by rewrite <- app_assoc.
      * simpl. split; [exact Hstart|]. exists (length_of c).
        split; [exact Hdur|exact Hlaid].
      * simpl. by rewrite Hdur, Hdurs.
      * intros r Hr. rewrite Hother by exact Hr. simpl.
        by rewrite lookup_insert_ne by congruence.
    + rewrite Hmake. apply IH; assumption.
Qed.

(** X28: [create_simple_video] on configurations that have the keys
    their type requires builds one enabled composite track, the only
    track of a timeline of the given resolution and framerate, and
    hands that timeline to [quick_render].  The track holds one clip
    per configuration of type video, audio, image or text, in order
    (configurations of other types are skipped), each with the
    duration of its configuration, 5.0 when none is given.  The first
    clip starts at 0 and each next clip starts where the one before
    it ends; so with positive durations at most one clip is active at
    any time, and with non-negative durations the duration of the
    track is the sum the loop arrived at.  Objects that existed
    before are not touched. *)
Theorem create_simple_video_layout (configs : list app.ClipConfig)
        (resolution : Z * Z) (framerate : Q) (s : placeholder.Store) :
  Forall has_keys configs ->
  exists t total s',
    let tl := {| timeline.width := fst resolution;
                 timeline.height := snd resolution;
                 timeline.framerate := framerate; timeline.name := None;
                 timeline._tracks := [placeholder.next_id s] |} in
    app.simple_video_timeline configs resolution framerate s = (Ok tl, s')
    /\ (forall quick_render output_path,
          app.create_simple_video quick_render configs output_path
                                  resolution framerate s
          = quick_render tl output_path s')
    /\ placeholder.objects s' !! placeholder.next_id s = Some t
    /\ track.track_type t = track.COMPOSITE
    /\ track.enabled t = true
    /\ laid_out (track._clips t) 0 total
    /\ map clips.duration (track._clips t)
       = map (fun c => Some (length_of c)) (List.filter known_type configs)
    /\ (forall i c1 c2,
          track._clips t !! i = Some c1 -> track._clips t !! S i = Some c2 ->
          clips.end_time c1 = Ok (clips.start_time c2))
    /\ (Forall (fun c => (0 < length_of c)%Q) configs ->
        forall time,
          (length (List.filter (active_at time) (track._clips t)) <= 1)%nat)
    /\ (Forall (fun c => (0 <= length_of c)%Q) configs ->
        track._clips t <> [] ->
        exists m, track.duration t = Ok m /\ (m == total)%Q)
    /\ (forall r, (r < placeholder.next_id s)%nat ->
                  placeholder.objects s' !! r = placeholder.objects s !! r).
Proof.
  intros Hall.
  set (s1 := snd (placeholder.alloc_track (track.new track.COMPOSITE None true) s)).
  destruct (add_clips_spec (placeholder.next_id s) configs 0 s1
              (track.new track.COMPOSITE None true))
    as (new & total & s' & Hrun & Hobj & Hlaid & Hdurs & Hother);
    [apply lookup_insert_eq|reflexivity|exact Hall|].
  simpl in Hobj.
  exists (track.set_clips (track.new track.COMPOSITE None true) new), total, s'.
  assert (Hbuild : app.simple_video_timeline configs resolution framerate s
                   = (Ok {| timeline.width := fst resolution;
                            timeline.height := snd resolution;
                            timeline.framerate := framerate; timeline.name := None;
                            timeline._tracks := [placeholder.next_id s] |}, s')).
  { unfold app.simple_video_timeline. unfold bind at 1.
    change (placeholder.alloc_track (track.new track.COMPOSITE None true) s)
      with (Ok (placeholder.next_id s), s1).
    cbv iota beta. unfold bind at 1. rewrite Hrun. reflexivity. }
  assert (Hpos : forall (P : Q -> Prop),
             Forall (fun c => P (length_of c)) configs ->
             Forall (fun c => forall d, clips.duration c = Some d -> P d) new).
  { intros P HP.
    assert (Hk : Forall (fun c => P (length_of c)) (List.filter known_type configs)).
    { apply List.Forall_forall. intros c Hc. apply filter_In in Hc as [Hc _].
      rewrite List.Forall_forall in HP. by apply HP. }
    revert Hk Hdurs. generalize (List.filter known_type configs) as kept.
    clear. induction new as [|c new IH]; intros kept Hk Hd; [constructor|].
    destruct kept as [|k kept]; [discriminate|]. simpl in Hd.
    injection Hd as Hc Hd. apply Forall_cons in Hk as [Hk1 Hk].
    constructor; [|by eapply IH].
    intros d Hd'. rewrite Hc in Hd'. by injection Hd' as <-. }
  cbv zeta. split; [exact Hbuild|]. split; [|split; [exact Hobj|]].
  { intros qr out. unfold app.create_simple_video, bind. by rewrite Hbuild. }
  split; [reflexivity|]. split; [reflexivity|]. simpl.
  split; [exact Hlaid|]. split; [exact Hdurs|].
  split; [intros i c1 c2; by apply laid_out_consecutive with (t0 := 0%Q) (t1 := total)|].
  split; [|split].
  - intros Hp time. eapply laid_out_one_active; [exact Hlaid|].
    apply (Hpos (fun d => (0 < d)%Q) Hp).
  - intros Hp Hne.
    destruct (laid_out_le new _ _ Hlaid (Hpos (fun d => (0 <= d)%Q) Hp))
      as (_ & _ & Hends).
    pose proof (laid_out_end new _ _ Hlaid Hne) as Hin.
    destruct (track_duration_max
                (track.set_clips (track.new track.COMPOSITE None true) new))
      as (m & Hm & Hmin & Hmax).
    { simpl. intros Hnil. rewrite Hnil in Hin. destruct Hin. }
    exists m. split; [exact Hm|]. simpl in *.
    rewrite List.Forall_forall in Hends, Hmax.
    apply Qle_antisym; [by apply Hends|by apply Hmax].
  - intros r Hr. rewrite Hother by lia. unfold s1. simpl.
    apply lookup_insert_ne. lia.
Qed.

(** A video of three seconds, a configuration of a type that is
    skipped, and a title of the default five seconds. *)
Lemma create_simple_video_layout_witness :
  exists t,
    placeholder.objects
      (snd (app.simple_video_timeline
              [ {| app.type := Some "video"; app.path := Some "a.mp4";
                   app.text := None; app.duration := Some 3%Q;
                   app.font_size := None |};
                {| app.type := Some "gif"; app.path := Some "b.gif";
                   app.text := None; app.duration := None;
                   app.font_size := None |};
                {| app.type := Some "text"; app.path := None;
                   app.text := Some "Hi"; app.duration := None;
                   app.font_size := None |} ]
              (1920, 1080) 30 placeholder.empty_store)) !! 0%nat = Some t
    /\ map clips.start_time (track._clips t) = [0%Q; (0 + 3)%Q]
    /\ forall time,
         (length (List.filter (active_at time) (track._clips t)) <= 1)%nat.
Proof.
  destruct (create_simple_video_layout
              [ {| app.type := Some "video"; app.path := Some "a.mp4";
                   app.text := None; app.duration := Some 3%Q;
                   app.font_size := None |};
                {| app.type := Some "gif"; app.path := Some "b.gif";
                   app.text := None; app.duration := None;
                   app.font_size := None |};
                {| app.type := Some "text"; app.path := None;
                   app.text := Some "Hi"; app.duration := None;
                   app.font_size := None |} ]
              (1920, 1080) 30 placeholder.empty_store)
    as (t & total & s' & Hrun & _ & Hobj & _ & _ & Hlaid & _ & _ & Hone & _).
  - repeat constructor; eexists; (split; [reflexivity|]); split;
      first [discriminate | intros _; eexists; reflexivity].
  - cbv zeta in Hrun. pose proof (f_equal snd Hrun) as Hs. cbn [snd] in Hs.
    rewrite Hs. exists t. split; [exact Hobj|]. split.
    + rewrite <- Hs in Hobj. vm_compute in Hobj. injection Hobj as <-.
      reflexivity.
    + apply Hone. repeat constructor.
Defined.

(** ** Removing a track by object *)

Lemma remove_ref_spec (l : list nat) (x : nat) :
  match pylist.remove Nat.eqb l x with
  | Ok l' => exists l1 l2, l = l1 ++ x :: l2 /\ ~ In x l1 /\ l' = l1 ++ l2
  | Raise e => ~ In x l /\ exists msg, e = ValueError msg
  end.
Proof.
  induction l as [|y l IH]; simpl.
  - split; [tauto|eauto].
  - destruct (Nat.eqb_spec y x) as [->|Hne].
    + exists [], l. split; [reflexivity|]. split; [intros []|reflexivity].
    + destruct (pylist.remove Nat.eqb l x) as [l'|e].
      * destruct IH as (l1 & l2 & -> & Hl1 & ->). exists (y :: l1), l2.
        split; [reflexivity|]. split; [|reflexivity].
        intros [?|?]; [congruence|tauto].
      * destruct IH as (Hl & msg & ->). split; [|eauto].
        intros [?|?]; [congruence|tauto].
Qed.

(** X29: [remove_track(track)] with a track object never raises.
    When the track is not on the timeline the [ValueError] of
    [list.remove] is swallowed and the timeline is unchanged; when it
    is, exactly its first occurrence is removed, the tracks before and
    after keep their order, and the number of tracks drops by one.
    Width, height, framerate and name are unchanged. *)
Theorem remove_track_by_object (tl : timeline.Timeline nat) (x : nat) :
  exists tl',
    timeline.remove_track Nat.eqb (timeline.AsTrack x) tl = (Ok tt, tl')
    /\ tl' = timeline.set_tracks tl (timeline._tracks tl')
    /\ (~ In x (timeline._tracks tl) -> tl' = tl)
    /\ (forall l1 l2,
          timeline._tracks tl = l1 ++ x :: l2 -> ~ In x l1 ->
          timeline._tracks tl' = l1 ++ l2)
    /\ (In x (timeline._tracks tl) ->
        timeline.__len__ tl' = timeline.__len__ tl - 1).
Proof.
  unfold timeline.remove_track, try_except, bind, get, lift, put.
  pose proof (remove_ref_spec (timeline._tracks tl) x) as Hspec.
  destruct (pylist.remove Nat.eqb (timeline._tracks tl) x) as [l'|e].
  - destruct Hspec as (l1 & l2 & Htl & Hl1 & ->).
    eexists. split; [reflexivity|]. simpl. split; [reflexivity|].
    split; [|split].
    + intros Hx. exfalso. apply Hx. rewrite Htl. apply in_elt.
    + intros k1 k2 Hk Hk1. rewrite Htl in Hk.
      assert (Hlen : length l1 = length k1).
      { destruct (Nat.lt_total (length l1) (length k1)) as [Hlt|[?|Hlt]];
          [exfalso|assumption|exfalso].
        - apply Hk1. apply (f_equal (fun l => l !! length l1)) in Hk.
          rewrite list_lookup_middle in Hk by reflexivity.
          rewrite lookup_app_l in Hk by exact Hlt.
          symmetry in Hk. apply list_elem_of_In. by eapply list_elem_of_lookup_2.
        - apply Hl1. apply (f_equal (fun l => l !! length k1)) in Hk.
          rewrite (list_lookup_middle k1) in Hk by reflexivity.
          rewrite lookup_app_l in Hk by exact Hlt.
          apply list_elem_of_In. by eapply list_elem_of_lookup_2. }
      apply app_inj_1 in Hk as [-> Hk]; [|exact Hlen]. by injection Hk as ->.
    + intros _. unfold timeline.__len__, pylist.len. simpl. rewrite Htl.
      rewrite !length_app. simpl. lia.
  - destruct Hspec as (Hx & msg & ->). exists tl. simpl.
    split; [reflexivity|]. split; [by destruct tl|]. split; [reflexivity|].
    split; [|tauto]. intros l1 l2 Htl. exfalso. apply Hx. rewrite Htl.
    apply in_elt.
Qed.
